(** * ZipReader: a shallow embedding of the ZIP archive reader

    The development follows the TypeScript class [ZipReader]: a [DataView]
    over the uploaded [ArrayBuffer], the eager parse of the central directory
    run by the constructor, and [extractFile], which re-reads the local file
    header of an entry and hands its payload to a [ReadableStream].

    Numbers are mathematical integers ([Z]): every offset the reader computes
    is a sum of a few unsigned 16 and 32 bit fields, far below the range in
    which a JavaScript number stops being exact. *)

From Stdlib Require Import ZArith List String Ascii Bool Lia DecimalString.
From Stdlib Require Import Strings.Byte.
From Stdlib Require DecimalZ.
Import ListNotations.
Local Open Scope Z_scope.

(** ** Platform values: exceptions, completions, strings *)

(** What a [throw] carries.  The reader itself only throws plain [Error]s with
    a message; [RangeError] is what [DataView] getters and the typed-array
    constructor throw on an out-of-bounds access. *)
Inductive Exn : Type :=
| Error (message : string)
| RangeError.

(** The outcome of evaluating an expression: a value, or an exception. *)
Inductive Completion (A : Type) : Type :=
| Normal (a : A)
| Throw (e : Exn).
Arguments Normal {A} a.
Arguments Throw {A} e.

(** A JavaScript string is a sequence of UTF-16 code units; [===] on strings
    compares these sequences. *)
Definition JSString : Type := list Z.

Definition jsstring_eqb (a b : JSString) : bool :=
  if list_eq_dec Z.eq_dec a b then true else false.

(** String literals of the source that are pure ASCII. *)
Definition js (s : string) : JSString :=
  map (fun c => Z.of_N (N_of_ascii c)) (list_ascii_of_string s).

(** [`${n}`] for an integral number, written in decimal (as the platform does
    below 10^21; the method codes that reach it are 16-bit). *)
Definition number_toString (n : Z) : string :=
  NilZero.string_of_int (Z.to_int n).

(** ** ArrayBuffer, DataView, Uint8Array *)

Definition ArrayBuffer : Type := list byte.

Definition ab_byteLength (b : ArrayBuffer) : Z := Z.of_nat (List.length b).

(** The byte at an index known to be in range. *)
Definition ab_get (b : ArrayBuffer) (i : Z) : Z :=
  Z.of_N (Byte.to_N (nth (Z.to_nat i) b x00)).

Record DataView : Type := mkDataView {
  buffer : ArrayBuffer;
  byteOffset : Z;
  byteLength : Z
}.

(** [new DataView(arrayBuffer)]: the view covers the whole buffer. *)
Definition new_DataView (arrayBuffer : ArrayBuffer) : DataView :=
  {| buffer := arrayBuffer; byteOffset := 0; byteLength := ab_byteLength arrayBuffer |}.

(** [dataView.getUint16(offset, true)] *)
Definition getUint16 (dv : DataView) (offset : Z) : Completion Z :=
  if (offset <? 0) || (byteLength dv <? offset + 2) then Throw RangeError
  else
    let p := byteOffset dv + offset in
    Normal (ab_get (buffer dv) p + 256 * ab_get (buffer dv) (p + 1)).

(** [dataView.getUint32(offset, true)] *)
Definition getUint32 (dv : DataView) (offset : Z) : Completion Z :=
  if (offset <? 0) || (byteLength dv <? offset + 4) then Throw RangeError
  else
    let p := byteOffset dv + offset in
    Normal (ab_get (buffer dv) p
            + 256 * ab_get (buffer dv) (p + 1)
            + 65536 * ab_get (buffer dv) (p + 2)
            + 16777216 * ab_get (buffer dv) (p + 3)).

(** A [Uint8Array] is a view: it shares the buffer it was created over. *)
Record Uint8Array : Type := mkUint8Array {
  ua_buffer : ArrayBuffer;
  ua_byteOffset : Z;
  ua_length : Z
}.

(** [new Uint8Array(buffer, byteOffset, length)] *)
Definition new_Uint8Array (b : ArrayBuffer) (off len : Z) : Completion Uint8Array :=
  if (off <? 0) || (len <? 0) || (ab_byteLength b <? off + len) then Throw RangeError
  else Normal {| ua_buffer := b; ua_byteOffset := off; ua_length := len |}.

(** The bytes seen through the view. *)
Definition ua_bytes (u : Uint8Array) : list byte :=
  firstn (Z.to_nat (ua_length u)) (skipn (Z.to_nat (ua_byteOffset u)) (ua_buffer u)).

(** ** TextDecoder

    [new TextDecoder().decode(bytes)]: the UTF-8 decoder of the Encoding
    Standard in replacement mode, a leading byte order mark dropped, the code
    points then written as UTF-16 code units. *)

Record Utf8State : Type := mkUtf8State {
  code_point : Z;
  bytes_seen : Z;
  bytes_needed : Z;
  lower_boundary : Z;
  upper_boundary : Z
}.

Definition utf8_initial : Utf8State :=
  {| code_point := 0; bytes_seen := 0; bytes_needed := 0;
     lower_boundary := 128; upper_boundary := 191 |}.

(** A byte met while no sequence is open. *)
Definition utf8_lead (b : Z) : list Z * Utf8State :=
  if b <=? 127 then ([b], utf8_initial)
  else if (194 <=? b) && (b <=? 223) then
    ([], {| code_point := Z.land b 31; bytes_seen := 0; bytes_needed := 1;
            lower_boundary := 128; upper_boundary := 191 |})
  else if (224 <=? b) && (b <=? 239) then
    ([], {| code_point := Z.land b 15; bytes_seen := 0; bytes_needed := 2;
            lower_boundary := if b =? 224 then 160 else 128;
            upper_boundary := if b =? 237 then 159 else 191 |})
  else if (240 <=? b) && (b <=? 244) then
    ([], {| code_point := Z.land b 7; bytes_seen := 0; bytes_needed := 3;
            lower_boundary := if b =? 240 then 144 else 128;
            upper_boundary := if b =? 244 then 143 else 191 |})
  else ([65533], utf8_initial).

Definition utf8_handler (st : Utf8State) (b : Z) : list Z * Utf8State :=
  if bytes_needed st =? 0 then utf8_lead b
  else if (b <? lower_boundary st) || (upper_boundary st <? b) then
    let '(out, st') := utf8_lead b in (65533 :: out, st')
  else
    let cp := Z.lor (Z.shiftl (code_point st) 6) (Z.land b 63) in
    if bytes_seen st + 1 =? bytes_needed st then ([cp], utf8_initial)
    else ([], {| code_point := cp; bytes_seen := bytes_seen st + 1;
                 bytes_needed := bytes_needed st;
                 lower_boundary := 128; upper_boundary := 191 |}).

Fixpoint utf8_decode_from (st : Utf8State) (bs : list byte) : list Z :=
  match bs with
  | [] => if bytes_needed st =? 0 then [] else [65533]
  | b :: rest =>
      let '(out, st') := utf8_handler st (Z.of_N (Byte.to_N b)) in
      out ++ utf8_decode_from st' rest
  end.

Definition utf16_units (cp : Z) : list Z :=
  if cp <? 65536 then [cp]
  else [55296 + Z.shiftr (cp - 65536) 10; 56320 + Z.land (cp - 65536) 1023].

Definition TextDecoder_decode (u : Uint8Array) : JSString :=
  let cps := utf8_decode_from utf8_initial (ua_bytes u) in
  let cps := match cps with 65279 :: rest => rest | _ => cps end in
  flat_map utf16_units cps.

(** ** Bit operators on numbers

    [>>] and [&] work on the 32-bit two's complement reading of their
    operands. *)

Definition to_int32 (z : Z) : Z :=
  let m := z mod 4294967296 in
  if 2147483648 <=? m then m - 4294967296 else m.

Definition js_shr (a n : Z) : Z := Z.shiftr (to_int32 a) (n mod 32).

Definition js_and (a b : Z) : Z := to_int32 (Z.land (to_int32 a) (to_int32 b)).

(** ** Date

    [new Date(year, monthIndex, day, hours, minutes, seconds)] builds a
    timestamp from calendar components read in the local time zone.  The value
    is carried as the components handed to the constructor; what the platform
    then does with components outside their calendar range is not part of the
    reader.  Two records with the same components stand for the same [Date];
    two records with different components may stand for the same [Date] as
    well, since the platform brings a month index of 12 or a day of 0 back
    into the calendar.  The statements below therefore say which components
    are handed over, and draw nothing from two [Date]s being different. *)
Record Date : Type := new_Date {
  date_year : Z;
  date_monthIndex : Z;
  date_day : Z;
  date_hours : Z;
  date_minutes : Z;
  date_seconds : Z
}.

(** ** ReadableStream *)

Inductive TransformStream : Type :=
| DecompressionStream (format : string).

Inductive ReadableStream : Type :=
| enqueue_close (chunk : Uint8Array)
    (* start(controller) { controller.enqueue(chunk); controller.close(); } *)
| pipeThrough (source : ReadableStream) (transform : TransformStream).

(** ** The reader *)

Record ZipFileInfo : Type := mkZipFileInfo {
  filename : JSString;
  encrypted : bool;
  compressedSize : Z;
  uncompressedSize : Z;
  compressionMethod : Z;
  crc32 : Z;
  lastModified : Date;
  offset : Z
}.

Record ZipReader : Type := mkZipReader {
  dataView : DataView;
  files : list ZipFileInfo
}.

(** Methods run against [this] and may throw: a state and exception monad.
    The state that a throwing method leaves behind is kept, as it is in the
    source. *)
Definition M (A : Type) : Type := ZipReader -> Completion A * ZipReader.

Definition ret {A} (a : A) : M A := fun this => (Normal a, this).

Definition bind {A B} (c : M A) (k : A -> M B) : M B :=
  fun this =>
    match c this with
    | (Normal a, this') => k a this'
    | (Throw e, this') => (Throw e, this')
    end.

Definition throw {A} (e : Exn) : M A := fun this => (Throw e, this).

Definition lift {A} (c : Completion A) : M A := fun this => (c, this).

Definition this_dataView : M DataView := fun this => (Normal (dataView this), this).

Definition this_files : M (list ZipFileInfo) := fun this => (Normal (files this), this).

(** [this.files.push(fileInfo)] *)
Definition this_files_push (fileInfo : ZipFileInfo) : M unit :=
  fun this =>
    (Normal tt, {| dataView := dataView this; files := files this ++ [fileInfo] |}).

Declare Scope zip_scope.
Delimit Scope zip_scope with zip.
Notation "x <- c ;; k" := (bind c (fun x => k))
  (at level 61, c at next level, right associativity) : zip_scope.
Notation "c ;; k" := (bind c (fun _ => k))
  (at level 61, right associativity) : zip_scope.
Local Open Scope zip_scope.

Definition EOCD_SIGNATURE : Z := 0x06054b50.
Definition CENTRAL_DIRECTORY_SIGNATURE : Z := 0x02014b50.
Definition LOCAL_FILE_HEADER_SIGNATURE : Z := 0x04034b50.

(** [dosDateTimeToDate(dosDate, dosTime)] *)
Definition dosDateTimeToDate (dosDate dosTime : Z) : Date :=
  let year := js_and (js_shr dosDate 9) 0x7f + 1980 in
  let month := js_and (js_shr dosDate 5) 0x0f - 1 in
  let day := js_and dosDate 0x1f in
  let hour := js_and (js_shr dosTime 11) 0x1f in
  let minute := js_and (js_shr dosTime 5) 0x3f in
  let second := js_and dosTime 0x1f * 2 in
  new_Date year month day hour minute second.

(** [parseCentralDirectoryEntry(offset)] *)
Definition parseCentralDirectoryEntry (offset : Z) : M ZipFileInfo :=
  dv <- this_dataView ;;
  versionNeeded <- lift (getUint16 dv (offset + 6)) ;;
  generalPurpose <- lift (getUint16 dv (offset + 8)) ;;
  compressionMethod <- lift (getUint16 dv (offset + 10)) ;;
  lastModTime <- lift (getUint16 dv (offset + 12)) ;;
  lastModDate <- lift (getUint16 dv (offset + 14)) ;;
  crc32 <- lift (getUint32 dv (offset + 16)) ;;
  compressedSize <- lift (getUint32 dv (offset + 20)) ;;
  uncompressedSize <- lift (getUint32 dv (offset + 24)) ;;
  filenameLen <- lift (getUint16 dv (offset + 28)) ;;
  localHeaderOffset <- lift (getUint32 dv (offset + 42)) ;;
  filenameBytes <- lift (new_Uint8Array (buffer dv) (byteOffset dv + offset + 46) filenameLen) ;;
  let filename := TextDecoder_decode filenameBytes in
  let encrypted := negb (js_and generalPurpose 0x0001 =? 0) in
  let lastModified := dosDateTimeToDate lastModDate lastModTime in
  ret {| filename := filename;
         encrypted := encrypted;
         compressedSize := compressedSize;
         uncompressedSize := uncompressedSize;
         compressionMethod := compressionMethod;
         crc32 := crc32;
         lastModified := lastModified;
         offset := localHeaderOffset |}.

(** The loop of [findEOCD]: [i] runs from [byteLength - 22] down to
    [searchStart]; [k] counts the candidates still to visit, the current one
    being [searchStart + k - 1]. *)
Fixpoint findEOCD_loop (dv : DataView) (searchStart : Z) (k : nat) : M Z :=
  match k with
  | O => ret (-1)
  | S k' =>
      let i := searchStart + Z.of_nat k' in
      signature <- lift (getUint32 dv i) ;;
      if signature =? EOCD_SIGNATURE then ret i
      else findEOCD_loop dv searchStart k'
  end.

(** [findEOCD()] *)
Definition findEOCD : M Z :=
  dv <- this_dataView ;;
  let maxCommentSize := 65535 in
  let searchStart := Z.max 0 (byteLength dv - maxCommentSize - 22) in
  findEOCD_loop dv searchStart (Z.to_nat (byteLength dv - 22 - searchStart + 1)).

(** The loop of [parse]: [n] iterations are left, the cursor is at [offset]. *)
Fixpoint parse_loop (n : nat) (offset : Z) : M unit :=
  match n with
  | O => ret tt
  | S n' =>
      dv <- this_dataView ;;
      signature <- lift (getUint32 dv offset) ;;
      if negb (signature =? CENTRAL_DIRECTORY_SIGNATURE)
      then throw (Error "Invalid central directory signature")
      else
        fileInfo <- parseCentralDirectoryEntry offset ;;
        this_files_push fileInfo ;;
        filenameLen <- lift (getUint16 dv (offset + 28)) ;;
        extraLen <- lift (getUint16 dv (offset + 30)) ;;
        commentLen <- lift (getUint16 dv (offset + 32)) ;;
        parse_loop n' (offset + 46 + filenameLen + extraLen + commentLen)
  end.

(** [parse()] *)
Definition parse : M unit :=
  eocdOffset <- findEOCD ;;
  if eocdOffset =? -1
  then throw (Error "Not a valid ZIP file: EOCD not found")
  else
    dv <- this_dataView ;;
    centralDirSize <- lift (getUint32 dv (eocdOffset + 12)) ;;
    centralDirOffset <- lift (getUint32 dv (eocdOffset + 16)) ;;
    numEntries <- lift (getUint16 dv (eocdOffset + 10)) ;;
    parse_loop (Z.to_nat numEntries) centralDirOffset.

(** [new ZipReader(arrayBuffer)]: the object exists for the caller only when
    [parse] returns. *)
Definition new_ZipReader (arrayBuffer : ArrayBuffer) : Completion ZipReader :=
  let this := {| dataView := new_DataView arrayBuffer; files := [] |} in
  match parse this with
  | (Normal _, this') => Normal this'
  | (Throw e, _) => Throw e
  end.

(** [String.prototype.padStart(targetLength, padString)]: the pad string is
    repeated, and cut, to fill what is missing in front. *)
Fixpoint pad_fill (n : nat) (padString rest : string) : string :=
  match n with
  | O => EmptyString
  | S k =>
      match rest with
      | String c r => String c (pad_fill k padString r)
      | EmptyString =>
          match padString with
          | String c r => String c (pad_fill k padString r)
          | EmptyString => EmptyString
          end
      end
  end.

Definition padStart (s : string) (targetLength : nat) (padString : string) : string :=
  if (targetLength <=? String.length s)%nat then s
  else (pad_fill (targetLength - String.length s) padString padString ++ s)%string.

(** [n.toString(16)] for an integral number: the digits of its magnitude in
    base 16, lower case, most significant first; [fuel] bounds their number. *)
Definition hex_digit (d : Z) : ascii :=
  if d <? 10 then ascii_of_N (Z.to_N (48 + d)) else ascii_of_N (Z.to_N (87 + d)).

Fixpoint to_radix16 (fuel : nat) (n : Z) (acc : string) : string :=
  match fuel with
  | O => acc
  | S k =>
      let acc' := String (hex_digit (n mod 16)) acc in
      if n / 16 =? 0 then acc' else to_radix16 k (n / 16) acc'
  end.

Definition number_toString16 (n : Z) : string :=
  if n <? 0 then String "-"%char (to_radix16 (S (Z.to_nat (Z.log2 (- n)))) (- n) EmptyString)
  else to_radix16 (S (Z.to_nat (Z.log2 n))) n EmptyString.

(** [getCompressionMethodName(method)] *)
Definition getCompressionMethodName (method : Z) : string :=
  let methods : Z -> option string := fun key =>
    if key =? 0 then Some "Stored"%string
    else if key =? 8 then Some "Deflated"%string
    else if key =? 12 then Some "BZIP2"%string
    else if key =? 14 then Some "LZMA"%string
    else if key =? 93 then Some "Zstandard"%string
    else if key =? 95 then Some "XZ"%string
    else if key =? 97 then Some "WavPack"%string
    else if key =? 98 then Some "PPMd"%string
    else None in
  match methods method with
  | Some name => name
  | None => ("Unknown (" ++ number_toString method ++ ")")%string
  end.

(** [formatCRC32(crc)] *)
Definition formatCRC32 (crc : Z) : string :=
  padStart (number_toString16 crc) 8 "0"%string.

(** [getFiles()] *)
Definition getFiles : M (list ZipFileInfo) := this_files.

(** [extractFile(filename)]; [None] is [null]. *)
Definition extractFile (name : JSString) : M (option ReadableStream) :=
  fs <- this_files ;;
  match find (fun f => jsstring_eqb (filename f) name) fs with
  | None => ret None
  | Some fileInfo =>
      dv <- this_dataView ;;
      let localHeaderOffset := offset fileInfo in
      signature <- lift (getUint32 dv localHeaderOffset) ;;
      if negb (signature =? LOCAL_FILE_HEADER_SIGNATURE)
      then throw (Error "Invalid local file header signature")
      else
        filenameLen <- lift (getUint16 dv (localHeaderOffset + 26)) ;;
        extraLen <- lift (getUint16 dv (localHeaderOffset + 28)) ;;
        let dataOffset := localHeaderOffset + 30 + filenameLen + extraLen in
        compressedData <- lift (new_Uint8Array (buffer dv) (byteOffset dv + dataOffset)
                                  (compressedSize fileInfo)) ;;
        if compressionMethod fileInfo =? 0 then
          ret (Some (enqueue_close compressedData))
        else if compressionMethod fileInfo =? 8 then
          let stream := enqueue_close compressedData in
          ret (Some (pipeThrough stream (DecompressionStream "deflate-raw")))
        else
          throw (Error ("Unsupported compression method: "
                        ++ number_toString (compressionMethod fileInfo))%string)
  end.

(** ** The worker

    [fetch(request, env, ctx)] of [index.ts]: it takes the upload out of the
    form, builds a [ZipReader] over it, and logs the text of every entry. *)

(** What the platform throws: the [TypeError] of a body that is no form, or
    of a stream that fails while it is read. *)
Inductive PlatformError : Type :=
| TypeError (message : string).

(** What the handler can meet as a thrown value. *)
Inductive Thrown : Type :=
| reader_threw (e : Exn)
| platform_threw (e : PlatformError).

(** A promise, once settled. *)
Inductive Settled (A : Type) : Type :=
| Fulfilled (a : A)
| Rejected (reason : Thrown).
Arguments Fulfilled {A} a.
Arguments Rejected {A} reason.

(** An uploaded [File]: [file.name] and what [file.arrayBuffer()] resolves
    to. *)
Record File : Type := mkFile {
  file_name : JSString;
  file_arrayBuffer : ArrayBuffer
}.

Inductive FormDataEntryValue : Type :=
| form_string (s : JSString)
| form_File (f : File).

(** The entries of a form, in order. *)
Definition FormData : Type := list (JSString * FormDataEntryValue).

(** [formData.get(name)]: the first value under the name; [None] is
    [null]. *)
Definition formData_get (formData : FormData) (name : JSString)
  : option FormDataEntryValue :=
  match find (fun e => jsstring_eqb (fst e) name) formData with
  | Some e => Some (snd e)
  | None => None
  end.

(** [!file]: [null] and the empty string are falsy, an object is not. *)
Definition falsy (file : option FormDataEntryValue) : bool :=
  match file with
  | None => true
  | Some (form_string s) => match s with [] => true | _ => false end
  | Some (form_File _) => false
  end.

(** [file instanceof File] *)
Definition instanceof_File (file : option FormDataEntryValue) : bool :=
  match file with
  | Some (form_File _) => true
  | _ => false
  end.

(** The request: [request.method], and what [request.formData()] settles
    to. *)
Record Request : Type := mkRequest {
  request_method : string;
  request_formData : Settled FormData
}.

(** [new Response(body, { status, headers })], the status being 200 when the
    source gives none. *)
Record Response : Type := new_Response {
  body : JSString;
  status : Z;
  headers : list (string * string)
}.

(** The calls of [console.log], one constructor for each call in the source,
    with the values that its message interpolates. *)
Inductive LogEntry : Type :=
| log_processing (name : JSString)   (* `\nProcessing zip file: ${file.name}` *)
| log_total (length : Z)             (* `Total entries: ${length}\n` *)
| log_title (filename : JSString)    (* `\n=== ${fileInfo.filename} ===` *)
| log_text (text : JSString)         (* text *)
| log_not_found                      (* 'File not found' *)
| log_error (error : Thrown).        (* `Error extracting file: ${error}` *)

(** A [TextDecoder] that is fed in pieces keeps the state of the UTF-8
    decoder and whether the place of the byte order mark has gone by. *)
Record TextDecoder : Type := mkTextDecoder {
  decoder : Utf8State;
  BOM_seen : bool
}.

Definition new_TextDecoder : TextDecoder :=
  {| decoder := utf8_initial; BOM_seen := false |}.

(** The decoder run over the bytes of one piece: the code points that are
    complete, and the state for the next piece. *)
Fixpoint utf8_run (st : Utf8State) (bs : list byte) : list Z * Utf8State :=
  match bs with
  | [] => ([], st)
  | b :: rest =>
      let '(out, st') := utf8_handler st (Z.of_N (Byte.to_N b)) in
      let '(outs, st'') := utf8_run st' rest in
      (out ++ outs, st'')
  end.

(** The code points handed out: the first one ever is dropped when it is the
    byte order mark. *)
Definition serialize (seen : bool) (cps : list Z) : list Z * bool :=
  match cps with
  | [] => ([], seen)
  | cp :: rest =>
      if seen then (cps, true)
      else (if cp =? 65279 then rest else cps, true)
  end.

(** [decoder.decode(value, { stream: true })] *)
Definition TextDecoder_decode_stream (d : TextDecoder) (value : Uint8Array)
  : JSString * TextDecoder :=
  let '(cps, st) := utf8_run (decoder d) (ua_bytes value) in
  let '(out, seen) := serialize (BOM_seen d) cps in
  (flat_map utf16_units out, {| decoder := st; BOM_seen := seen |}).

(** [decoder.decode()]: the end of the input; a sequence left open gives the
    replacement character. *)
Definition TextDecoder_flush (d : TextDecoder) : JSString :=
  let cps := if bytes_needed (decoder d) =? 0 then [] else [65533] in
  flat_map utf16_units (fst (serialize (BOM_seen d) cps)).

(** The loop over [reader.read()], for a stream that delivers [chunks] and is
    then done. *)
Fixpoint read_loop (chunks : list Uint8Array) (d : TextDecoder) (text : JSString)
  : JSString * TextDecoder :=
  match chunks with
  | [] => (text, d)
  | value :: rest =>
      let '(s, d') := TextDecoder_decode_stream d value in
      read_loop rest d' (text ++ s)
  end.

(** The stream read to text: the loop, then the flush. *)
Definition read_text (chunks : list Uint8Array) : JSString :=
  let '(text, d) := read_loop chunks new_TextDecoder [] in
  text ++ TextDecoder_flush d.

(** [zipReader.getFiles()] as the handler calls it. *)
Definition call_getFiles (zipReader : ZipReader) : list ZipFileInfo :=
  match fst (getFiles zipReader) with
  | Normal fs => fs
  | Throw _ => []
  end.

(** What a stream delivers to the one who reads it to its end: the chunks,
    and the error when the end is a failure. *)
Definition Delivery : Type := list Uint8Array * option PlatformError.

(** What a stream piped through a transform delivers, given what its source
    delivers.  The transform is the platform's. *)
Definition Pipe : Type := TransformStream -> Delivery -> Delivery.

Section Worker.

(** The handler is defined for any platform. *)
Variable pipe : Pipe.

(** What [reader.read()] delivers over the life of a stream. *)
Fixpoint read_stream (s : ReadableStream) : Delivery :=
  match s with
  | enqueue_close chunk => ([chunk], None)
  | pipeThrough source transform => pipe transform (read_stream source)
  end.

(** The [for ... of] loop over the entries, with its [try] and [catch]. *)
Fixpoint for_of_files (fs : list ZipFileInfo) (zipReader : ZipReader)
         (console : list LogEntry) : ZipReader * list LogEntry :=
  match fs with
  | [] => (zipReader, console)
  | fileInfo :: rest =>
      let console := console ++ [log_title (filename fileInfo)] in
      let '(stream, zipReader) := extractFile (filename fileInfo) zipReader in
      let console :=
        match stream with
        | Normal (Some stream) =>
            match read_stream stream with
            | (chunks, None) => console ++ [log_text (read_text chunks)]
            | (_, Some error) => console ++ [log_error (platform_threw error)]
            end
        | Normal None => console ++ [log_not_found]
        | Throw error => console ++ [log_error (reader_threw error)]
        end in
      for_of_files rest zipReader console
  end.

(** [fetch(request, env, ctx)]: the settled promise, and what was logged. *)
Definition fetch (request : Request) : Settled Response * list LogEntry :=
  if negb (String.eqb (request_method request) "POST") then
    (Fulfilled (new_Response (js "Please POST a file") 405 []), [])
  else
    match request_formData request with
    | Rejected reason => (Rejected reason, [])
    | Fulfilled formData =>
        let file := formData_get formData (js "file") in
        if falsy file || negb (instanceof_File file) then
          (Fulfilled (new_Response (js "No file uploaded") 400 []), [])
        else
          match file with
          | Some (form_File file) =>
              match new_ZipReader (file_arrayBuffer file) with
              | Throw e => (Rejected (reader_threw e), [])
              | Normal zipReader =>
                  let console := [log_processing (file_name file)] in
                  let console :=
                    console
                    ++ [log_total (Z.of_nat (List.length (call_getFiles zipReader)))] in
                  let '(zipReader, console) :=
                    for_of_files (call_getFiles zipReader) zipReader console in
                  (Fulfilled
                     (new_Response
                        (js "Processed "
                         ++ js (number_toString
                                  (Z.of_nat (List.length (call_getFiles zipReader))))
                         ++ js " entries from " ++ file_name file)
                        200 [("Content-Type", "text/plain")%string]),
                   console)
              end
          | _ => (Fulfilled (new_Response (js "No file uploaded") 400 []), [])
          end
    end.

End Worker.

(** ** The archives of the test suite *)

Module TestData.

(** The value of a base64 digit; [None] for padding and anything else. *)
Definition base64_digit (c : ascii) : option N :=
  let n := N_of_ascii c in
  if ((65 <=? n) && (n <=? 90))%N then Some (n - 65)%N
  else if ((97 <=? n) && (n <=? 122))%N then Some (n - 71)%N
  else if ((48 <=? n) && (n <=? 57))%N then Some (n + 4)%N
  else if (n =? 43)%N then Some 62%N
  else if (n =? 47)%N then Some 63%N
  else None.

Fixpoint base64_bytes (acc : N) (nbits : N) (cs : list ascii) : list byte :=
  match cs with
  | [] => []
  | c :: rest =>
      match base64_digit c with
      | None => base64_bytes acc nbits rest
      | Some v =>
          let acc := (acc * 64 + v)%N in
          let nbits := (nbits + 6)%N in
          if (8 <=? nbits)%N then
            let b := N.shiftr acc (nbits - 8) in
            match Byte.of_N b with
            | Some x => x :: base64_bytes (N.land acc (N.ones (nbits - 8))) (nbits - 8) rest
            | None => []
            end
          else base64_bytes acc nbits rest
      end
  end.

(** [base64ToArrayBuffer(base64)] of the test file, on well-formed input. *)
Definition base64ToArrayBuffer (base64 : string) : ArrayBuffer :=
  base64_bytes 0 0 (list_ascii_of_string base64).

Definition TEST_ZIP_BASE64 : string :=
  "UEsDBAoAAAAAALiAPluEnui0DgAAAA4AAAAJABwAZmlsZTEudHh0VVQJAANLYtxoTGLcaHV4CwABBPUBAAAEFAAAAEhlbGxvLCBXb3JsZCEKUEsDBAoAAAAAALiAPlteuIPaFQAAABUAAAAJABwAZmlsZTIudHh0VVQJAANLYtxoTGLcaHV4CwABBPUBAAAEFAAAAFRoaXMgaXMgYSB0ZXN0IGZpbGUuClBLAwQUAAAACAC4gD5b26eDyRAAAAAVAAAACQAcAGZpbGUzLnR4dFVUCQADS2LcaExi3Gh1eAsAAQT1AQAABBQAAADzycxLVTDk8gFRRhDKmAsAUEsBAh4DCgAAAAAAuIA+W4Se6LQOAAAADgAAAAkAGAAAAAAAAQAAAKSBAAAAAGZpbGUxLnR4dFVUBQADS2LcaHV4CwABBPUBAAAEFAAAAFBLAQIeAwoAAAAAALiAPlteuIPaFQAAABUAAAAJABgAAAAAAAEAAACkgVEAAABmaWxlMi50eHRVVAUAA0ti3Gh1eAsAAQT1AQAABBQAAABQSwECHgMUAAAACAC4gD5b26eDyRAAAAAVAAAACQAYAAAAAAABAAAApIGpAAAAZmlsZTMudHh0VVQFAANLYtxodXgLAAEE9QEAAAQUAAAAUEsFBgAAAAADAAMA7QAAAPwAAAAAAA==".

Definition TEST_NESTED_ZIP_BASE64 : string :=
  "UEsDBAoAAAAAAPaAPlsAAAAAAAAAAAAAAAAHABwAc3ViZGlyL1VUCQADv2LcaL9i3Gh1eAsAAQT1AQAABBQAAABQSwMECgAAAAAA9oA+W9HSoggUAAAAFAAAABEAHABzdWJkaXIvbmVzdGVkLnR4dFVUCQADv2LcaL9i3Gh1eAsAAQT1AQAABBQAAABOZXN0ZWQgZmlsZSBjb250ZW50ClBLAQIeAwoAAAAAAPaAPlsAAAAAAAAAAAAAAAAHABgAAAAAAAAAEADtQQAAAABzdWJkaXIvVVQFAAO/YtxodXgLAAEE9QEAAAQUAAAAUEsBAh4DCgAAAAAA9oA+W9HSoggUAAAAFAAAABEAGAAAAAAAAQAAAKSBQQAAAHN1YmRpci9uZXN0ZWQudHh0VVQFAAO/YtxodXgLAAEE9QEAAAQUAAAAUEsFBgAAAAACAAIApAAAAKAAAAAAAA==".

Definition test_zip : ArrayBuffer := base64ToArrayBuffer TEST_ZIP_BASE64.
Definition test_nested_zip : ArrayBuffer := base64ToArrayBuffer TEST_NESTED_ZIP_BASE64.

End TestData.


(** ** Vocabulary of the statements *)

(** The little-endian value of the bytes at an in-range offset of a view. *)
Definition peekUint16 (dv : DataView) (off : Z) : Z :=
  ab_get (buffer dv) (byteOffset dv + off)
  + 256 * ab_get (buffer dv) (byteOffset dv + off + 1).

Definition peekUint32 (dv : DataView) (off : Z) : Z :=
  ab_get (buffer dv) (byteOffset dv + off)
  + 256 * ab_get (buffer dv) (byteOffset dv + off + 1)
  + 65536 * ab_get (buffer dv) (byteOffset dv + off + 2)
  + 16777216 * ab_get (buffer dv) (byteOffset dv + off + 3).

(** The offsets at which [findEOCD] looks for the trailer. *)
Definition eocd_window (dv : DataView) (i : Z) : Prop :=
  Z.max 0 (byteLength dv - 22 - 65535) <= i <= byteLength dv - 22.

(** The four bytes at [i] spell the trailer signature, least significant
    byte first. *)
Definition trailer_at (b : ArrayBuffer) (i : Z) : Prop :=
  ab_get b i = 0x50 /\ ab_get b (i + 1) = 0x4b
  /\ ab_get b (i + 2) = 0x05 /\ ab_get b (i + 3) = 0x06.

(** The reader as the constructor hands it to [parse]. *)
Definition fresh_reader (b : ArrayBuffer) : ZipReader :=
  {| dataView := new_DataView b; files := [] |}.

(** The cursor after the central directory record at [o]. *)
Definition cd_next (dv : DataView) (o : Z) : Z :=
  o + 46 + peekUint16 dv (o + 28) + peekUint16 dv (o + 30) + peekUint16 dv (o + 32).

(** The cursor at the [i]-th record of a directory starting at [start]. *)
Fixpoint cd_cursor (dv : DataView) (start : Z) (i : nat) : Z :=
  match i with
  | O => start
  | S j => cd_next dv (cd_cursor dv start j)
  end.

(** A record that the walk accepts: the signature is in place and the fixed
    part and the file name lie inside the buffer. *)
Definition record_ok (b : ArrayBuffer) (o : Z) : Prop :=
  getUint32 (new_DataView b) o = Normal CENTRAL_DIRECTORY_SIGNATURE
  /\ o + 46 + peekUint16 (new_DataView b) (o + 28) <= ab_byteLength b.

(** The metadata [parseCentralDirectoryEntry] reads at [o], when it returns. *)
Definition entry_at (dv : DataView) (o : Z) : option ZipFileInfo :=
  match fst (parseCentralDirectoryEntry o {| dataView := dv; files := [] |}) with
  | Normal f => Some f
  | Throw _ => None
  end.

(** [this.files.find((f) => f.filename === filename)] *)
Definition lookup (name : JSString) (fs : list ZipFileInfo) : option ZipFileInfo :=
  find (fun f => jsstring_eqb (filename f) name) fs.

(** The chunk that the underlying source of a stream enqueues. *)
Fixpoint stream_source (s : ReadableStream) : Uint8Array :=
  match s with
  | enqueue_close chunk => chunk
  | pipeThrough source _ => stream_source source
  end.

(** Two entries that extraction cannot tell apart: equal in the fields that
    locate and describe the payload. *)
Definition same_payload (f g : ZipFileInfo) : Prop :=
  filename f = filename g /\ offset f = offset g
  /\ compressedSize f = compressedSize g
  /\ compressionMethod f = compressionMethod g.

(** Entries equal in every field but [crc32]. *)
Definition differ_in_crc32 (f g : ZipFileInfo) : Prop :=
  filename f = filename g /\ encrypted f = encrypted g
  /\ compressedSize f = compressedSize g
  /\ uncompressedSize f = uncompressedSize g
  /\ compressionMethod f = compressionMethod g
  /\ lastModified f = lastModified g /\ offset f = offset g.

(** Entries equal in every field but [encrypted]. *)
Definition differ_in_encrypted (f g : ZipFileInfo) : Prop :=
  filename f = filename g
  /\ compressedSize f = compressedSize g
  /\ uncompressedSize f = uncompressedSize g
  /\ compressionMethod f = compressionMethod g
  /\ crc32 f = crc32 g
  /\ lastModified f = lastModified g /\ offset f = offset g.

(** Entries equal in every field but [uncompressedSize]. *)
Definition differ_in_uncompressedSize (f g : ZipFileInfo) : Prop :=
  filename f = filename g /\ encrypted f = encrypted g
  /\ compressedSize f = compressedSize g
  /\ compressionMethod f = compressionMethod g
  /\ crc32 f = crc32 g
  /\ lastModified f = lastModified g /\ offset f = offset g.

(** The transforms that a stream is piped through, innermost first. *)
Fixpoint stream_transforms (s : ReadableStream) : list TransformStream :=
  match s with
  | enqueue_close _ => []
  | pipeThrough source transform => stream_transforms source ++ [transform]
  end.

(** What a consumer of the result can tell: the exception, [null], or the
    bytes fed to the stream and the transforms they go through. *)
Definition observable (c : Completion (option ReadableStream))
  : Completion (option (list byte * list TransformStream)) :=
  match c with
  | Normal (Some s) => Normal (Some (ua_bytes (stream_source s), stream_transforms s))
  | Normal None => Normal None
  | Throw e => Throw e
  end.

(** Two buffers hold the same bytes at the indices from [lo] up to [hi]. *)
Definition agree_on (b1 b2 : ArrayBuffer) (lo hi : Z) : Prop :=
  forall i, lo <= i < hi -> nth (Z.to_nat i) b1 x00 = nth (Z.to_nat i) b2 x00.

(** Two buffers hold the same directory record at [o], but for the flag word
    (+8), the checksum (+16) and the uncompressed size (+24). *)
Definition record_agree (b1 b2 : ArrayBuffer) (o : Z) : Prop :=
  agree_on b1 b2 o (o + 8)
  /\ agree_on b1 b2 (o + 10) (o + 16)
  /\ agree_on b1 b2 (o + 20) (o + 24)
  /\ agree_on b1 b2 (o + 28) (o + 46 + peekUint16 (new_DataView b1) (o + 28)).

(** Two buffers hold the same bytes where extraction of [f] reads: the
    signature and the two lengths of the local header, and the payload. *)
Definition payload_agree (b1 b2 : ArrayBuffer) (f : ZipFileInfo) : Prop :=
  let start := offset f + 30 + peekUint16 (new_DataView b1) (offset f + 26)
               + peekUint16 (new_DataView b1) (offset f + 28) in
  agree_on b1 b2 (offset f) (offset f + 4)
  /\ agree_on b1 b2 (offset f + 26) (offset f + 30)
  /\ agree_on b1 b2 start (start + compressedSize f).

(** A caller extracting one name after the other, catching what each call
    throws, as the upload handler does. *)
Fixpoint extract_each (names : list JSString) (this : ZipReader)
  : list (Completion (option ReadableStream)) * ZipReader :=
  match names with
  | [] => ([], this)
  | name :: rest =>
      let '(c, this') := extractFile name this in
      let '(cs, this'') := extract_each rest this' in
      (c :: cs, this'')
  end.

(** The 16-bit words that hold the given calendar fields. *)
Definition pack_dos_date (years month day : Z) : Z := years * 512 + month * 32 + day.
Definition pack_dos_time (hour minute halfsec : Z) : Z := hour * 2048 + minute * 32 + halfsec.

(** The values that the fields of an entry read from a directory record can
    take. *)
Definition entry_in_range (f : ZipFileInfo) : Prop :=
  0 <= compressedSize f < 4294967296
  /\ 0 <= uncompressedSize f < 4294967296
  /\ 0 <= crc32 f < 4294967296
  /\ 0 <= offset f < 4294967296
  /\ 0 <= compressionMethod f < 65536
  /\ 1980 <= date_year (lastModified f) <= 2107
  /\ -1 <= date_monthIndex (lastModified f) <= 14
  /\ 0 <= date_day (lastModified f) <= 31
  /\ 0 <= date_hours (lastModified f) <= 31
  /\ 0 <= date_minutes (lastModified f) <= 63
  /\ 0 <= date_seconds (lastModified f) <= 62
  /\ date_seconds (lastModified f) mod 2 = 0.

(** The number that a string of hexadecimal digits writes, read from the
    left with [acc] read so far. *)
Definition hex_digit_value (c : ascii) : option Z :=
  let n := Z.of_N (N_of_ascii c) in
  if (48 <=? n) && (n <=? 57) then Some (n - 48)
  else if (97 <=? n) && (n <=? 102) then Some (n - 87)
  else None.

Fixpoint hex_value (s : string) (acc : Z) : option Z :=
  match s with
  | EmptyString => Some acc
  | String c r =>
      match hex_digit_value c with
      | Some d => hex_value r (16 * acc + d)
      | None => None
      end
  end.

(** What the loop of the worker logs for one entry. *)
Definition entry_log (pipe : Pipe) (zipReader : ZipReader) (fileInfo : ZipFileInfo)
  : list LogEntry :=
  snd (for_of_files pipe [fileInfo] zipReader []).

(** [b] with the byte at index [i] replaced. *)
Definition poke (b : ArrayBuffer) (i : nat) (x : byte) : ArrayBuffer :=
  firstn i b ++ x :: skipn (S i) b.

Module Fixture.

(** [test.zip] with bit 0 of the general-purpose flag of [file1.txt] set, in
    its local header (offset 6) and in its directory record (252 + 8). *)
Definition encrypted_zip : ArrayBuffer :=
  poke (poke TestData.test_zip 6 x01) 260 x01.

(** [test.zip] with the compression method of [file2.txt] set to 12, in its
    local header (81 + 8) and in its directory record (331 + 10). *)
Definition bzip2_zip : ArrayBuffer :=
  poke (poke TestData.test_zip 89 x0c) 341 x0c.

(** [test.zip] with the signature of the second directory record damaged. *)
Definition bad_directory_zip : ArrayBuffer :=
  poke TestData.test_zip 331 x00.

(** [test.zip] with the local header signature of [file1.txt] damaged. *)
Definition bad_local_zip : ArrayBuffer :=
  poke TestData.test_zip 0 x00.

(** [test.zip] with the uncompressed size of [file1.txt] in its directory
    record (252 + 24) raised from 14 to 99. *)
Definition size_mismatch_zip : ArrayBuffer :=
  poke TestData.test_zip 276 x63.

(** [test.zip] with the name in the second directory record (331 + 46)
    changed from [file2.txt] to [file1.txt]. *)
Definition duplicate_zip : ArrayBuffer :=
  poke TestData.test_zip 381 "1"%byte.

(** [test.zip] with the low byte of the checksum of [file1.txt] in its
    directory record (252 + 16) changed from 0x84 to 0. *)
Definition crc_zip : ArrayBuffer :=
  poke TestData.test_zip 268 x00.

(** The reader over a buffer that the constructor accepts. *)
Definition reader_of (b : ArrayBuffer) : ZipReader :=
  match new_ZipReader b with
  | Normal r => r
  | Throw _ => fresh_reader b
  end.

Definition test_reader : ZipReader := reader_of TestData.test_zip.
Definition encrypted_reader : ZipReader := reader_of encrypted_zip.
Definition bzip2_reader : ZipReader := reader_of bzip2_zip.
Definition size_mismatch_reader : ZipReader := reader_of size_mismatch_zip.
Definition duplicate_reader : ZipReader := reader_of duplicate_zip.
Definition crc_reader : ZipReader := reader_of crc_zip.
Definition bad_local_reader : ZipReader := reader_of bad_local_zip.

(** [test.zip] with the method in the local header of [file3.txt] (169 + 8)
    changed from 8 to 0, the directory record still saying 8. *)
Definition local_method_zip : ArrayBuffer :=
  poke TestData.test_zip 177 x00.

Definition local_method_reader : ZipReader := reader_of local_method_zip.

(** An archive without entries: a trailer and nothing else. *)
Definition empty_zip : ArrayBuffer :=
  ["P"; "K"; x05; x06]%byte ++ repeat x00 18.

(** [test.zip] followed by the trailer of an empty archive: the buffer holds
    the trailer signature at 489 and at 511. *)
Definition two_trailers_zip : ArrayBuffer := TestData.test_zip ++ empty_zip.

(** An archive of 100 bytes with one stored entry, [a], whose payload is
    declared to be the 46 bytes that follow its local header: the fixed part
    of its own directory record.  The local header is at 0, its name at 30;
    the directory record is at 31, with the checksum at 47, the sizes at 51
    and 55, and the name at 77; the trailer is at 78. *)
Definition overlap_zip : ArrayBuffer :=
  (["P"; "K"; x03; x04] ++ repeat x00 22 ++ [x01; x00; x00; x00] ++ ["a"]
   ++ ["P"; "K"; x01; x02] ++ repeat x00 16
   ++ [x2e; x00; x00; x00] ++ [x2e; x00; x00; x00] ++ [x01; x00]
   ++ repeat x00 16 ++ ["a"]
   ++ ["P"; "K"; x05; x06] ++ repeat x00 4 ++ [x01; x00; x01; x00]
   ++ [x2f; x00; x00; x00] ++ [x1f; x00; x00; x00] ++ [x00; x00])%byte.

(** The same archive with the low byte of the checksum in the directory
    record (31 + 16) changed from 0 to 1. *)
Definition overlap_crc_zip : ArrayBuffer := poke overlap_zip 47 x01.

Definition overlap_reader : ZipReader := reader_of overlap_zip.
Definition overlap_crc_reader : ZipReader := reader_of overlap_crc_zip.

(** A POST request whose form holds one file, under the name [file]. *)
Definition upload (name : string) (b : ArrayBuffer) : Request :=
  {| request_method := "POST";
     request_formData :=
       Fulfilled [(js "file", form_File {| file_name := js name; file_arrayBuffer := b |})] |}.

(** A platform on which every piped stream fails before its first chunk. *)
Definition failing_pipe : Pipe :=
  fun transform source => ([], Some (TypeError "Decompression failed")).

(** A platform on which a piped stream hands on what it is given. *)
Definition identity_pipe : Pipe :=
  fun transform source => source.

(** A view of a buffer of its own. *)
Definition view_of (bs : list byte) : Uint8Array :=
  {| ua_buffer := bs; ua_byteOffset := 0; ua_length := Z.of_nat (List.length bs) |}.

End Fixture.

(** ** Reading the buffer *)

Lemma ab_get_range (b : ArrayBuffer) (i : Z) : 0 <= ab_get b i < 256.
Proof.
  unfold ab_get.
  pose proof (Byte.to_N_bounded (nth (Z.to_nat i) b x00)) as H.
  lia.
Qed.

Lemma peekUint16_range (dv : DataView) (off : Z) : 0 <= peekUint16 dv off < 65536.
Proof.
  unfold peekUint16.
  pose proof (ab_get_range (buffer dv) (byteOffset dv + off)).
  pose proof (ab_get_range (buffer dv) (byteOffset dv + off + 1)).
  lia.
Qed.

Lemma peekUint32_range (dv : DataView) (off : Z) : 0 <= peekUint32 dv off < 4294967296.
Proof.
  unfold peekUint32.
  pose proof (ab_get_range (buffer dv) (byteOffset dv + off)).
  pose proof (ab_get_range (buffer dv) (byteOffset dv + off + 1)).
  pose proof (ab_get_range (buffer dv) (byteOffset dv + off + 2)).
  pose proof (ab_get_range (buffer dv) (byteOffset dv + off + 3)).
  lia.
Qed.

Lemma getUint16_eq (dv : DataView) (off : Z) :
  getUint16 dv off =
  if (off <? 0) || (byteLength dv <? off + 2) then Throw RangeError
  else Normal (peekUint16 dv off).
Proof.
  unfold getUint16, peekUint16.
  destruct ((off <? 0) || (byteLength dv <? off + 2)); reflexivity.
Qed.

Lemma getUint32_eq (dv : DataView) (off : Z) :
  getUint32 dv off =
  if (off <? 0) || (byteLength dv <? off + 4) then Throw RangeError
  else Normal (peekUint32 dv off).
Proof.
  unfold getUint32, peekUint32.
  destruct ((off <? 0) || (byteLength dv <? off + 4)); reflexivity.
Qed.

Lemma getUint16_in_range (dv : DataView) (off : Z) :
  0 <= off -> off + 2 <= byteLength dv ->
  getUint16 dv off = Normal (peekUint16 dv off).
Proof.
  intros H0 H1. rewrite getUint16_eq.
  destruct (Z.ltb_spec off 0); [lia|].
  destruct (Z.ltb_spec (byteLength dv) (off + 2)); [lia|]. reflexivity.
Qed.

Lemma getUint32_in_range (dv : DataView) (off : Z) :
  0 <= off -> off + 4 <= byteLength dv ->
  getUint32 dv off = Normal (peekUint32 dv off).
Proof.
  intros H0 H1. rewrite getUint32_eq.
  destruct (Z.ltb_spec off 0); [lia|].
  destruct (Z.ltb_spec (byteLength dv) (off + 4)); [lia|]. reflexivity.
Qed.

Lemma getUint16_Normal (dv : DataView) (off v : Z) :
  getUint16 dv off = Normal v ->
  0 <= off /\ off + 2 <= byteLength dv /\ v = peekUint16 dv off.
Proof.
  rewrite getUint16_eq.
  destruct (Z.ltb_spec off 0); [discriminate|].
  destruct (Z.ltb_spec (byteLength dv) (off + 2)); [discriminate|].
  simpl. intros [= <-]. lia.
Qed.

Lemma getUint32_Normal (dv : DataView) (off v : Z) :
  getUint32 dv off = Normal v ->
  0 <= off /\ off + 4 <= byteLength dv /\ v = peekUint32 dv off.
Proof.
  rewrite getUint32_eq.
  destruct (Z.ltb_spec off 0); [discriminate|].
  destruct (Z.ltb_spec (byteLength dv) (off + 4)); [discriminate|].
  simpl. intros [= <-]. lia.
Qed.

Lemma getUint16_Throw (dv : DataView) (off : Z) (e : Exn) :
  getUint16 dv off = Throw e -> e = RangeError.
Proof.
  rewrite getUint16_eq.
  destruct ((off <? 0) || (byteLength dv <? off + 2)); congruence.
Qed.

Lemma getUint32_Throw (dv : DataView) (off : Z) (e : Exn) :
  getUint32 dv off = Throw e -> e = RangeError.
Proof.
  rewrite getUint32_eq.
  destruct ((off <? 0) || (byteLength dv <? off + 4)); congruence.
Qed.

(** A 32-bit read yields a signature exactly when its four bytes spell it,
    least significant byte first. *)
Lemma peekUint32_bytes (dv : DataView) (off b0 b1 b2 b3 : Z) :
  0 <= b0 < 256 -> 0 <= b1 < 256 -> 0 <= b2 < 256 -> 0 <= b3 < 256 ->
  (peekUint32 dv off = b0 + 256 * b1 + 65536 * b2 + 16777216 * b3 <->
   ab_get (buffer dv) (byteOffset dv + off) = b0
   /\ ab_get (buffer dv) (byteOffset dv + off + 1) = b1
   /\ ab_get (buffer dv) (byteOffset dv + off + 2) = b2
   /\ ab_get (buffer dv) (byteOffset dv + off + 3) = b3).
Proof.
  intros H0 H1 H2 H3. unfold peekUint32.
  pose proof (ab_get_range (buffer dv) (byteOffset dv + off)).
  pose proof (ab_get_range (buffer dv) (byteOffset dv + off + 1)).
  pose proof (ab_get_range (buffer dv) (byteOffset dv + off + 2)).
  pose proof (ab_get_range (buffer dv) (byteOffset dv + off + 3)).
  split; [intros E; lia | intros (-> & -> & -> & ->); reflexivity].
Qed.

Lemma new_Uint8Array_Normal (b : ArrayBuffer) (off len : Z) (u : Uint8Array) :
  new_Uint8Array b off len = Normal u ->
  0 <= off /\ 0 <= len /\ off + len <= ab_byteLength b
  /\ u = {| ua_buffer := b; ua_byteOffset := off; ua_length := len |}.
Proof.
  unfold new_Uint8Array.
  destruct (Z.ltb_spec off 0); [discriminate|].
  destruct (Z.ltb_spec len 0); [discriminate|].
  destruct (Z.ltb_spec (ab_byteLength b) (off + len)); [discriminate|].
  simpl. intros [= <-]. auto.
Qed.

Lemma new_Uint8Array_in_range (b : ArrayBuffer) (off len : Z) :
  0 <= off -> 0 <= len -> off + len <= ab_byteLength b ->
  new_Uint8Array b off len
  = Normal {| ua_buffer := b; ua_byteOffset := off; ua_length := len |}.
Proof.
  intros H0 H1 H2. unfold new_Uint8Array.
  destruct (Z.ltb_spec off 0); [lia|].
  destruct (Z.ltb_spec len 0); [lia|].
  destruct (Z.ltb_spec (ab_byteLength b) (off + len)); [lia|]. reflexivity.
Qed.

Lemma new_Uint8Array_Throw (b : ArrayBuffer) (off len : Z) (e : Exn) :
  new_Uint8Array b off len = Throw e -> e = RangeError.
Proof.
  unfold new_Uint8Array.
  destruct ((off <? 0) || (len <? 0) || (ab_byteLength b <? off + len)); congruence.
Qed.

(** A view that the constructor accepted shows as many bytes as its length. *)
Lemma ua_bytes_length (b : ArrayBuffer) (off len : Z) (u : Uint8Array) :
  new_Uint8Array b off len = Normal u ->
  Z.of_nat (List.length (ua_bytes u)) = len.
Proof.
  intros H. apply new_Uint8Array_Normal in H as (H0 & H1 & H2 & ->).
  unfold ua_bytes, ab_byteLength in *. simpl.
  rewrite length_firstn, length_skipn. lia.
Qed.

(** ** Running methods *)

Lemma bind_lift {A B} (c : Completion A) (k : A -> M B) (this : ZipReader) :
  bind (lift c) k this =
  match c with
  | Normal a => k a this
  | Throw e => (Throw e, this)
  end.
Proof. unfold bind, lift. destruct c; reflexivity. Qed.

Lemma bind_this_dataView {B} (k : DataView -> M B) (this : ZipReader) :
  bind this_dataView k this = k (dataView this) this.
Proof. reflexivity. Qed.

Lemma bind_this_files {B} (k : list ZipFileInfo -> M B) (this : ZipReader) :
  bind this_files k this = k (files this) this.
Proof. reflexivity. Qed.

(** ** The trailer search *)

Lemma findEOCD_loop_spec (dv : DataView) (s : Z) (k : nat) (this : ZipReader) :
  0 <= s -> (k <> O -> s + Z.of_nat k + 3 <= byteLength dv) ->
  exists e,
    findEOCD_loop dv s k this = (Normal e, this)
    /\ ((e = -1
         /\ forall i, s <= i < s + Z.of_nat k ->
                      getUint32 dv i <> Normal EOCD_SIGNATURE)
        \/ (s <= e < s + Z.of_nat k
            /\ getUint32 dv e = Normal EOCD_SIGNATURE
            /\ forall j, e < j < s + Z.of_nat k ->
                         getUint32 dv j <> Normal EOCD_SIGNATURE)).
Proof.
  intros Hs. induction k as [|k IH]; intros Hk.
  - exists (-1). split; [reflexivity|]. left. split; [reflexivity|]. intros i Hi. lia.
  - cbn [findEOCD_loop]. rewrite bind_lift.
    assert (Hin : getUint32 dv (s + Z.of_nat k) = Normal (peekUint32 dv (s + Z.of_nat k))).
    { apply getUint32_in_range; [lia|]. specialize (Hk (Nat.neq_succ_0 k)). lia. }
    rewrite Hin.
    destruct (Z.eqb_spec (peekUint32 dv (s + Z.of_nat k)) EOCD_SIGNATURE) as [Heq|Hne].
    + exists (s + Z.of_nat k). split; [reflexivity|]. right.
      split; [lia|]. split; [rewrite Hin, Heq; reflexivity|]. intros j Hj. lia.
    + destruct IH as (e & Hrun & Hcases).
      { intros Hk0. specialize (Hk (Nat.neq_succ_0 k)). lia. }
      exists e. split; [exact Hrun|].
      assert (Hhere : getUint32 dv (s + Z.of_nat k) <> Normal EOCD_SIGNATURE)
        by (rewrite Hin; congruence).
      destruct Hcases as [(-> & Hnone)|(Hr & Hsig & Habove)].
      * left. split; [reflexivity|]. intros i Hi.
        destruct (Z.eq_dec i (s + Z.of_nat k)) as [->|Hd]; [exact Hhere|].
        apply Hnone. lia.
      * right. split; [lia|]. split; [exact Hsig|]. intros j Hj.
        destruct (Z.eq_dec j (s + Z.of_nat k)) as [->|Hd]; [exact Hhere|].
        apply Habove. lia.
Qed.

(** [findEOCD] never throws and leaves [this] alone; it returns the highest
    offset of the window at which the signature is read, or -1 when there is
    none. *)
Lemma findEOCD_spec (this : ZipReader) :
  let dv := dataView this in
  exists e,
    findEOCD this = (Normal e, this)
    /\ ((e = -1
         /\ forall i, eocd_window dv i -> getUint32 dv i <> Normal EOCD_SIGNATURE)
        \/ (eocd_window dv e
            /\ getUint32 dv e = Normal EOCD_SIGNATURE
            /\ forall j, e < j <= byteLength dv - 22 ->
                         getUint32 dv j <> Normal EOCD_SIGNATURE)).
Proof.
  intros dv. unfold findEOCD. rewrite bind_this_dataView. fold dv.
  set (s := Z.max 0 (byteLength dv - 65535 - 22)).
  set (k := Z.to_nat (byteLength dv - 22 - s + 1)).
  destruct (findEOCD_loop_spec dv s k this) as (e & Hrun & Hcases).
  - subst s. lia.
  - intros Hk. subst k s. lia.
  - exists e. split; [exact Hrun|]. unfold eocd_window.
    destruct Hcases as [(-> & Hnone)|(Hr & Hsig & Habove)].
    + left. split; [reflexivity|]. intros i Hi. apply Hnone. subst k s. lia.
    + right. split; [subst k s; lia|]. split; [exact Hsig|].
      intros j Hj. apply Habove. subst k s. lia.
Qed.

(** ** One central directory record *)

Ltac range_error :=
  match goal with
  | E : getUint16 _ _ = Throw _ |- _ => apply getUint16_Throw in E; subst
  | E : getUint32 _ _ = Throw _ |- _ => apply getUint32_Throw in E; subst
  | E : new_Uint8Array _ _ _ = Throw _ |- _ => apply new_Uint8Array_Throw in E; subst
  end.

(** [parseCentralDirectoryEntry] reads [this.dataView] only: it leaves [this]
    alone, its result does not depend on the entries collected so far, and
    the only thing it can throw is a [RangeError]. *)
Lemma parseCentralDirectoryEntry_state (o : Z) (this : ZipReader) :
  parseCentralDirectoryEntry o this
  = (fst (parseCentralDirectoryEntry o {| dataView := dataView this; files := [] |}), this)
  /\ (forall e, fst (parseCentralDirectoryEntry o this) = Throw e -> e = RangeError).
Proof.
  unfold parseCentralDirectoryEntry.
  rewrite !bind_this_dataView. cbn [dataView].
  repeat (cbv beta; try rewrite !bind_lift;
          match goal with
          | |- context [match ?c with Normal _ => _ | Throw _ => _ end] =>
              let E := fresh "E" in destruct c eqn:E
          end;
          [| range_error; split; [reflexivity | cbn; congruence]]).
  split; [reflexivity | cbn; congruence].
Qed.

Lemma parseCentralDirectoryEntry_entry_at (o : Z) (this : ZipReader) (f : ZipFileInfo) :
  fst (parseCentralDirectoryEntry o this) = Normal f <->
  entry_at (dataView this) o = Some f.
Proof.
  unfold entry_at.
  destruct (parseCentralDirectoryEntry_state o this) as [-> _]. cbn [fst].
  destruct (fst (parseCentralDirectoryEntry o _)); split; congruence.
Qed.

(** The fields of the record that [parseCentralDirectoryEntry] returns. *)
Lemma parseCentralDirectoryEntry_Normal (o : Z) (this : ZipReader) (f : ZipFileInfo) :
  fst (parseCentralDirectoryEntry o this) = Normal f ->
  let dv := dataView this in
  o + 46 <= byteLength dv
  /\ byteOffset dv + o + 46 + peekUint16 dv (o + 28) <= ab_byteLength (buffer dv)
  /\ filename f = TextDecoder_decode
                    {| ua_buffer := buffer dv;
                       ua_byteOffset := byteOffset dv + o + 46;
                       ua_length := peekUint16 dv (o + 28) |}
  /\ encrypted f = negb (js_and (peekUint16 dv (o + 8)) 1 =? 0)
  /\ compressedSize f = peekUint32 dv (o + 20)
  /\ uncompressedSize f = peekUint32 dv (o + 24)
  /\ compressionMethod f = peekUint16 dv (o + 10)
  /\ crc32 f = peekUint32 dv (o + 16)
  /\ lastModified f = dosDateTimeToDate (peekUint16 dv (o + 14)) (peekUint16 dv (o + 12))
  /\ offset f = peekUint32 dv (o + 42).
Proof.
  intros H dv. revert H.
  unfold parseCentralDirectoryEntry.
  rewrite !bind_this_dataView. fold dv.
  repeat (cbv beta; try rewrite !bind_lift;
          match goal with
          | |- context [match ?c with Normal _ => _ | Throw _ => _ end] =>
              let E := fresh "E" in destruct c eqn:E
          end;
          [| cbn; discriminate]).
  cbn. intros [= <-]. cbn.
  repeat match goal with
         | E : getUint16 _ _ = Normal _ |- _ =>
             apply getUint16_Normal in E; destruct E as (? & ? & ->)
         | E : getUint32 _ _ = Normal _ |- _ =>
             apply getUint32_Normal in E; destruct E as (? & ? & ->)
         | E : new_Uint8Array _ _ _ = Normal _ |- _ =>
             apply new_Uint8Array_Normal in E; destruct E as (? & ? & ? & ->)
         end.
  repeat split; try reflexivity; lia.
Qed.

(** Inside the buffer the record is read without an exception. *)
Lemma parseCentralDirectoryEntry_in_range (o : Z) (this : ZipReader) :
  let dv := dataView this in
  byteOffset dv = 0 -> byteLength dv = ab_byteLength (buffer dv) ->
  0 <= o -> o + 46 + peekUint16 dv (o + 28) <= ab_byteLength (buffer dv) ->
  exists f, parseCentralDirectoryEntry o this = (Normal f, this).
Proof.
  intros dv Hoff Hlen Ho Hin.
  pose proof (peekUint16_range dv (o + 28)) as Hfl.
  destruct (parseCentralDirectoryEntry_state o this) as [Hst _].
  rewrite Hst. cbn [dataView]. fold dv.
  unfold parseCentralDirectoryEntry.
  rewrite !bind_this_dataView. cbn [dataView].
  repeat (cbv beta iota; try rewrite !bind_lift;
          first [ rewrite getUint16_in_range by lia
                | rewrite getUint32_in_range by lia
                | rewrite new_Uint8Array_in_range by lia ]).
  eexists. reflexivity.
Qed.

Lemma Normal_inj {A} (a b : A) : Normal a = Normal b -> a = b.
Proof. intros [= H]. exact H. Qed.

Lemma bind_Normal {A B} (c : M A) (k : A -> M B) (this this' : ZipReader) (a : A) :
  c this = (Normal a, this') -> bind c k this = k a this'.
Proof. intros H. unfold bind. rewrite H. reflexivity. Qed.

Lemma bind_Throw {A B} (c : M A) (k : A -> M B) (this this' : ZipReader) (e : Exn) :
  c this = (Throw e, this') -> bind c k this = (Throw e, this').
Proof. intros H. unfold bind. rewrite H. reflexivity. Qed.

(** ** The directory walk *)

Lemma cd_cursor_shift (dv : DataView) (o : Z) (i : nat) :
  cd_cursor dv o (S i) = cd_cursor dv (cd_next dv o) i.
Proof.
  induction i as [|i IH]; [reflexivity|].
  cbn [cd_cursor] in *. rewrite IH. reflexivity.
Qed.

Lemma record_ok_dec (b : ArrayBuffer) (o : Z) : {record_ok b o} + {~ record_ok b o}.
Proof.
  unfold record_ok.
  destruct (getUint32 (new_DataView b) o) as [s|e].
  - destruct (Z.eq_dec s CENTRAL_DIRECTORY_SIGNATURE) as [->|Hne].
    + destruct (Z_le_dec (o + 46 + peekUint16 (new_DataView b) (o + 28)) (ab_byteLength b)).
      * left. split; [reflexivity | assumption].
      * right. intros [_ H]. contradiction.
    + right. intros [H _]. congruence.
  - right. intros [H _]. discriminate.
Qed.

(** An iteration over a well-formed record appends its entry and moves the
    cursor past the record. *)
Lemma parse_step_ok (b : ArrayBuffer) (o : Z) (fs : list ZipFileInfo) (n : nat) :
  record_ok b o ->
  exists f,
    entry_at (new_DataView b) o = Some f
    /\ parse_loop (S n) o {| dataView := new_DataView b; files := fs |}
       = parse_loop n (cd_next (new_DataView b) o)
           {| dataView := new_DataView b; files := fs ++ [f] |}.
Proof.
  intros [Hsig Hin].
  set (dv := new_DataView b) in *.
  set (this := {| dataView := dv; files := fs |}).
  pose proof (getUint32_Normal _ _ _ Hsig) as (Ho & Ho4 & _).
  pose proof (peekUint16_range dv (o + 28)) as Hfl.
  destruct (parseCentralDirectoryEntry_in_range o this) as [f Hf];
    [reflexivity | reflexivity | exact Ho | exact Hin |].
  exists f. split.
  - apply (parseCentralDirectoryEntry_entry_at o this f). rewrite Hf. reflexivity.
  - cbn [parse_loop]. rewrite bind_this_dataView. cbn [dataView this].
    rewrite bind_lift, Hsig. rewrite Z.eqb_refl. cbn [negb].
    rewrite (bind_Normal _ _ _ _ _ Hf).
    unfold this_files_push at 1. unfold bind at 1. cbn [dataView files this].
    change (byteLength dv) with (ab_byteLength b) in *.
    repeat (cbv beta iota; rewrite bind_lift;
            rewrite getUint16_in_range
              by (change (byteLength dv) with (ab_byteLength b); lia)).
    reflexivity.
Qed.

(** An iteration that reads another value where the signature should be
    throws, whatever follows. *)
Lemma parse_step_bad_signature (dv : DataView) (o s : Z) (fs : list ZipFileInfo) (n : nat) :
  getUint32 dv o = Normal s -> s <> CENTRAL_DIRECTORY_SIGNATURE ->
  parse_loop (S n) o {| dataView := dv; files := fs |}
  = (Throw (Error "Invalid central directory signature"),
     {| dataView := dv; files := fs |}).
Proof.
  intros Hs Hne. cbn [parse_loop]. rewrite bind_this_dataView. cbn [dataView].
  rewrite bind_lift, Hs.
  destruct (Z.eqb_spec s CENTRAL_DIRECTORY_SIGNATURE); [contradiction|]. reflexivity.
Qed.

(** An iteration over anything but a well-formed record throws. *)
Lemma parse_step_not_ok (b : ArrayBuffer) (o : Z) (fs : list ZipFileInfo) (n : nat) :
  ~ record_ok b o ->
  exists e,
    parse_loop (S n) o {| dataView := new_DataView b; files := fs |}
    = (Throw e, {| dataView := new_DataView b; files := fs |}).
Proof.
  intros Hbad.
  set (dv := new_DataView b) in *.
  set (this := {| dataView := dv; files := fs |}).
  destruct (getUint32 dv o) as [s|e] eqn:Hs.
  - destruct (Z.eq_dec s CENTRAL_DIRECTORY_SIGNATURE) as [->|Hne].
    + cbn [parse_loop]. rewrite bind_this_dataView. cbn [dataView this].
      rewrite bind_lift, Hs, Z.eqb_refl. cbn [negb].
      destruct (parseCentralDirectoryEntry_state o this) as [Hst Hthrow].
      destruct (fst (parseCentralDirectoryEntry o this)) as [f|e] eqn:Hf.
      * exfalso. apply Hbad. split; [exact Hs|].
        pose proof (parseCentralDirectoryEntry_Normal o this f Hf) as (_ & H & _).
        exact H.
      * exists e. apply bind_Throw. rewrite Hst.
        rewrite Hst in Hf. cbn [fst] in Hf. rewrite Hf. reflexivity.
    + eexists. apply parse_step_bad_signature with (s := s); assumption.
  - exists e. cbn [parse_loop]. rewrite bind_this_dataView. cbn [dataView this].
    rewrite bind_lift, Hs. reflexivity.
Qed.

(** Over well-formed records the walk appends one entry per record, in the
    order of the records. *)
Lemma parse_loop_ok (b : ArrayBuffer) (n : nat) :
  forall (o : Z) (fs : list ZipFileInfo),
    (forall i, (i < n)%nat -> record_ok b (cd_cursor (new_DataView b) o i)) ->
    exists fs',
      parse_loop n o {| dataView := new_DataView b; files := fs |}
      = (Normal tt, {| dataView := new_DataView b; files := fs ++ fs' |})
      /\ List.length fs' = n
      /\ forall i, (i < n)%nat ->
                   nth_error fs' i
                   = entry_at (new_DataView b) (cd_cursor (new_DataView b) o i).
Proof.
  induction n as [|n IH]; intros o fs Hok.
  - exists []. rewrite app_nil_r. split; [reflexivity|]. split; [reflexivity|].
    intros i Hi. lia.
  - destruct (parse_step_ok b o fs n) as (f & Hf & Hstep).
    { apply (Hok O). lia. }
    destruct (IH (cd_next (new_DataView b) o) (fs ++ [f])) as (fs' & Hrun & Hlen & Hnth).
    { intros i Hi. rewrite <- cd_cursor_shift. apply Hok. lia. }
    exists (f :: fs'). rewrite Hstep, Hrun, <- app_assoc. cbn [app].
    split; [reflexivity|]. split; [cbn; lia|].
    intros [|i] Hi; [cbn; symmetry; exact Hf|].
    rewrite cd_cursor_shift. cbn [nth_error]. apply Hnth. lia.
Qed.

(** A walk that returns has met a well-formed record at each cursor. *)
Lemma parse_loop_Normal (b : ArrayBuffer) (n : nat) :
  forall (o : Z) (fs : list ZipFileInfo) (this' : ZipReader),
    parse_loop n o {| dataView := new_DataView b; files := fs |} = (Normal tt, this') ->
    forall i, (i < n)%nat -> record_ok b (cd_cursor (new_DataView b) o i).
Proof.
  induction n as [|n IH]; intros o fs this' Hrun i Hi; [lia|].
  destruct (record_ok_dec b o) as [Hok|Hbad].
  - destruct i as [|i]; [exact Hok|].
    destruct (parse_step_ok b o fs n Hok) as (f & _ & Hstep).
    rewrite Hstep in Hrun. rewrite cd_cursor_shift.
    apply (IH _ _ _ Hrun). lia.
  - destruct (parse_step_not_ok b o fs n Hbad) as (e & He). congruence.
Qed.

(** The walk stops with the signature error at the first record whose
    signature is wrong; the entries collected so far stay in [this]. *)
Lemma parse_loop_bad_signature (b : ArrayBuffer) (n : nat) :
  forall (o : Z) (fs : list ZipFileInfo) (i : nat) (s : Z),
    (i < n)%nat ->
    (forall j, (j < i)%nat -> record_ok b (cd_cursor (new_DataView b) o j)) ->
    getUint32 (new_DataView b) (cd_cursor (new_DataView b) o i) = Normal s ->
    s <> CENTRAL_DIRECTORY_SIGNATURE ->
    exists fs',
      parse_loop n o {| dataView := new_DataView b; files := fs |}
      = (Throw (Error "Invalid central directory signature"),
         {| dataView := new_DataView b; files := fs ++ fs' |})
      /\ List.length fs' = i.
Proof.
  induction n as [|n IH]; intros o fs i s Hi Hok Hs Hne; [lia|].
  destruct i as [|i].
  - exists []. rewrite app_nil_r. split; [|reflexivity].
    apply parse_step_bad_signature with (s := s); assumption.
  - destruct (parse_step_ok b o fs n) as (f & _ & Hstep).
    { apply (Hok O). lia. }
    destruct (IH (cd_next (new_DataView b) o) (fs ++ [f]) i s) as (fs' & Hrun & Hlen).
    + lia.
    + intros j Hj. rewrite <- cd_cursor_shift. apply Hok. lia.
    + rewrite <- cd_cursor_shift. exact Hs.
    + exact Hne.
    + exists (f :: fs'). rewrite Hstep, Hrun, <- app_assoc.
      split; [reflexivity | cbn; lia].
Qed.

(** ** Construction *)

Lemma getUint32_trailer_at (b : ArrayBuffer) (i : Z) :
  eocd_window (new_DataView b) i ->
  (getUint32 (new_DataView b) i = Normal EOCD_SIGNATURE <-> trailer_at b i).
Proof.
  unfold eocd_window. cbn [byteLength new_DataView]. intros Hw.
  rewrite getUint32_in_range by (cbn [byteLength new_DataView]; lia).
  pose proof (peekUint32_bytes (new_DataView b) i 0x50 0x4b 0x05 0x06) as H.
  cbn [buffer byteOffset new_DataView] in H. rewrite !Z.add_0_l in H.
  unfold trailer_at. rewrite <- H by lia.
  split; [intros [= E]; exact E | intros E; f_equal; exact E].
Qed.

Lemma parse_without_trailer (this : ZipReader) :
  findEOCD this = (Normal (-1), this) ->
  parse this = (Throw (Error "Not a valid ZIP file: EOCD not found"), this).
Proof.
  intros H. unfold parse. rewrite (bind_Normal _ _ _ _ _ H). reflexivity.
Qed.

Lemma parse_with_trailer (this : ZipReader) (e : Z) :
  findEOCD this = (Normal e, this) -> e <> -1 ->
  let dv := dataView this in
  eocd_window dv e
  /\ parse this = parse_loop (Z.to_nat (peekUint16 dv (e + 10))) (peekUint32 dv (e + 16)) this.
Proof.
  intros H Hne dv.
  destruct (findEOCD_spec this) as (e' & Hrun & Hcases).
  rewrite H in Hrun. injection Hrun as He. subst e'.
  destruct Hcases as [(He & _)|(Hw & _ & _)]; [contradiction|].
  fold dv in Hw. split; [exact Hw|].
  unfold parse. rewrite (bind_Normal _ _ _ _ _ H).
  destruct (Z.eqb_spec e (-1)); [contradiction|].
  rewrite bind_this_dataView. fold dv. unfold eocd_window in Hw.
  rewrite bind_lift, getUint32_in_range by lia. cbv beta iota.
  rewrite bind_lift, getUint32_in_range by lia. cbv beta iota.
  rewrite bind_lift, getUint16_in_range by lia. reflexivity.
Qed.

(** What an iteration throws at a record that it does not accept: the
    signature error of the walk, or the [RangeError] of a read. *)
Lemma parse_step_throws (b : ArrayBuffer) (o : Z) (fs : list ZipFileInfo) (n : nat) :
  ~ record_ok b o ->
  exists e,
    parse_loop (S n) o {| dataView := new_DataView b; files := fs |}
    = (Throw e, {| dataView := new_DataView b; files := fs |})
    /\ (e = Error "Invalid central directory signature" \/ e = RangeError).
Proof.
  intros Hbad.
  set (dv := new_DataView b) in *.
  set (this := {| dataView := dv; files := fs |}).
  destruct (getUint32 dv o) as [s|e] eqn:Hs.
  - destruct (Z.eq_dec s CENTRAL_DIRECTORY_SIGNATURE) as [->|Hne].
    + destruct (parseCentralDirectoryEntry_state o this) as [Hst Hthrow].
      destruct (fst (parseCentralDirectoryEntry o this)) as [f|e] eqn:Hf.
      * exfalso. apply Hbad. split; [exact Hs|].
        pose proof (parseCentralDirectoryEntry_Normal o this f Hf) as (_ & H & _).
        exact H.
      * exists e. split; [|right; apply Hthrow; reflexivity].
        cbn [parse_loop]. rewrite bind_this_dataView. cbn [dataView this].
        rewrite bind_lift, Hs, Z.eqb_refl. cbn [negb].
        apply bind_Throw. rewrite Hst.
        rewrite Hst in Hf. cbn [fst] in Hf. rewrite Hf. reflexivity.
    + exists (Error "Invalid central directory signature").
      split; [|left; reflexivity].
      apply parse_step_bad_signature with (s := s); assumption.
  - exists e. split; [|right; exact (getUint32_Throw _ _ _ Hs)].
    cbn [parse_loop]. rewrite bind_this_dataView. cbn [dataView this].
    rewrite bind_lift, Hs. reflexivity.
Qed.

(** The walk throws nothing else; the "EOCD not found" error in particular
    can only come from the trailer search. *)
Lemma parse_loop_throws (b : ArrayBuffer) (n : nat) :
  forall (o : Z) (fs : list ZipFileInfo) (ex : Exn) (this' : ZipReader),
    parse_loop n o {| dataView := new_DataView b; files := fs |} = (Throw ex, this') ->
    ex = Error "Invalid central directory signature" \/ ex = RangeError.
Proof.
  induction n as [|n IH]; intros o fs ex this' Hrun; [discriminate|].
  destruct (record_ok_dec b o) as [Hok|Hbad].
  - destruct (parse_step_ok b o fs n Hok) as (f & _ & Hstep).
    rewrite Hstep in Hrun. exact (IH _ _ _ _ Hrun).
  - destruct (parse_step_throws b o fs n Hbad) as (e & Hstep & Hkind).
    rewrite Hstep in Hrun. congruence.
Qed.

(** C5. The trailer is looked for at the offsets from [byteLength - 22] down
    to [max(0, byteLength - 22 - 65535)], as four bytes read least significant
    first; the highest offset that carries the signature is taken, and it is
    from there that the constructor goes on: what it returns or throws is
    what the directory walk gives for the entry count and the directory
    offset read at that trailer, and never the "EOCD not found" error.  The
    constructor throws that error exactly when no offset of the window
    carries the signature, as in every buffer shorter than 22 bytes.  A
    reader reaches the caller only when [parse] has returned, so that no
    partly filled entry list is observable. *)
Theorem trailer_search (b : ArrayBuffer) :
  let dv := new_DataView b in
  ((exists e,
       findEOCD (fresh_reader b) = (Normal e, fresh_reader b)
       /\ eocd_window dv e /\ trailer_at b e
       /\ (forall j, eocd_window dv j -> trailer_at b j -> j <= e)
       /\ new_ZipReader b
          = match parse_loop (Z.to_nat (peekUint16 dv (e + 10)))
                    (peekUint32 dv (e + 16)) (fresh_reader b) with
            | (Normal _, this') => Normal this'
            | (Throw ex, _) => Throw ex
            end
       /\ new_ZipReader b <> Throw (Error "Not a valid ZIP file: EOCD not found"))
   \/ (findEOCD (fresh_reader b) = (Normal (-1), fresh_reader b)
       /\ (forall i, eocd_window dv i -> ~ trailer_at b i)
       /\ new_ZipReader b = Throw (Error "Not a valid ZIP file: EOCD not found")))
  /\ ((forall i, eocd_window dv i -> ~ trailer_at b i)
      <-> new_ZipReader b = Throw (Error "Not a valid ZIP file: EOCD not found"))
  /\ (ab_byteLength b < 22 ->
      new_ZipReader b = Throw (Error "Not a valid ZIP file: EOCD not found"))
  /\ (forall r, new_ZipReader b = Normal r -> parse (fresh_reader b) = (Normal tt, r)).
Proof.
  intros dv.
  assert (Hnone : findEOCD (fresh_reader b) = (Normal (-1), fresh_reader b) ->
                  new_ZipReader b = Throw (Error "Not a valid ZIP file: EOCD not found")).
  { intros H. unfold new_ZipReader. fold (fresh_reader b).
    rewrite (parse_without_trailer _ H). reflexivity. }
  assert (Hcases :
    (exists e,
       findEOCD (fresh_reader b) = (Normal e, fresh_reader b)
       /\ eocd_window dv e /\ trailer_at b e
       /\ forall j, eocd_window dv j -> trailer_at b j -> j <= e)
    \/ (findEOCD (fresh_reader b) = (Normal (-1), fresh_reader b)
        /\ (forall i, eocd_window dv i -> ~ trailer_at b i))).
  { destruct (findEOCD_spec (fresh_reader b)) as (e & Hrun & Hc).
    cbn [dataView fresh_reader] in Hc. fold dv in Hc.
    destruct Hc as [(-> & Hno)|(Hw & Hsig & Habove)].
    - right. split; [exact Hrun|]. intros i Hi Ht.
      apply (Hno i Hi). apply getUint32_trailer_at; assumption.
    - left. exists e. split; [exact Hrun|]. split; [exact Hw|].
      split; [apply getUint32_trailer_at; assumption|].
      intros j Hj Ht. destruct (Z_le_gt_dec j e) as [Hle|Hgt]; [exact Hle|].
      exfalso. apply (Habove j); [unfold eocd_window in Hj; lia|].
      apply getUint32_trailer_at; assumption. }
  assert (Hgoes_on : forall e,
             findEOCD (fresh_reader b) = (Normal e, fresh_reader b) -> eocd_window dv e ->
             new_ZipReader b
             = match parse_loop (Z.to_nat (peekUint16 dv (e + 10)))
                       (peekUint32 dv (e + 16)) (fresh_reader b) with
               | (Normal _, this') => Normal this'
               | (Throw ex, _) => Throw ex
               end
             /\ new_ZipReader b <> Throw (Error "Not a valid ZIP file: EOCD not found")).
  { intros e Hrun Hw.
    assert (Hne : e <> -1) by (unfold eocd_window in Hw; lia).
    destruct (parse_with_trailer _ _ Hrun Hne) as [_ Hparse].
    cbn [dataView fresh_reader] in Hparse. fold dv in Hparse. fold (fresh_reader b) in Hparse.
    assert (Hnew : new_ZipReader b
                   = match parse_loop (Z.to_nat (peekUint16 dv (e + 10)))
                             (peekUint32 dv (e + 16)) (fresh_reader b) with
                     | (Normal _, this') => Normal this'
                     | (Throw ex, _) => Throw ex
                     end).
    { unfold new_ZipReader. fold (fresh_reader b). rewrite Hparse. reflexivity. }
    split; [exact Hnew|]. rewrite Hnew.
    destruct (parse_loop (Z.to_nat (peekUint16 dv (e + 10))) (peekUint32 dv (e + 16))
                (fresh_reader b)) as [[u|ex] this'] eqn:Hwalk; [discriminate|].
    destruct (parse_loop_throws b _ _ _ _ _ Hwalk) as [-> | ->]; discriminate. }
  assert (Hempty : (forall i, eocd_window dv i -> ~ trailer_at b i) ->
                   new_ZipReader b = Throw (Error "Not a valid ZIP file: EOCD not found")).
  { intros Hno. destruct Hcases as [(e & _ & Hw & Ht & _)|(Hrun & _)].
    - exfalso. exact (Hno e Hw Ht).
    - exact (Hnone Hrun). }
  split; [|split; [|split]].
  - destruct Hcases as [(e & Hrun & Hw & Ht & Hmax)|(Hrun & Hno)].
    + left. exists e. destruct (Hgoes_on e Hrun Hw) as [Hnew Hnot].
      split; [exact Hrun|]. split; [exact Hw|]. split; [exact Ht|].
      split; [exact Hmax|]. split; [exact Hnew | exact Hnot].
    + right. split; [exact Hrun|]. split; [exact Hno | exact (Hnone Hrun)].
  - split; [exact Hempty|]. intros Hthrow.
    destruct Hcases as [(e & Hrun & Hw & _)|(_ & Hno)]; [|exact Hno].
    exfalso. exact (proj2 (Hgoes_on e Hrun Hw) Hthrow).
  - intros Hshort. apply Hempty. intros i Hi.
    unfold eocd_window in Hi. cbn [byteLength dv new_DataView] in Hi. lia.
  - intros r Hr. unfold new_ZipReader in Hr. fold (fresh_reader b) in Hr.
    destruct (parse (fresh_reader b)) as [[[]|ex] this']; [|discriminate Hr].
    apply Normal_inj in Hr. subst this'. reflexivity.
Qed.

(** A buffer of 21 bytes is too short to hold a trailer, and a buffer of 100
    zero bytes holds none.  [test.zip], whose trailer at 489 declares three
    entries, followed by a trailer that declares none: the constructor goes
    by the trailer at 511, the higher of the two, and the reader is empty. *)
Lemma trailer_search_witness :
  new_ZipReader (repeat x00 21) = Throw (Error "Not a valid ZIP file: EOCD not found")
  /\ new_ZipReader (repeat x00 100) = Throw (Error "Not a valid ZIP file: EOCD not found")
  /\ trailer_at Fixture.two_trailers_zip 489
  /\ trailer_at Fixture.two_trailers_zip 511
  /\ findEOCD (fresh_reader Fixture.two_trailers_zip)
     = (Normal 511, fresh_reader Fixture.two_trailers_zip)
  /\ new_ZipReader Fixture.two_trailers_zip = Normal (fresh_reader Fixture.two_trailers_zip).
Proof.
  split; [|split].
  - apply (proj1 (proj2 (proj2 (trailer_search (repeat x00 21))))).
    vm_compute. reflexivity.
  - apply (proj1 (proj1 (proj2 (trailer_search (repeat x00 100))))).
    intros i _ (H & _). unfold ab_get in H. rewrite nth_repeat in H. discriminate.
  - assert (Hlow : trailer_at Fixture.two_trailers_zip 489) by (vm_compute; tauto).
    assert (Hhigh : trailer_at Fixture.two_trailers_zip 511) by (vm_compute; tauto).
    assert (Hlen : byteLength (new_DataView Fixture.two_trailers_zip) = 533)
      by (vm_compute; reflexivity).
    assert (Hwin : eocd_window (new_DataView Fixture.two_trailers_zip) 511)
      by (unfold eocd_window; rewrite Hlen; lia).
    split; [exact Hlow|]. split; [exact Hhigh|].
    pose proof (proj1 (trailer_search Fixture.two_trailers_zip)) as Hsearch.
    cbv zeta in Hsearch.
    destruct Hsearch as [(e & Hrun & Hw & _ & Hmax & Hnew & _)|(_ & Hno & _)].
    + assert (He : e = 511).
      { pose proof (Hmax 511 Hwin Hhigh) as Hge.
        unfold eocd_window in Hw. rewrite Hlen in Hw. lia. }
      subst e. split; [exact Hrun|].
      rewrite Hnew. vm_compute. reflexivity.
    + exfalso. exact (Hno 511 Hwin Hhigh).
Defined.

(** C2. With the trailer found at [e], the walk starts at the directory offset
    read at [e + 16] and runs as many iterations as the entry count read at
    [e + 10]; each iteration checks the record signature and moves the cursor
    by 46 plus the three variable lengths of the record.  Over well-formed
    records the constructor returns a reader whose entry list has the
    declared length, one entry per record in directory order; a constructed
    reader always has that length; and the first record with another value
    in place of the signature makes the constructor throw. *)
Theorem directory_walk (b : ArrayBuffer) (e : Z) :
  findEOCD (fresh_reader b) = (Normal e, fresh_reader b) -> e <> -1 ->
  let dv := new_DataView b in
  let declared := peekUint16 dv (e + 10) in
  let cursor := cd_cursor dv (peekUint32 dv (e + 16)) in
  cursor O = peekUint32 dv (e + 16)
  /\ (forall i, cursor (S i)
                = cursor i + 46 + peekUint16 dv (cursor i + 28)
                  + peekUint16 dv (cursor i + 30) + peekUint16 dv (cursor i + 32))
  /\ ((forall i, (i < Z.to_nat declared)%nat -> record_ok b (cursor i)) ->
      exists r,
        new_ZipReader b = Normal r
        /\ dataView r = dv
        /\ getFiles r = (Normal (files r), r)
        /\ Z.of_nat (List.length (files r)) = declared
        /\ forall i, (i < Z.to_nat declared)%nat ->
                     nth_error (files r) i = entry_at dv (cursor i))
  /\ (forall r,
        new_ZipReader b = Normal r ->
        Z.of_nat (List.length (files r)) = declared
        /\ forall i, (i < Z.to_nat declared)%nat -> record_ok b (cursor i))
  /\ (forall (i : nat) (s : Z),
        (i < Z.to_nat declared)%nat ->
        (forall j, (j < i)%nat -> record_ok b (cursor j)) ->
        getUint32 dv (cursor i) = Normal s ->
        s <> CENTRAL_DIRECTORY_SIGNATURE ->
        new_ZipReader b = Throw (Error "Invalid central directory signature")).
Proof.
  intros Hfind Hne dv declared cursor.
  destruct (parse_with_trailer _ _ Hfind Hne) as [_ Hparse].
  cbn [dataView fresh_reader] in Hparse. fold dv declared in Hparse.
  pose proof (peekUint16_range dv (e + 10)) as Hdecl. fold declared in Hdecl.
  assert (Hwf : (forall i, (i < Z.to_nat declared)%nat -> record_ok b (cursor i)) ->
      exists r,
        new_ZipReader b = Normal r
        /\ dataView r = dv
        /\ getFiles r = (Normal (files r), r)
        /\ Z.of_nat (List.length (files r)) = declared
        /\ forall i, (i < Z.to_nat declared)%nat ->
                     nth_error (files r) i = entry_at dv (cursor i)).
  { intros Hok.
    destruct (parse_loop_ok b (Z.to_nat declared) (peekUint32 dv (e + 16)) [] Hok)
      as (fs & Hrun & Hlen & Hnth).
    exists {| dataView := dv; files := fs |}.
    unfold new_ZipReader. fold (fresh_reader b). rewrite Hparse.
    unfold fresh_reader. rewrite Hrun. cbn [app dataView files].
    repeat split; [lia | exact Hnth]. }
  split; [reflexivity|]. split; [reflexivity|]. split; [exact Hwf|]. split.
  - intros r Hr.
    assert (Hok : forall i, (i < Z.to_nat declared)%nat -> record_ok b (cursor i)).
    { unfold new_ZipReader in Hr. fold (fresh_reader b) in Hr. rewrite Hparse in Hr.
      destruct (parse_loop (Z.to_nat declared) (peekUint32 dv (e + 16)) (fresh_reader b))
        as [[[]|ex] this'] eqn:Hrun; [|discriminate].
      exact (parse_loop_Normal b _ _ _ _ Hrun). }
    split; [|exact Hok].
    destruct (Hwf Hok) as (r' & Hr' & _ & _ & Hlen & _).
    rewrite Hr in Hr'. injection Hr' as <-. exact Hlen.
  - intros i s Hi Hok Hs Hbad.
    destruct (parse_loop_bad_signature b (Z.to_nat declared) (peekUint32 dv (e + 16))
                [] i s Hi Hok Hs Hbad) as (fs & Hrun & _).
    unfold new_ZipReader. fold (fresh_reader b). rewrite Hparse.
    unfold fresh_reader. rewrite Hrun. reflexivity.
Qed.

(** [test.zip]: the trailer sits at offset 489 and declares three records, all
    well formed. *)
Lemma directory_walk_witness :
  exists r,
    new_ZipReader TestData.test_zip = Normal r
    /\ Z.of_nat (List.length (files r)) = 3
    /\ option_map filename (nth_error (files r) 2) = Some (js "file3.txt").
Proof.
  assert (Hfind : findEOCD (fresh_reader TestData.test_zip)
                  = (Normal 489, fresh_reader TestData.test_zip))
    by (vm_compute; reflexivity).
  assert (Hne : 489 <> -1) by discriminate.
  destruct (directory_walk TestData.test_zip 489 Hfind Hne) as (_ & _ & Hwf & _).
  assert (Hcount : Z.to_nat (peekUint16 (new_DataView TestData.test_zip) (489 + 10)) = 3%nat)
    by (vm_compute; reflexivity).
  rewrite Hcount in Hwf.
  destruct Hwf as (r & Hr & _ & _ & Hlen & Hnth).
  - intros [|[|[|i]]] Hi; [| | |lia];
      (split; [vm_compute; reflexivity | apply Z.leb_le; vm_compute; reflexivity]).
  - exists r. split; [exact Hr|]. split.
    + rewrite Hlen. vm_compute. reflexivity.
    + rewrite (Hnth 2%nat) by lia. vm_compute. reflexivity.
Defined.

(** ** Lookup by name *)

Lemma jsstring_eqb_eq (a b : JSString) : jsstring_eqb a b = true <-> a = b.
Proof.
  unfold jsstring_eqb. destruct (list_eq_dec Z.eq_dec a b); split; congruence.
Qed.

Lemma lookup_None (name : JSString) (fs : list ZipFileInfo) :
  lookup name fs = None <-> (forall f, In f fs -> filename f <> name).
Proof.
  unfold lookup. split.
  - intros H f Hin Heq.
    apply (find_none _ _ H) in Hin. cbn in Hin.
    rewrite (proj2 (jsstring_eqb_eq _ _) Heq) in Hin. discriminate.
  - intros H. induction fs as [|g fs IH]; [reflexivity|]. cbn [find].
    destruct (jsstring_eqb (filename g) name) eqn:E.
    + apply jsstring_eqb_eq in E. exfalso. apply (H g); [left; reflexivity | exact E].
    + apply IH. intros f Hin. apply H. right. exact Hin.
Qed.

Lemma lookup_first (name : JSString) (l1 l2 : list ZipFileInfo) (f : ZipFileInfo) :
  filename f = name -> (forall g, In g l1 -> filename g <> name) ->
  lookup name (l1 ++ f :: l2) = Some f.
Proof.
  intros Hf Hl1. unfold lookup. induction l1 as [|g l1 IH]; cbn [app find].
  - rewrite (proj2 (jsstring_eqb_eq _ _) Hf). reflexivity.
  - destruct (jsstring_eqb (filename g) name) eqn:E.
    + apply jsstring_eqb_eq in E. exfalso. apply (Hl1 g); [left; reflexivity | exact E].
    + apply IH. intros h Hin. apply Hl1. right. exact Hin.
Qed.

Lemma lookup_Some (name : JSString) (fs : list ZipFileInfo) (f : ZipFileInfo) :
  lookup name fs = Some f ->
  filename f = name
  /\ exists l1 l2, fs = l1 ++ f :: l2 /\ forall g, In g l1 -> filename g <> name.
Proof.
  unfold lookup. induction fs as [|g fs IH]; cbn [find]; [discriminate|].
  destruct (jsstring_eqb (filename g) name) eqn:E.
  - intros [= <-]. apply jsstring_eqb_eq in E. split; [exact E|].
    exists [], fs. split; [reflexivity|]. intros h [].
  - intros H. destruct (IH H) as (Hf & l1 & l2 & -> & Hl1). split; [exact Hf|].
    exists (g :: l1), l2. split; [reflexivity|].
    intros h [<-|Hin]; [|apply Hl1; exact Hin].
    intros Heq. apply jsstring_eqb_eq in Heq. congruence.
Qed.

(** Lists of entries that agree on names pointwise are looked up alike. *)
Lemma lookup_Forall2 (R : ZipFileInfo -> ZipFileInfo -> Prop) (name : JSString)
      (fs gs : list ZipFileInfo) :
  (forall f g, R f g -> filename f = filename g) ->
  Forall2 R fs gs ->
  (lookup name fs = None /\ lookup name gs = None)
  \/ (exists f g, lookup name fs = Some f /\ lookup name gs = Some g /\ R f g).
Proof.
  intros Hname H. unfold lookup. induction H as [|f g fs gs Hfg _ IH]; cbn [find].
  - left. split; reflexivity.
  - rewrite <- (Hname f g Hfg).
    destruct (jsstring_eqb (filename f) name); [|exact IH].
    right. exists f, g. repeat split. exact Hfg.
Qed.

(** ** Extraction *)

Ltac step_extract :=
  repeat (cbv beta iota; try rewrite !bind_lift;
          match goal with
          | |- context [match ?c with Normal _ => _ | Throw _ => _ end] =>
              let E := fresh "E" in destruct c eqn:E
          | |- context [if ?b then _ else _] =>
              let E := fresh "E" in destruct b eqn:E
          end).

(** [extractFile] only reads [this]. *)
Lemma extractFile_state (name : JSString) (this : ZipReader) :
  snd (extractFile name this) = this.
Proof.
  unfold extractFile. rewrite bind_this_files.
  destruct (find _ (files this)) as [f|]; [|reflexivity].
  rewrite bind_this_dataView.
  step_extract; reflexivity.
Qed.

Lemma extractFile_not_found (name : JSString) (this : ZipReader) :
  lookup name (files this) = None ->
  extractFile name this = (Normal None, this).
Proof.
  intros H. unfold extractFile. rewrite bind_this_files.
  unfold lookup in H. rewrite H. reflexivity.
Qed.

(** What [extractFile] returns for a name that is found depends on the view
    and on three fields of the entry: where its local header is, how long its
    payload is, and how it is compressed. *)
Lemma extractFile_found_congr (n1 n2 : JSString) (r1 r2 : ZipReader) (f g : ZipFileInfo) :
  lookup n1 (files r1) = Some f -> lookup n2 (files r2) = Some g ->
  dataView r1 = dataView r2 ->
  offset f = offset g ->
  compressedSize f = compressedSize g ->
  compressionMethod f = compressionMethod g ->
  fst (extractFile n1 r1) = fst (extractFile n2 r2).
Proof.
  intros H1 H2 Hdv Hoff Hcs Hcm. unfold extractFile. rewrite !bind_this_files.
  unfold lookup in H1, H2. rewrite H1, H2. rewrite !bind_this_dataView.
  rewrite Hdv, Hoff, Hcs, Hcm.
  step_extract; reflexivity.
Qed.

(** The closed form of [extractFile] for a name that is found. *)
Lemma extractFile_found_eq (name : JSString) (this : ZipReader) (f : ZipFileInfo) :
  lookup name (files this) = Some f ->
  let dv := dataView this in
  fst (extractFile name this)
  = match getUint32 dv (offset f) with
    | Throw e => Throw e
    | Normal s =>
        if negb (s =? LOCAL_FILE_HEADER_SIGNATURE)
        then Throw (Error "Invalid local file header signature")
        else
          match getUint16 dv (offset f + 26) with
          | Throw e => Throw e
          | Normal fl =>
              match getUint16 dv (offset f + 28) with
              | Throw e => Throw e
              | Normal el =>
                  match new_Uint8Array (buffer dv) (byteOffset dv + (offset f + 30 + fl + el))
                          (compressedSize f) with
                  | Throw e => Throw e
                  | Normal data =>
                      if compressionMethod f =? 0 then
                        Normal (Some (enqueue_close data))
                      else if compressionMethod f =? 8 then
                        Normal (Some (pipeThrough (enqueue_close data)
                                        (DecompressionStream "deflate-raw")))
                      else
                        Throw (Error ("Unsupported compression method: "
                                      ++ number_toString (compressionMethod f))%string)
                  end
              end
          end
    end.
Proof.
  intros Hf dv. unfold extractFile. rewrite bind_this_files.
  unfold lookup in Hf. rewrite Hf. rewrite bind_this_dataView. fold dv.
  rewrite bind_lift.
  destruct (getUint32 dv (offset f)) as [s|e]; [|reflexivity]. cbv beta iota.
  destruct (negb (s =? LOCAL_FILE_HEADER_SIGNATURE)); [reflexivity|].
  rewrite bind_lift.
  destruct (getUint16 dv (offset f + 26)) as [fl|e]; [|reflexivity]. cbv beta iota.
  rewrite bind_lift.
  destruct (getUint16 dv (offset f + 28)) as [el|e]; [|reflexivity]. cbv beta iota.
  rewrite bind_lift.
  destruct (new_Uint8Array _ _ _) as [data|e]; [|reflexivity]. cbv beta iota.
  destruct (compressionMethod f =? 0); [reflexivity|].
  destruct (compressionMethod f =? 8); reflexivity.
Qed.

(** The local header re-read and the dispatch, for a name that is found and a
    local header that is in place. *)
Lemma extractFile_found (name : JSString) (this : ZipReader) (f : ZipFileInfo)
      (fl el : Z) (data : Uint8Array) :
  let dv := dataView this in
  lookup name (files this) = Some f ->
  getUint32 dv (offset f) = Normal LOCAL_FILE_HEADER_SIGNATURE ->
  getUint16 dv (offset f + 26) = Normal fl ->
  getUint16 dv (offset f + 28) = Normal el ->
  new_Uint8Array (buffer dv) (byteOffset dv + (offset f + 30 + fl + el))
    (compressedSize f) = Normal data ->
  extractFile name this
  = (if compressionMethod f =? 0 then
       Normal (Some (enqueue_close data))
     else if compressionMethod f =? 8 then
       Normal (Some (pipeThrough (enqueue_close data) (DecompressionStream "deflate-raw")))
     else
       Throw (Error ("Unsupported compression method: "
                     ++ number_toString (compressionMethod f))%string),
     this).
Proof.
  intros dv Hf Hsig Hfl Hel Hdata. unfold extractFile. rewrite bind_this_files.
  unfold lookup in Hf. rewrite Hf. rewrite bind_this_dataView. fold dv.
  rewrite bind_lift, Hsig, Z.eqb_refl. cbn [negb].
  rewrite bind_lift, Hfl. cbv beta iota.
  rewrite bind_lift, Hel. cbv beta iota.
  rewrite bind_lift, Hdata. cbv beta iota.
  destruct (compressionMethod f =? 0); [reflexivity|].
  destruct (compressionMethod f =? 8); reflexivity.
Qed.

(** The local header check, for a name that is found. *)
Lemma extractFile_bad_signature (name : JSString) (this : ZipReader) (f : ZipFileInfo)
      (s : Z) :
  lookup name (files this) = Some f ->
  getUint32 (dataView this) (offset f) = Normal s ->
  s <> LOCAL_FILE_HEADER_SIGNATURE ->
  extractFile name this = (Throw (Error "Invalid local file header signature"), this).
Proof.
  intros Hf Hs Hne. unfold extractFile. rewrite bind_this_files.
  unfold lookup in Hf. rewrite Hf. rewrite bind_this_dataView.
  rewrite bind_lift, Hs.
  destruct (Z.eqb_spec s LOCAL_FILE_HEADER_SIGNATURE); [contradiction|]. reflexivity.
Qed.

(** Every way in which [extractFile] ends, for a name that is found. *)
Lemma extractFile_found_cases (name : JSString) (this : ZipReader) (f : ZipFileInfo) :
  let dv := dataView this in
  lookup name (files this) = Some f ->
  fst (extractFile name this) = Throw RangeError
  \/ (fst (extractFile name this) = Throw (Error "Invalid local file header signature")
      /\ exists s, getUint32 dv (offset f) = Normal s /\ s <> LOCAL_FILE_HEADER_SIGNATURE)
  \/ (exists fl el data,
         getUint32 dv (offset f) = Normal LOCAL_FILE_HEADER_SIGNATURE
         /\ getUint16 dv (offset f + 26) = Normal fl
         /\ getUint16 dv (offset f + 28) = Normal el
         /\ new_Uint8Array (buffer dv) (byteOffset dv + (offset f + 30 + fl + el))
              (compressedSize f) = Normal data).
Proof.
  intros dv Hf.
  pose proof (extractFile_found_eq name this f Hf) as Heq. cbv zeta in Heq. fold dv in Heq.
  destruct (getUint32 dv (offset f)) as [s|e] eqn:Hs;
    [|left; rewrite Heq, (getUint32_Throw _ _ _ Hs); reflexivity].
  destruct (Z.eq_dec s LOCAL_FILE_HEADER_SIGNATURE) as [->|Hne].
  - rewrite Z.eqb_refl in Heq. cbn [negb] in Heq.
    destruct (getUint16 dv (offset f + 26)) as [fl|e] eqn:Hfl;
      [|left; rewrite Heq, (getUint16_Throw _ _ _ Hfl); reflexivity].
    destruct (getUint16 dv (offset f + 28)) as [el|e] eqn:Hel;
      [|left; rewrite Heq, (getUint16_Throw _ _ _ Hel); reflexivity].
    destruct (new_Uint8Array (buffer dv) (byteOffset dv + (offset f + 30 + fl + el))
                (compressedSize f)) as [data|e] eqn:Hdata;
      [|left; rewrite Heq, (new_Uint8Array_Throw _ _ _ _ Hdata); reflexivity].
    right. right. exists fl, el, data. repeat split; assumption.
  - right. left. split; [|exists s; split; [reflexivity | exact Hne]].
    rewrite (extractFile_bad_signature name this f s Hf Hs Hne). reflexivity.
Qed.

(** ** The local header and the payload *)

(** C1. For a name that is found, the four bytes at the entry's local header
    offset are read again: any value but 0x04034b50 there makes extraction
    throw, and so does a header offset at which four bytes cannot be read.
    A stream that extraction returns is fed from a view of the buffer
    that starts at the local header offset plus 30 plus the two lengths read
    at +26 and +28 of the local header, and spans exactly [compressedSize]
    bytes; and such a stream is returned whenever the header and the payload
    lie inside the buffer and the method is 0 or 8. *)
Theorem local_header_reread (name : JSString) (this : ZipReader) (f : ZipFileInfo) :
  lookup name (files this) = Some f ->
  let dv := dataView this in
  let start := offset f + 30 + peekUint16 dv (offset f + 26) + peekUint16 dv (offset f + 28) in
  (forall s, getUint32 dv (offset f) = Normal s -> s <> LOCAL_FILE_HEADER_SIGNATURE ->
             extractFile name this
             = (Throw (Error "Invalid local file header signature"), this))
  /\ (forall e, getUint32 dv (offset f) = Throw e ->
                extractFile name this = (Throw RangeError, this))
  /\ (forall stream,
        fst (extractFile name this) = Normal (Some stream) ->
        getUint32 dv (offset f) = Normal LOCAL_FILE_HEADER_SIGNATURE
        /\ stream_source stream
           = {| ua_buffer := buffer dv;
                ua_byteOffset := byteOffset dv + start;
                ua_length := compressedSize f |}
        /\ ua_bytes (stream_source stream)
           = firstn (Z.to_nat (compressedSize f))
               (skipn (Z.to_nat (byteOffset dv + start)) (buffer dv))
        /\ Z.of_nat (List.length (ua_bytes (stream_source stream))) = compressedSize f)
  /\ (getUint32 dv (offset f) = Normal LOCAL_FILE_HEADER_SIGNATURE ->
      offset f + 30 <= byteLength dv ->
      0 <= byteOffset dv + start -> 0 <= compressedSize f ->
      byteOffset dv + start + compressedSize f <= ab_byteLength (buffer dv) ->
      compressionMethod f = 0 \/ compressionMethod f = 8 ->
      exists stream, fst (extractFile name this) = Normal (Some stream)).
Proof.
  intros Hf dv start. split; [|split; [|split]].
  - intros s Hs Hne. exact (extractFile_bad_signature name this f s Hf Hs Hne).
  - intros e He.
    rewrite (surjective_pairing (extractFile name this)), extractFile_state.
    rewrite (extractFile_found_eq name this f Hf). fold dv. rewrite He.
    rewrite (getUint32_Throw _ _ _ He). reflexivity.
  - intros stream Hrun.
    destruct (extractFile_found_cases name this f Hf)
      as [Hr|[(Hr & _)|(fl & el & data & Hsig & Hfl & Hel & Hdata)]];
      [rewrite Hr in Hrun; discriminate | rewrite Hr in Hrun; discriminate |].
    fold dv in Hsig, Hfl, Hel, Hdata.
    rewrite (extractFile_found name this f fl el data Hf Hsig Hfl Hel Hdata) in Hrun.
    cbn [fst] in Hrun.
    apply getUint16_Normal in Hfl as (_ & _ & ->).
    apply getUint16_Normal in Hel as (_ & _ & ->).
    fold start in Hdata.
    pose proof (ua_bytes_length _ _ _ _ Hdata) as Hlen.
    apply new_Uint8Array_Normal in Hdata as (_ & _ & _ & Hview).
    assert (Hsrc : stream_source stream = data).
    { destruct (compressionMethod f =? 0); [injection Hrun as <-; reflexivity|].
      destruct (compressionMethod f =? 8); [injection Hrun as <-; reflexivity|].
      discriminate. }
    rewrite Hsrc. split; [exact Hsig|]. split; [exact Hview|].
    split; [rewrite Hview; reflexivity | exact Hlen].
  - intros Hsig Hhdr Hstart Hsize Hend Hmethod.
    pose proof (getUint32_Normal _ _ _ Hsig) as (Ho & _ & _).
    assert (Hfl : getUint16 dv (offset f + 26) = Normal (peekUint16 dv (offset f + 26)))
      by (apply getUint16_in_range; lia).
    assert (Hel : getUint16 dv (offset f + 28) = Normal (peekUint16 dv (offset f + 28)))
      by (apply getUint16_in_range; lia).
    pose proof (new_Uint8Array_in_range (buffer dv) (byteOffset dv + start)
                  (compressedSize f) Hstart Hsize Hend) as Hdata.
    rewrite (extractFile_found name this f _ _ _ Hf Hsig Hfl Hel Hdata). cbn [fst].
    destruct Hmethod as [-> | ->]; cbn; eexists; reflexivity.
Qed.

(** [file3.txt] of [test.zip]: the local header at 169 declares 9 bytes of
    name and 28 of extra field (the directory record declares 24), so the 16
    bytes of payload start at 169 + 30 + 9 + 28. *)
Lemma local_header_reread_witness :
  exists stream,
    fst (extractFile (js "file3.txt") Fixture.test_reader) = Normal (Some stream)
    /\ ua_byteOffset (stream_source stream) = 236
    /\ Z.of_nat (List.length (ua_bytes (stream_source stream))) = 16.
Proof.
  eassert (Hf : lookup (js "file3.txt") (files Fixture.test_reader) = Some _)
    by (vm_compute; reflexivity).
  destruct (local_header_reread _ _ _ Hf) as (_ & _ & Hstream & Hex).
  destruct Hex as (stream & Hrun).
  - vm_compute. reflexivity.
  - apply Z.leb_le. vm_compute. reflexivity.
  - apply Z.leb_le. vm_compute. reflexivity.
  - apply Z.leb_le. vm_compute. reflexivity.
  - apply Z.leb_le. vm_compute. reflexivity.
  - right. vm_compute. reflexivity.
  - exists stream. split; [exact Hrun|].
    destruct (Hstream stream Hrun) as (_ & Hsrc & _ & Hlen).
    rewrite Hlen, Hsrc. split; vm_compute; reflexivity.
Defined.

(** ** Dispatch on the compression method *)

(** C4. With the local header in place and the payload [data] inside the
    buffer: method 0 returns a stream that enqueues [data] as it is and
    closes; method 8 returns that stream piped through a raw-deflate
    decompression stream; every other method throws an error whose message
    carries the method number in decimal.  Conversely an error with that
    message is thrown for an entry whose method is neither 0 nor 8 only. *)
Theorem compression_dispatch (name : JSString) (this : ZipReader) (f : ZipFileInfo) :
  lookup name (files this) = Some f ->
  let dv := dataView this in
  (forall fl el data,
      getUint32 dv (offset f) = Normal LOCAL_FILE_HEADER_SIGNATURE ->
      getUint16 dv (offset f + 26) = Normal fl ->
      getUint16 dv (offset f + 28) = Normal el ->
      new_Uint8Array (buffer dv) (byteOffset dv + (offset f + 30 + fl + el))
        (compressedSize f) = Normal data ->
      (compressionMethod f = 0 ->
       extractFile name this = (Normal (Some (enqueue_close data)), this))
      /\ (compressionMethod f = 8 ->
          extractFile name this
          = (Normal (Some (pipeThrough (enqueue_close data)
                             (DecompressionStream "deflate-raw"))), this))
      /\ (compressionMethod f <> 0 -> compressionMethod f <> 8 ->
          extractFile name this
          = (Throw (Error ("Unsupported compression method: "
                           ++ number_toString (compressionMethod f))%string), this)))
  /\ (forall code,
        fst (extractFile name this)
        = Throw (Error ("Unsupported compression method: " ++ code)%string) ->
        compressionMethod f <> 0 /\ compressionMethod f <> 8
        /\ code = number_toString (compressionMethod f)).
Proof.
  intros Hf dv. split.
  - intros fl el data Hsig Hfl Hel Hdata.
    rewrite (extractFile_found name this f fl el data Hf Hsig Hfl Hel Hdata).
    repeat split.
    + intros ->. reflexivity.
    + intros ->. reflexivity.
    + intros H0 H8.
      destruct (Z.eqb_spec (compressionMethod f) 0); [contradiction|].
      destruct (Z.eqb_spec (compressionMethod f) 8); [contradiction|]. reflexivity.
  - intros code Hrun.
    destruct (extractFile_found_cases name this f Hf)
      as [Hr|[(Hr & _)|(fl & el & data & Hsig & Hfl & Hel & Hdata)]].
    + rewrite Hr in Hrun. discriminate.
    + rewrite Hr in Hrun. cbn in Hrun. discriminate.
    + rewrite (extractFile_found name this f fl el data Hf Hsig Hfl Hel Hdata) in Hrun.
      cbn [fst] in Hrun.
      destruct (Z.eqb_spec (compressionMethod f) 0); [discriminate|].
      destruct (Z.eqb_spec (compressionMethod f) 8); [discriminate|].
      injection Hrun as Hcode.
      repeat split; try assumption.
      cbn in Hcode. repeat (injection Hcode as Hcode). symmetry. exact Hcode.
Qed.

(** [file2.txt] with its method set to 12: the error names 12. *)
Lemma compression_dispatch_witness :
  extractFile (js "file2.txt") Fixture.bzip2_reader
  = (Throw (Error "Unsupported compression method: 12"), Fixture.bzip2_reader).
Proof.
  eassert (Hf : lookup (js "file2.txt") (files Fixture.bzip2_reader) = Some _)
    by (vm_compute; reflexivity).
  destruct (compression_dispatch _ _ _ Hf) as (Hdispatch & _).
  edestruct Hdispatch as (_ & _ & Hother).
  - vm_compute. reflexivity.
  - vm_compute. reflexivity.
  - vm_compute. reflexivity.
  - vm_compute. reflexivity.
  - rewrite Hother; [reflexivity | vm_compute; discriminate | vm_compute; discriminate].
Defined.

(** ** Lookup and absence *)

(** C6. The entry used is the first one, in the order of the entry list,
    whose name equals the requested name code unit for code unit: entries
    after it with the same name play no part, and the entry that the lookup
    yields is always such a first match.  When no entry has that name the
    result is [null]; and [null] is returned in that case only. *)
Theorem first_match_or_null (name : JSString) (this : ZipReader) :
  ((forall f, In f (files this) -> filename f <> name) ->
   extractFile name this = (Normal None, this))
  /\ (fst (extractFile name this) = Normal None ->
      forall f, In f (files this) -> filename f <> name)
  /\ (forall l1 f l2,
        files this = l1 ++ f :: l2 ->
        filename f = name ->
        (forall g, In g l1 -> filename g <> name) ->
        lookup name (files this) = Some f
        /\ extractFile name this
           = (fst (extractFile name {| dataView := dataView this; files := [f] |}), this))
  /\ (forall f,
        lookup name (files this) = Some f ->
        filename f = name
        /\ exists l1 l2,
             files this = l1 ++ f :: l2 /\ forall g, In g l1 -> filename g <> name).
Proof.
  split; [|split; [|split; [|exact (lookup_Some name (files this))]]].
  - intros Hno. apply extractFile_not_found. apply lookup_None. exact Hno.
  - intros Hrun. apply lookup_None.
    destruct (lookup name (files this)) as [f|] eqn:Hf; [exfalso|reflexivity].
    destruct (extractFile_found_cases name this f Hf)
      as [Hr|[(Hr & _)|(fl & el & data & Hsig & Hfl & Hel & Hdata)]].
    + rewrite Hr in Hrun. discriminate.
    + rewrite Hr in Hrun. discriminate.
    + rewrite (extractFile_found name this f fl el data Hf Hsig Hfl Hel Hdata) in Hrun.
      cbn [fst] in Hrun.
      destruct (compressionMethod f =? 0); [discriminate|].
      destruct (compressionMethod f =? 8); discriminate.
  - intros l1 f l2 Hfiles Hname Hl1.
    assert (Hf : lookup name (files this) = Some f)
      by (rewrite Hfiles; apply lookup_first; assumption).
    split; [exact Hf|].
    assert (Hf1 : lookup name (files {| dataView := dataView this; files := [f] |}) = Some f)
      by (apply (lookup_first name [] [] f Hname); intros g []).
    rewrite (surjective_pairing (extractFile name this)), extractFile_state.
    f_equal.
    apply (extractFile_found_congr name name _ _ f f Hf Hf1); reflexivity.
Qed.

(** Two records named [file1.txt]: the payload of the first is returned. *)
Lemma first_match_or_null_witness :
  map filename (files Fixture.duplicate_reader)
  = [js "file1.txt"; js "file1.txt"; js "file3.txt"]
  /\ extractFile (js "file1.txt") Fixture.duplicate_reader
     = (Normal (Some (enqueue_close
                        {| ua_buffer := Fixture.duplicate_zip;
                           ua_byteOffset := 67;
                           ua_length := 14 |})),
        Fixture.duplicate_reader)
  /\ extractFile (js "File1.txt") Fixture.duplicate_reader
     = (Normal None, Fixture.duplicate_reader).
Proof.
  split; [vm_compute; reflexivity|].
  destruct (first_match_or_null (js "file1.txt") Fixture.duplicate_reader)
    as (_ & _ & Hfirst & _).
  destruct (first_match_or_null (js "File1.txt") Fixture.duplicate_reader)
    as (Hnull & _ & _ & _).
  split.
  - edestruct (Hfirst []) as (_ & Hrun).
    + vm_compute. reflexivity.
    + vm_compute. reflexivity.
    + intros g [].
    + rewrite Hrun. vm_compute. reflexivity.
  - apply Hnull. intros f Hin.
    vm_compute in Hin. destruct Hin as [<-|[<-|[<-|[]]]]; vm_compute; discriminate.
Defined.

(** ** Extraction leaves the reader as it was *)

Lemma extract_each_frame (names : list JSString) (this : ZipReader) :
  extract_each names this = (map (fun name => fst (extractFile name this)) names, this).
Proof.
  induction names as [|name names IH]; [reflexivity|].
  cbn [extract_each map].
  rewrite (surjective_pairing (extractFile name this)), extractFile_state, IH.
  reflexivity.
Qed.

(** C8. A call of [extractFile] returns [this] with the same view, the same
    buffer and the same entry list, whether it returns a stream, returns
    [null] or throws.  A caller that extracts any sequence of names, catching
    each exception, gets for each name what a single call on the untouched
    reader gives, and is left with the untouched reader. *)
Theorem extraction_frame (this : ZipReader) :
  (forall name, snd (extractFile name this) = this)
  /\ (forall name,
        buffer (dataView (snd (extractFile name this))) = buffer (dataView this)
        /\ files (snd (extractFile name this)) = files this)
  /\ (forall names,
        extract_each names this
        = (map (fun name => fst (extractFile name this)) names, this))
  /\ (forall names1 name names2,
        nth_error (fst (extract_each (names1 ++ name :: names2) this)) (List.length names1)
        = Some (fst (extractFile name this))).
Proof.
  split; [|split; [|split]].
  - intros name. apply extractFile_state.
  - intros name. rewrite extractFile_state. split; reflexivity.
  - intros names. apply extract_each_frame.
  - intros names1 name names2. rewrite extract_each_frame. cbn [fst].
    rewrite map_app. cbn [map].
    rewrite nth_error_app2 by (rewrite length_map; lia).
    rewrite length_map, Nat.sub_diag. reflexivity.
Qed.

(** ** Stored entries *)

Lemma extractFile_same_payload (r1 r2 : ZipReader) (name : JSString) :
  dataView r1 = dataView r2 ->
  Forall2 same_payload (files r1) (files r2) ->
  fst (extractFile name r1) = fst (extractFile name r2).
Proof.
  intros Hdv Hfs.
  destruct (lookup_Forall2 same_payload name (files r1) (files r2))
    as [(H1 & H2)|(f & g & H1 & H2 & (_ & Hoff & Hcs & Hcm))].
  - intros f g (Hn & _). exact Hn.
  - exact Hfs.
  - rewrite (extractFile_not_found _ _ H1), (extractFile_not_found _ _ H2). reflexivity.
  - apply (extractFile_found_congr name name r1 r2 f g); assumption.
Qed.

(** The stream returned when the local header and the payload lie inside the
    buffer. *)
Lemma extractFile_in_range (name : JSString) (this : ZipReader) (f : ZipFileInfo) :
  let dv := dataView this in
  let start := offset f + 30 + peekUint16 dv (offset f + 26) + peekUint16 dv (offset f + 28) in
  lookup name (files this) = Some f ->
  getUint32 dv (offset f) = Normal LOCAL_FILE_HEADER_SIGNATURE ->
  offset f + 30 <= byteLength dv ->
  0 <= byteOffset dv + start -> 0 <= compressedSize f ->
  byteOffset dv + start + compressedSize f <= ab_byteLength (buffer dv) ->
  let data := {| ua_buffer := buffer dv;
                 ua_byteOffset := byteOffset dv + start;
                 ua_length := compressedSize f |} in
  extractFile name this
  = (if compressionMethod f =? 0 then
       Normal (Some (enqueue_close data))
     else if compressionMethod f =? 8 then
       Normal (Some (pipeThrough (enqueue_close data) (DecompressionStream "deflate-raw")))
     else
       Throw (Error ("Unsupported compression method: "
                     ++ number_toString (compressionMethod f))%string),
     this).
Proof.
  intros dv start Hf Hsig Hhdr Hstart Hsize Hend data.
  pose proof (getUint32_Normal _ _ _ Hsig) as (Ho & _ & _).
  apply (extractFile_found name this f
           (peekUint16 dv (offset f + 26)) (peekUint16 dv (offset f + 28)) data Hf Hsig).
  - apply getUint16_in_range; lia.
  - apply getUint16_in_range; lia.
  - apply new_Uint8Array_in_range; assumption.
Qed.

(** C10. For an entry stored with method 0, a stream that extraction returns
    enqueues one chunk of exactly [compressedSize] bytes, and it is returned
    whenever the local header and the payload lie inside the buffer.
    [uncompressedSize] is not read: a reader whose entries differ in that
    field at most returns the same for every name. *)
Theorem stored_length (name : JSString) (this : ZipReader) (f : ZipFileInfo) :
  lookup name (files this) = Some f ->
  compressionMethod f = 0 ->
  let dv := dataView this in
  let start := offset f + 30 + peekUint16 dv (offset f + 26) + peekUint16 dv (offset f + 28) in
  (forall stream,
      fst (extractFile name this) = Normal (Some stream) ->
      exists data,
        stream = enqueue_close data
        /\ ua_length data = compressedSize f
        /\ Z.of_nat (List.length (ua_bytes data)) = compressedSize f)
  /\ (getUint32 dv (offset f) = Normal LOCAL_FILE_HEADER_SIGNATURE ->
      offset f + 30 <= byteLength dv ->
      0 <= byteOffset dv + start -> 0 <= compressedSize f ->
      byteOffset dv + start + compressedSize f <= ab_byteLength (buffer dv) ->
      exists data,
        extractFile name this = (Normal (Some (enqueue_close data)), this)
        /\ Z.of_nat (List.length (ua_bytes data)) = compressedSize f)
  /\ (forall that,
        dataView this = dataView that ->
        Forall2 differ_in_uncompressedSize (files this) (files that) ->
        fst (extractFile name that) = fst (extractFile name this)).
Proof.
  intros Hf Hm dv start.
  assert (Hout : forall stream,
      fst (extractFile name this) = Normal (Some stream) ->
      exists data,
        stream = enqueue_close data
        /\ ua_length data = compressedSize f
        /\ Z.of_nat (List.length (ua_bytes data)) = compressedSize f).
  { intros stream Hrun.
    destruct (extractFile_found_cases name this f Hf)
      as [Hr|[(Hr & _)|(fl & el & data & Hsig & Hfl & Hel & Hdata)]];
      [rewrite Hr in Hrun; discriminate | rewrite Hr in Hrun; discriminate |].
    rewrite (extractFile_found name this f fl el data Hf Hsig Hfl Hel Hdata) in Hrun.
    rewrite Hm in Hrun. cbn in Hrun. injection Hrun as <-.
    exists data. split; [reflexivity|].
    pose proof (ua_bytes_length _ _ _ _ Hdata) as Hlen.
    apply new_Uint8Array_Normal in Hdata as (_ & _ & _ & ->).
    split; [reflexivity | exact Hlen]. }
  split; [exact Hout|]. split.
  - intros Hsig Hhdr Hstart Hsize Hend.
    pose proof (extractFile_in_range name this f Hf Hsig Hhdr Hstart Hsize Hend) as Hrun.
    cbv zeta in Hrun. rewrite Hm in Hrun. cbn [Z.eqb] in Hrun.
    eexists. split; [exact Hrun|].
    destruct (Hout _ (f_equal fst Hrun)) as (data & [= <-] & _ & Hlen). exact Hlen.
  - intros that Hdv Hfs. symmetry.
    apply extractFile_same_payload; [exact Hdv|].
    apply (Forall2_impl (R1 := differ_in_uncompressedSize)); [|exact Hfs].
    intros g h (Hn & _ & Hcs & Hcm & _ & _ & Hoff). repeat split; assumption.
Qed.

(** [file1.txt] declared as 14 bytes compressed and 99 uncompressed: 14 bytes
    come out. *)
Lemma stored_length_witness :
  map uncompressedSize (files Fixture.size_mismatch_reader) = [99; 21; 21]
  /\ exists data,
       extractFile (js "file1.txt") Fixture.size_mismatch_reader
       = (Normal (Some (enqueue_close data)), Fixture.size_mismatch_reader)
       /\ Z.of_nat (List.length (ua_bytes data)) = 14.
Proof.
  split; [vm_compute; reflexivity|].
  eassert (Hf : lookup (js "file1.txt") (files Fixture.size_mismatch_reader) = Some _)
    by (vm_compute; reflexivity).
  edestruct (stored_length _ _ _ Hf) as (_ & Hex & _).
  - vm_compute. reflexivity.
  - destruct Hex as (data & Hrun & Hlen).
    + vm_compute. reflexivity.
    + apply Z.leb_le. vm_compute. reflexivity.
    + apply Z.leb_le. vm_compute. reflexivity.
    + apply Z.leb_le. vm_compute. reflexivity.
    + apply Z.leb_le. vm_compute. reflexivity.
    + exists data. split; [exact Hrun|]. rewrite Hlen. vm_compute. reflexivity.
Defined.

(** ** Bit fields *)

Lemma to_int32_small (x : Z) : 0 <= x < 2147483648 -> to_int32 x = x.
Proof.
  intros H. unfold to_int32. rewrite Z.mod_small by lia.
  destruct (Z.leb_spec 2147483648 x); [lia | reflexivity].
Qed.

Lemma js_shr_small (x n : Z) :
  0 <= x < 2147483648 -> 0 <= n < 32 -> js_shr x n = x / 2 ^ n.
Proof.
  intros Hx Hn. unfold js_shr.
  rewrite to_int32_small by exact Hx. rewrite (Z.mod_small n 32) by lia.
  apply Z.shiftr_div_pow2. lia.
Qed.

Lemma js_and_ones (x n : Z) :
  0 <= x < 2147483648 -> 0 <= n < 31 -> js_and x (Z.ones n) = x mod 2 ^ n.
Proof.
  intros Hx Hn. unfold js_and.
  assert (Hp : 0 < 2 ^ n <= 2 ^ 30).
  { split; [apply Z.pow_pos_nonneg; lia | apply Z.pow_le_mono_r; lia]. }
  assert (Hones : Z.ones n = 2 ^ n - 1) by (rewrite Z.ones_equiv; lia).
  rewrite (to_int32_small x) by exact Hx.
  rewrite (to_int32_small (Z.ones n)) by (change (2 ^ 30) with 1073741824 in Hp; lia).
  rewrite Z.land_ones by lia.
  pose proof (Z.mod_pos_bound x (2 ^ n) ltac:(lia)) as Hm.
  apply to_int32_small. change (2 ^ 30) with 1073741824 in Hp. lia.
Qed.

(** Shifting and masking read a field of bits. *)
Lemma bit_field_testbit (x lo n i : Z) :
  0 <= lo -> 0 <= n -> 0 <= i ->
  Z.testbit (x / 2 ^ lo mod 2 ^ n) i = (i <? n) && Z.testbit x (lo + i).
Proof.
  intros Hlo Hn Hi.
  rewrite <- Z.land_ones by exact Hn. rewrite Z.land_spec.
  rewrite <- Z.shiftr_div_pow2 by exact Hlo. rewrite Z.shiftr_spec by exact Hi.
  rewrite Z.testbit_ones_nonneg by assumption.
  rewrite (Z.add_comm i lo). apply andb_comm.
Qed.

Lemma encrypted_bit0 (o : Z) (this : ZipReader) (f : ZipFileInfo) :
  fst (parseCentralDirectoryEntry o this) = Normal f ->
  encrypted f = Z.testbit (peekUint16 (dataView this) (o + 8)) 0.
Proof.
  intros Hf.
  pose proof (parseCentralDirectoryEntry_Normal o this f Hf)
    as (_ & _ & _ & Henc & _).
  rewrite Henc.
  pose proof (peekUint16_range (dataView this) (o + 8)) as Hr.
  change 1 with (Z.ones 1) at 1. rewrite js_and_ones by lia.
  rewrite Z.bit0_odd. change (2 ^ 1) with 2. rewrite Zmod_odd.
  destruct (Z.odd _); reflexivity.
Qed.

(** ** The timestamp *)

Lemma dosDateTimeToDate_fields (d t : Z) :
  0 <= d < 65536 -> 0 <= t < 65536 ->
  dosDateTimeToDate d t
  = new_Date (d / 512 mod 128 + 1980) (d / 32 mod 16 - 1) (d mod 32)
             (t / 2048 mod 32) (t / 32 mod 64) (t mod 32 * 2).
Proof.
  intros Hd Ht. unfold dosDateTimeToDate.
  assert (Hdiv : forall x k, 0 <= x < 65536 -> 0 < k -> 0 <= x / k < 2147483648).
  { intros x k Hx Hk. split; [apply Z.div_pos; lia|].
    apply Z.le_lt_trans with x; [|lia].
    apply Z.div_le_upper_bound; [lia|]. nia. }
  rewrite !js_shr_small by lia.
  change 0x7f with (Z.ones 7). change 0x0f with (Z.ones 4).
  change 0x1f with (Z.ones 5). change 0x3f with (Z.ones 6).
  rewrite !js_and_ones by (try apply Hdiv; lia).
  reflexivity.
Qed.

(** C7. The [lastModified] of an entry is built from the 16-bit words at +14
    (date) and +12 (time) of its directory record: the year is 1980 plus bits
    15-9 of the date, the month is bits 8-5 (handed to [Date] as the
    zero-based month index, so 1 is January), the day is bits 4-0; the hour is
    bits 15-11 of the time, the minute bits 10-5, the seconds twice bits 4-0.
    The six numbers go to the local-time [Date] constructor as they are; no
    time zone is read.  Packed fields are recovered exactly. *)
Theorem dos_timestamp (o : Z) (this : ZipReader) (f : ZipFileInfo) :
  fst (parseCentralDirectoryEntry o this) = Normal f ->
  let d := peekUint16 (dataView this) (o + 14) in
  let t := peekUint16 (dataView this) (o + 12) in
  lastModified f
  = new_Date (1980 + d / 2 ^ 9 mod 2 ^ 7) (d / 2 ^ 5 mod 2 ^ 4 - 1) (d / 2 ^ 0 mod 2 ^ 5)
             (t / 2 ^ 11 mod 2 ^ 5) (t / 2 ^ 5 mod 2 ^ 6) (2 * (t / 2 ^ 0 mod 2 ^ 5))
  /\ (forall lo n i, 0 <= lo -> 0 <= n -> 0 <= i ->
        Z.testbit (d / 2 ^ lo mod 2 ^ n) i = (i <? n) && Z.testbit d (lo + i))
  /\ (forall years month day hour minute halfsec,
        0 <= years < 128 -> 0 <= month < 16 -> 0 <= day < 32 ->
        0 <= hour < 32 -> 0 <= minute < 64 -> 0 <= halfsec < 32 ->
        dosDateTimeToDate (pack_dos_date years month day)
                          (pack_dos_time hour minute halfsec)
        = new_Date (1980 + years) (month - 1) day hour minute (2 * halfsec)).
Proof.
  intros Hf d t. split; [|split].
  - pose proof (parseCentralDirectoryEntry_Normal o this f Hf)
      as (_ & _ & _ & _ & _ & _ & _ & _ & Hlm & _).
    rewrite Hlm. fold d t.
    rewrite dosDateTimeToDate_fields by (apply peekUint16_range).
    change (2 ^ 9) with 512. change (2 ^ 7) with 128. change (2 ^ 5) with 32.
    change (2 ^ 4) with 16. change (2 ^ 0) with 1. change (2 ^ 11) with 2048.
    change (2 ^ 6) with 64. rewrite !Z.div_1_r. f_equal; lia.
  - intros lo n i Hlo Hn Hi. apply bit_field_testbit; assumption.
  - intros years month day hour minute halfsec Hy Hm Hd Hh Hmi Hs.
    unfold pack_dos_date, pack_dos_time.
    rewrite dosDateTimeToDate_fields by lia.
    f_equal; Z.div_mod_to_equations; lia.
Qed.

(** The first record of [test.zip], at 252: 30 September 2025, 16:05:48. *)
Lemma dos_timestamp_witness :
  exists f,
    fst (parseCentralDirectoryEntry 252 Fixture.test_reader) = Normal f
    /\ lastModified f = new_Date 2025 8 30 16 5 48.
Proof.
  eassert (Hf : fst (parseCentralDirectoryEntry 252 Fixture.test_reader) = Normal _)
    by (vm_compute; reflexivity).
  eexists. split; [exact Hf|].
  destruct (dos_timestamp _ _ _ Hf) as (Hlm & _). rewrite Hlm.
  vm_compute. reflexivity.
Defined.

(** ** Bytes that the reader does not read *)

Lemma agree_on_sub (b1 b2 : ArrayBuffer) (lo hi lo' hi' : Z) :
  agree_on b1 b2 lo hi -> lo <= lo' -> hi' <= hi -> agree_on b1 b2 lo' hi'.
Proof. intros H Hlo Hhi i Hi. apply H. lia. Qed.

Lemma agree_on_ab_get (b1 b2 : ArrayBuffer) (lo hi i : Z) :
  agree_on b1 b2 lo hi -> lo <= i < hi -> ab_get b1 i = ab_get b2 i.
Proof. intros H Hi. unfold ab_get. rewrite (H i Hi). reflexivity. Qed.

Lemma agree_on_peekUint16 (b1 b2 : ArrayBuffer) (lo hi off : Z) :
  agree_on b1 b2 lo hi -> lo <= off -> off + 2 <= hi ->
  peekUint16 (new_DataView b1) off = peekUint16 (new_DataView b2) off.
Proof.
  intros H Hlo Hhi. unfold peekUint16. cbn [buffer byteOffset new_DataView].
  rewrite !Z.add_0_l.
  rewrite (agree_on_ab_get b1 b2 lo hi off H) by lia.
  rewrite (agree_on_ab_get b1 b2 lo hi (off + 1) H) by lia.
  reflexivity.
Qed.

Lemma agree_on_peekUint32 (b1 b2 : ArrayBuffer) (lo hi off : Z) :
  agree_on b1 b2 lo hi -> lo <= off -> off + 4 <= hi ->
  peekUint32 (new_DataView b1) off = peekUint32 (new_DataView b2) off.
Proof.
  intros H Hlo Hhi. unfold peekUint32. cbn [buffer byteOffset new_DataView].
  rewrite !Z.add_0_l.
  rewrite (agree_on_ab_get b1 b2 lo hi off H) by lia.
  rewrite (agree_on_ab_get b1 b2 lo hi (off + 1) H) by lia.
  rewrite (agree_on_ab_get b1 b2 lo hi (off + 2) H) by lia.
  rewrite (agree_on_ab_get b1 b2 lo hi (off + 3) H) by lia.
  reflexivity.
Qed.

Lemma agree_on_getUint16 (b1 b2 : ArrayBuffer) (off : Z) :
  ab_byteLength b1 = ab_byteLength b2 ->
  agree_on b1 b2 off (off + 2) ->
  getUint16 (new_DataView b1) off = getUint16 (new_DataView b2) off.
Proof.
  intros Hlen H. rewrite !getUint16_eq. cbn [byteLength new_DataView]. rewrite <- Hlen.
  destruct ((off <? 0) || (ab_byteLength b1 <? off + 2)); [reflexivity|].
  rewrite (agree_on_peekUint16 b1 b2 off (off + 2) off H) by lia. reflexivity.
Qed.

Lemma agree_on_getUint32 (b1 b2 : ArrayBuffer) (off : Z) :
  ab_byteLength b1 = ab_byteLength b2 ->
  agree_on b1 b2 off (off + 4) ->
  getUint32 (new_DataView b1) off = getUint32 (new_DataView b2) off.
Proof.
  intros Hlen H. rewrite !getUint32_eq. cbn [byteLength new_DataView]. rewrite <- Hlen.
  destruct ((off <? 0) || (ab_byteLength b1 <? off + 4)); [reflexivity|].
  rewrite (agree_on_peekUint32 b1 b2 off (off + 4) off H) by lia. reflexivity.
Qed.

(** Views of the same range over buffers that agree on it show the same
    bytes. *)
Lemma agree_on_ua_bytes (b1 b2 : ArrayBuffer) (off len : Z) :
  ab_byteLength b1 = ab_byteLength b2 ->
  0 <= off -> 0 <= len -> off + len <= ab_byteLength b1 ->
  agree_on b1 b2 off (off + len) ->
  ua_bytes {| ua_buffer := b1; ua_byteOffset := off; ua_length := len |}
  = ua_bytes {| ua_buffer := b2; ua_byteOffset := off; ua_length := len |}.
Proof.
  unfold ab_byteLength, ua_bytes. cbn [ua_buffer ua_byteOffset ua_length].
  intros Hlen Hoff Hn Hend H.
  apply (nth_ext _ _ x00 x00).
  - rewrite !length_firstn, !length_skipn. lia.
  - intros i Hi. rewrite length_firstn, length_skipn in Hi.
    rewrite !nth_firstn, !nth_skipn.
    destruct (Nat.ltb_spec i (Z.to_nat len)); [|reflexivity].
    specialize (H (off + Z.of_nat i) ltac:(lia)).
    replace (Z.to_nat (off + Z.of_nat i)) with (Z.to_nat off + i)%nat in H by lia.
    exact H.
Qed.

Lemma nth_poke_other (b : ArrayBuffer) (j i : nat) (x : byte) :
  (j < List.length b)%nat -> i <> j -> nth i (poke b j x) x00 = nth i b x00.
Proof.
  intros Hj Hij. unfold poke.
  destruct (Nat.lt_ge_cases i j) as [Hlt|Hge].
  - rewrite app_nth1 by (rewrite length_firstn; lia).
    rewrite nth_firstn. destruct (Nat.ltb_spec i j); [reflexivity | lia].
  - rewrite app_nth2 by (rewrite length_firstn; lia).
    rewrite length_firstn. replace (Nat.min j (List.length b)) with j by lia.
    destruct (i - j)%nat as [|k] eqn:Hk; [lia|]. cbn [nth].
    rewrite nth_skipn. f_equal. lia.
Qed.

Lemma agree_on_poke (b : ArrayBuffer) (j : nat) (x : byte) (lo hi : Z) :
  (j < List.length b)%nat -> 0 <= lo -> (Z.of_nat j < lo \/ hi <= Z.of_nat j) ->
  agree_on b (poke b j x) lo hi.
Proof.
  intros Hj Hlo Hout i Hi. symmetry. apply nth_poke_other; [exact Hj | lia].
Qed.

Lemma agree_on_trans (b1 b2 b3 : ArrayBuffer) (lo hi : Z) :
  agree_on b1 b2 lo hi -> agree_on b2 b3 lo hi -> agree_on b1 b3 lo hi.
Proof. intros H12 H23 i Hi. rewrite (H12 i Hi). apply H23. exact Hi. Qed.

Lemma entry_at_Some (dv : DataView) (o : Z) (f : ZipFileInfo) :
  entry_at dv o = Some f <->
  fst (parseCentralDirectoryEntry o {| dataView := dv; files := [] |}) = Normal f.
Proof.
  unfold entry_at.
  destruct (fst (parseCentralDirectoryEntry o _)); split; congruence.
Qed.

(** A record that two buffers hold alike, the three unread fields apart, is
    accepted in both, moves the cursor alike, and yields entries that
    extraction cannot tell apart. *)
Lemma entry_at_agree (b1 b2 : ArrayBuffer) (o : Z) (f : ZipFileInfo) :
  ab_byteLength b1 = ab_byteLength b2 ->
  record_ok b1 o -> record_agree b1 b2 o ->
  entry_at (new_DataView b1) o = Some f ->
  record_ok b2 o
  /\ cd_next (new_DataView b2) o = cd_next (new_DataView b1) o
  /\ exists g,
       entry_at (new_DataView b2) o = Some g
       /\ same_payload f g
       /\ lastModified f = lastModified g
       /\ (agree_on b1 b2 (o + 8) (o + 10) -> encrypted f = encrypted g)
       /\ (agree_on b1 b2 (o + 16) (o + 20) -> crc32 f = crc32 g)
       /\ (agree_on b1 b2 (o + 24) (o + 28) -> uncompressedSize f = uncompressedSize g).
Proof.
  intros Hlen [Hsig Hin] (Ha & Hb & Hc & Hd) Hf.
  set (dv1 := new_DataView b1) in *. set (dv2 := new_DataView b2) in *.
  pose proof (getUint32_Normal _ _ _ Hsig) as (Ho & _ & _).
  pose proof (peekUint16_range dv1 (o + 28)) as Hfl.
  assert (P16 : forall off, o + 28 <= off -> off + 2 <= o + 46 ->
                            peekUint16 dv1 off = peekUint16 dv2 off).
  { intros off H1 H2. apply (agree_on_peekUint16 b1 b2 _ _ off Hd); lia. }
  assert (Hok2 : record_ok b2 o).
  { split.
    - fold dv2. unfold dv2. rewrite <- (agree_on_getUint32 b1 b2 o Hlen); [exact Hsig|].
      apply (agree_on_sub _ _ _ _ _ _ Ha); lia.
    - fold dv2. rewrite <- P16, <- Hlen by lia. exact Hin. }
  split; [exact Hok2|]. split.
  { unfold cd_next. rewrite <- !P16 by lia. reflexivity. }
  destruct (parseCentralDirectoryEntry_in_range o {| dataView := dv2; files := [] |})
    as [g Hg]; [reflexivity | reflexivity | exact Ho | exact (proj2 Hok2) |].
  apply (f_equal fst) in Hg. cbn [fst] in Hg.
  exists g. split; [apply entry_at_Some; exact Hg|].
  apply entry_at_Some in Hf.
  pose proof (parseCentralDirectoryEntry_Normal o _ f Hf)
    as (_ & _ & Fn & Fe & Fcs & Fus & Fcm & Fcrc & Flm & Foff).
  pose proof (parseCentralDirectoryEntry_Normal o _ g Hg)
    as (_ & _ & Gn & Ge & Gcs & Gus & Gcm & Gcrc & Glm & Goff).
  cbn [dataView] in *. fold dv1 in Fn, Fe, Fcs, Fus, Fcm, Fcrc, Flm, Foff.
  fold dv2 in Gn, Ge, Gcs, Gus, Gcm, Gcrc, Glm, Goff.
  repeat split.
  - rewrite Fn, Gn. unfold TextDecoder_decode. cbn [buffer byteOffset dv1 dv2 new_DataView].
    rewrite <- P16 by lia.
    rewrite (agree_on_ua_bytes b1 b2 (0 + o + 46) (peekUint16 dv1 (o + 28)) Hlen);
      [reflexivity | lia | lia | lia |].
    apply (agree_on_sub _ _ _ _ _ _ Hd); lia.
  - rewrite Foff, Goff. apply (agree_on_peekUint32 b1 b2 _ _ _ Hd); lia.
  - rewrite Fcs, Gcs. apply (agree_on_peekUint32 b1 b2 _ _ _ Hc); lia.
  - rewrite Fcm, Gcm. apply (agree_on_peekUint16 b1 b2 _ _ _ Hb); lia.
  - rewrite Flm, Glm. f_equal; apply (agree_on_peekUint16 b1 b2 _ _ _ Hb); lia.
  - intros H. rewrite Fe, Ge. do 3 f_equal.
    apply (agree_on_peekUint16 b1 b2 _ _ _ H); lia.
  - intros H. rewrite Fcrc, Gcrc. apply (agree_on_peekUint32 b1 b2 _ _ _ H); lia.
  - intros H. rewrite Fus, Gus. apply (agree_on_peekUint32 b1 b2 _ _ _ H); lia.
Qed.

(** The walk over two buffers whose records correspond. *)
Section Simulation.

Variables b1 b2 : ArrayBuffer.
Variable R : ZipFileInfo -> ZipFileInfo -> Prop.
Variable P : Z -> Prop.

Hypothesis record_step :
  forall o f,
    record_ok b1 o -> P o -> entry_at (new_DataView b1) o = Some f ->
    record_ok b2 o
    /\ cd_next (new_DataView b2) o = cd_next (new_DataView b1) o
    /\ exists g, entry_at (new_DataView b2) o = Some g /\ R f g.

Lemma parse_loop_simulation (n : nat) :
  forall (o : Z) (fs1 fs2 : list ZipFileInfo),
    (forall i, (i < n)%nat ->
               record_ok b1 (cd_cursor (new_DataView b1) o i)
               /\ P (cd_cursor (new_DataView b1) o i)) ->
    Forall2 R fs1 fs2 ->
    exists fs1' fs2',
      parse_loop n o {| dataView := new_DataView b1; files := fs1 |}
      = (Normal tt, {| dataView := new_DataView b1; files := fs1' |})
      /\ parse_loop n o {| dataView := new_DataView b2; files := fs2 |}
         = (Normal tt, {| dataView := new_DataView b2; files := fs2' |})
      /\ Forall2 R fs1' fs2'.
Proof.
  induction n as [|n IH]; intros o fs1 fs2 Hrec Hfs.
  - exists fs1, fs2. repeat split. exact Hfs.
  - destruct (Hrec O ltac:(lia)) as [Hok1 HP]. cbn [cd_cursor] in Hok1, HP.
    destruct (parse_step_ok b1 o fs1 n Hok1) as (f & Hf & Hstep1).
    destruct (record_step o f Hok1 HP Hf) as (Hok2 & Hnext & g & Hg & Hfg).
    destruct (parse_step_ok b2 o fs2 n Hok2) as (g' & Hg' & Hstep2).
    rewrite Hg in Hg'. injection Hg' as <-.
    destruct (IH (cd_next (new_DataView b1) o) (fs1 ++ [f]) (fs2 ++ [g]))
      as (fs1' & fs2' & Hrun1 & Hrun2 & Hrel).
    + intros i Hi. rewrite <- cd_cursor_shift. apply Hrec. lia.
    + apply Forall2_app; [exact Hfs|]. constructor; [exact Hfg | constructor].
    + exists fs1', fs2'. rewrite Hstep1, Hstep2, Hnext. repeat split; assumption.
Qed.

End Simulation.

(** The trailer is found at the same offset in a buffer that holds the same
    bytes from there on. *)
Lemma findEOCD_agree (b1 b2 : ArrayBuffer) (e : Z) :
  ab_byteLength b1 = ab_byteLength b2 ->
  findEOCD (fresh_reader b1) = (Normal e, fresh_reader b1) -> e <> -1 ->
  agree_on b1 b2 e (ab_byteLength b1) ->
  findEOCD (fresh_reader b2) = (Normal e, fresh_reader b2).
Proof.
  intros Hlen Hrun1 Hne Hagree.
  destruct (findEOCD_spec (fresh_reader b1)) as (e1 & Hr1 & Hc1).
  rewrite Hrun1 in Hr1. injection Hr1 as He. subst e1.
  destruct Hc1 as [(He & _)|(Hw1 & Hsig1 & Habove1)]; [contradiction|].
  destruct (findEOCD_spec (fresh_reader b2)) as (e2 & Hr2 & Hc2).
  cbn [dataView fresh_reader] in *.
  unfold eocd_window in *. cbn [byteLength new_DataView] in *.
  assert (Hsame : forall j, e <= j <= ab_byteLength b1 - 22 ->
                            getUint32 (new_DataView b1) j = getUint32 (new_DataView b2) j).
  { intros j Hj. apply (agree_on_getUint32 b1 b2 j Hlen).
    apply (agree_on_sub _ _ _ _ _ _ Hagree); lia. }
  rewrite Hr2. f_equal. f_equal.
  destruct Hc2 as [(-> & Hnone)|(Hw2 & Hsig2 & Habove2)].
  - exfalso. apply (Hnone e); [lia|]. rewrite <- Hsame by lia. exact Hsig1.
  - destruct (Z.lt_trichotomy e2 e) as [Hlt|[Heq|Hgt]]; [|exact Heq|].
    + exfalso. apply (Habove2 e); [lia|]. rewrite <- Hsame by lia. exact Hsig1.
    + exfalso. apply (Habove1 e2); [lia|]. rewrite Hsame by lia. exact Hsig2.
Qed.

(** What the constructor returns, in terms of the records. *)
Lemma new_ZipReader_Normal (b : ArrayBuffer) (e : Z) (r : ZipReader) :
  findEOCD (fresh_reader b) = (Normal e, fresh_reader b) -> e <> -1 ->
  new_ZipReader b = Normal r ->
  let dv := new_DataView b in
  let n := Z.to_nat (peekUint16 dv (e + 10)) in
  let start := peekUint32 dv (e + 16) in
  dataView r = dv
  /\ parse_loop n start (fresh_reader b) = (Normal tt, r)
  /\ forall i, (i < n)%nat ->
               record_ok b (cd_cursor dv start i)
               /\ nth_error (files r) i = entry_at dv (cd_cursor dv start i).
Proof.
  intros Hfind Hne Hr dv n start.
  destruct (parse_with_trailer _ _ Hfind Hne) as [_ Hparse].
  cbn [dataView fresh_reader] in Hparse. fold dv n start in Hparse.
  unfold new_ZipReader in Hr. fold (fresh_reader b) in Hr. rewrite Hparse in Hr.
  destruct (parse_loop n start (fresh_reader b)) as [[[]|ex] this'] eqn:Hrun; [|discriminate].
  injection Hr as ->.
  pose proof (parse_loop_Normal b n start [] r Hrun) as Hok.
  destruct (parse_loop_ok b n start [] Hok) as (fs & Hrun' & _ & Hnth).
  unfold fresh_reader in Hrun. rewrite Hrun in Hrun'. injection Hrun' as ->.
  split; [reflexivity|]. split; [reflexivity|].
  intros i Hi. split; [apply Hok; exact Hi | apply Hnth; exact Hi].
Qed.

(** Construction over two buffers that hold the same trailer and
    corresponding records. *)
Lemma construct_simulation (b1 b2 : ArrayBuffer)
      (R : ZipFileInfo -> ZipFileInfo -> Prop) (P : Z -> Prop) (e : Z) (r1 : ZipReader) :
  (forall o f,
      record_ok b1 o -> P o -> entry_at (new_DataView b1) o = Some f ->
      record_ok b2 o
      /\ cd_next (new_DataView b2) o = cd_next (new_DataView b1) o
      /\ exists g, entry_at (new_DataView b2) o = Some g /\ R f g) ->
  ab_byteLength b1 = ab_byteLength b2 ->
  findEOCD (fresh_reader b1) = (Normal e, fresh_reader b1) -> e <> -1 ->
  agree_on b1 b2 e (ab_byteLength b1) ->
  new_ZipReader b1 = Normal r1 ->
  (forall i, (i < Z.to_nat (peekUint16 (new_DataView b1) (e + 10)))%nat ->
             P (cd_cursor (new_DataView b1) (peekUint32 (new_DataView b1) (e + 16)) i)) ->
  exists r2,
    new_ZipReader b2 = Normal r2
    /\ dataView r1 = new_DataView b1
    /\ dataView r2 = new_DataView b2
    /\ Forall2 R (files r1) (files r2).
Proof.
  intros Hstep Hlen Hfind Hne Hagree Hr1 HP.
  destruct (new_ZipReader_Normal b1 e r1 Hfind Hne Hr1) as (Hdv1 & Hrun1 & Hrec).
  pose proof (findEOCD_agree b1 b2 e Hlen Hfind Hne Hagree) as Hfind2.
  destruct (parse_with_trailer _ _ Hfind Hne) as [Hw _].
  destruct (parse_with_trailer _ _ Hfind2 Hne) as [_ Hparse2].
  unfold eocd_window in Hw. cbn [dataView fresh_reader byteLength new_DataView] in Hw, Hparse2.
  rewrite <- (agree_on_peekUint16 b1 b2 _ _ (e + 10) Hagree) in Hparse2 by lia.
  rewrite <- (agree_on_peekUint32 b1 b2 _ _ (e + 16) Hagree) in Hparse2 by lia.
  destruct (parse_loop_simulation b1 b2 R P Hstep
              (Z.to_nat (peekUint16 (new_DataView b1) (e + 10)))
              (peekUint32 (new_DataView b1) (e + 16)) [] [])
    as (fs1 & fs2 & H1 & H2 & Hrel).
  - intros i Hi. split; [apply Hrec; exact Hi | apply HP; exact Hi].
  - constructor.
  - exists {| dataView := new_DataView b2; files := fs2 |}.
    unfold fresh_reader in Hrun1. rewrite H1 in Hrun1. injection Hrun1 as <-.
    split; [|repeat split; exact Hrel].
    unfold new_ZipReader. fold (fresh_reader b2). rewrite Hparse2.
    unfold fresh_reader. rewrite H2. reflexivity.
Qed.

(** Extraction over two buffers that hold the same bytes where it reads gives
    the same observable result. *)
Lemma extractFile_agree (b1 b2 : ArrayBuffer) (r1 r2 : ZipReader) (name : JSString) :
  ab_byteLength b1 = ab_byteLength b2 ->
  dataView r1 = new_DataView b1 -> dataView r2 = new_DataView b2 ->
  Forall2 same_payload (files r1) (files r2) ->
  (forall f, lookup name (files r1) = Some f -> payload_agree b1 b2 f) ->
  observable (fst (extractFile name r1)) = observable (fst (extractFile name r2)).
Proof.
  intros Hlen Hdv1 Hdv2 Hfs Hpay.
  destruct (lookup_Forall2 same_payload name (files r1) (files r2))
    as [(H1 & H2)|(f & g & H1 & H2 & (_ & Hoff & Hcs & Hcm))].
  - intros f g (Hn & _). exact Hn.
  - exact Hfs.
  - rewrite (extractFile_not_found _ _ H1), (extractFile_not_found _ _ H2). reflexivity.
  - destruct (Hpay f H1) as (Hsig & Hlens & Hdata).
    rewrite (extractFile_found_eq name r1 f H1), (extractFile_found_eq name r2 g H2).
    rewrite Hdv1, Hdv2, <- Hoff, <- Hcs, <- Hcm.
    rewrite <- (agree_on_getUint32 b1 b2 (offset f) Hlen Hsig).
    destruct (getUint32 (new_DataView b1) (offset f)) as [s|e] eqn:Es; [|reflexivity].
    destruct (negb (s =? LOCAL_FILE_HEADER_SIGNATURE)); [reflexivity|].
    rewrite <- (agree_on_getUint16 b1 b2 (offset f + 26) Hlen)
      by (apply (agree_on_sub _ _ _ _ _ _ Hlens); lia).
    destruct (getUint16 (new_DataView b1) (offset f + 26)) as [fl|e] eqn:Efl; [|reflexivity].
    rewrite <- (agree_on_getUint16 b1 b2 (offset f + 28) Hlen)
      by (apply (agree_on_sub _ _ _ _ _ _ Hlens); lia).
    destruct (getUint16 (new_DataView b1) (offset f + 28)) as [el|e] eqn:Eel; [|reflexivity].
    apply getUint16_Normal in Efl as (_ & _ & ->).
    apply getUint16_Normal in Eel as (_ & _ & ->).
    cbn [buffer byteOffset new_DataView]. rewrite !Z.add_0_l.
    set (start := offset f + 30 + peekUint16 (new_DataView b1) (offset f + 26)
                  + peekUint16 (new_DataView b1) (offset f + 28)) in *.
    unfold new_Uint8Array. rewrite <- Hlen.
    destruct (Z.ltb_spec start 0); [reflexivity|].
    destruct (Z.ltb_spec (compressedSize f) 0); [reflexivity|].
    destruct (Z.ltb_spec (ab_byteLength b1) (start + compressedSize f)); [reflexivity|].
    cbn [orb].
    pose proof (agree_on_ua_bytes b1 b2 start (compressedSize f) Hlen
                  ltac:(lia) ltac:(lia) ltac:(lia) Hdata) as Hbytes.
    destruct (compressionMethod f =? 0); [cbn; rewrite Hbytes; reflexivity|].
    destruct (compressionMethod f =? 8); [cbn; rewrite Hbytes; reflexivity|].
    reflexivity.
Qed.

Lemma new_ZipReader_nth (b : ArrayBuffer) (e : Z) (r : ZipReader) (i : nat) (f : ZipFileInfo) :
  findEOCD (fresh_reader b) = (Normal e, fresh_reader b) -> e <> -1 ->
  new_ZipReader b = Normal r ->
  nth_error (files r) i = Some f ->
  (i < Z.to_nat (peekUint16 (new_DataView b) (e + 10)))%nat
  /\ entry_at (new_DataView b)
       (cd_cursor (new_DataView b) (peekUint32 (new_DataView b) (e + 16)) i) = Some f.
Proof.
  intros Hfind Hne Hr Hnth.
  destruct (new_ZipReader_Normal b e r Hfind Hne Hr) as (_ & Hrun & Hrec).
  destruct (parse_loop_ok b _ _ [] (fun i Hi => proj1 (Hrec i Hi)))
    as (fs & Hrun' & Hlen & _).
  unfold fresh_reader in Hrun. rewrite Hrun in Hrun'. injection Hrun' as ->.
  cbn [files app] in Hnth.
  assert (Hi : (i < Z.to_nat (peekUint16 (new_DataView b) (e + 10)))%nat).
  { rewrite <- Hlen. apply nth_error_Some. congruence. }
  split; [exact Hi|]. cbn [files app] in Hrec.
  rewrite <- (proj2 (Hrec i Hi)). exact Hnth.
Qed.

(** C9. The [crc32] of an entry is the 32-bit value at +16 of its directory
    record.  Take an archive that the constructor accepts and a second buffer
    of the same length that holds the same trailer and the same directory
    records but for their checksum fields.  The constructor accepts the
    second as well, the two entry lists differ in [crc32] at most, and for
    every name whose local header and payload are the same in both,
    [extractFile] gives the same exception, the same [null], or streams fed
    with the same bytes through the same transforms. *)
Theorem crc32_not_consulted (b1 b2 : ArrayBuffer) (e : Z) (r1 : ZipReader) :
  ab_byteLength b1 = ab_byteLength b2 ->
  findEOCD (fresh_reader b1) = (Normal e, fresh_reader b1) -> e <> -1 ->
  new_ZipReader b1 = Normal r1 ->
  agree_on b1 b2 e (ab_byteLength b1) ->
  let dv1 := new_DataView b1 in
  let cursor := cd_cursor dv1 (peekUint32 dv1 (e + 16)) in
  (forall i, (i < Z.to_nat (peekUint16 dv1 (e + 10)))%nat ->
             agree_on b1 b2 (cursor i) (cursor i + 16)
             /\ agree_on b1 b2 (cursor i + 20)
                  (cursor i + 46 + peekUint16 dv1 (cursor i + 28))) ->
  exists r2,
    new_ZipReader b2 = Normal r2
    /\ Forall2 differ_in_crc32 (files r1) (files r2)
    /\ (forall i f, nth_error (files r1) i = Some f ->
                    crc32 f = peekUint32 dv1 (cursor i + 16))
    /\ (forall name,
          (forall f, lookup name (files r1) = Some f -> payload_agree b1 b2 f) ->
          observable (fst (extractFile name r1)) = observable (fst (extractFile name r2))).
Proof.
  intros Hlen Hfind Hne Hr1 Htrailer dv1 cursor Hrecords.
  destruct (construct_simulation b1 b2 differ_in_crc32
              (fun o => agree_on b1 b2 o (o + 16)
                        /\ agree_on b1 b2 (o + 20)
                             (o + 46 + peekUint16 (new_DataView b1) (o + 28)))
              e r1) as (r2 & Hr2 & Hdv1 & Hdv2 & Hrel); try assumption.
  - intros o f Hok [Ha Hb] Hf.
    pose proof (peekUint16_range (new_DataView b1) (o + 28)) as Hfl.
    destruct (entry_at_agree b1 b2 o f Hlen Hok)
      as (Hok2 & Hnext & g & Hg & Hsame & Hlm & He & _ & Hu); [|exact Hf|].
    { repeat split;
        [ apply (agree_on_sub _ _ _ _ _ _ Ha) | apply (agree_on_sub _ _ _ _ _ _ Ha)
        | apply (agree_on_sub _ _ _ _ _ _ Hb) | apply (agree_on_sub _ _ _ _ _ _ Hb) ]; lia. }
    split; [exact Hok2|]. split; [exact Hnext|]. exists g. split; [exact Hg|].
    destruct Hsame as (Hn & Hoff & Hcs & Hcm).
    repeat split; try assumption.
    + apply He. apply (agree_on_sub _ _ _ _ _ _ Ha); lia.
    + apply Hu. apply (agree_on_sub _ _ _ _ _ _ Hb); lia.
  - exists r2. split; [exact Hr2|]. split; [exact Hrel|]. split.
    + intros i f Hnth.
      destruct (new_ZipReader_nth b1 e r1 i f Hfind Hne Hr1 Hnth) as (_ & Hf).
      apply entry_at_Some in Hf.
      pose proof (parseCentralDirectoryEntry_Normal _ _ f Hf)
        as (_ & _ & _ & _ & _ & _ & _ & Hcrc & _).
      exact Hcrc.
    + intros name Hpay.
      apply (extractFile_agree b1 b2 r1 r2 name Hlen Hdv1 Hdv2); [|exact Hpay].
      apply (Forall2_impl (R1 := differ_in_crc32)); [|exact Hrel].
      intros f g (Hn & _ & Hcs & _ & Hcm & _ & Hoff). repeat split; assumption.
Qed.

Ltac poke_agrees :=
  apply agree_on_poke;
  [ apply Nat.ltb_lt; vm_compute; reflexivity
  | apply Z.leb_le; vm_compute; reflexivity
  | first [ left; apply Z.ltb_lt; vm_compute; reflexivity
          | right; apply Z.leb_le; vm_compute; reflexivity ] ].

(** [test.zip] against the same archive with another checksum for
    [file1.txt]. *)
Lemma crc32_not_consulted_witness :
  map crc32 (files Fixture.test_reader) = [3035143812; 3666065502; 3380848603]
  /\ map crc32 (files Fixture.crc_reader) = [3035143680; 3666065502; 3380848603]
  /\ observable (fst (extractFile (js "file1.txt") Fixture.test_reader))
     = observable (fst (extractFile (js "file1.txt") Fixture.crc_reader)).
Proof.
  split; [vm_compute; reflexivity|]. split; [vm_compute; reflexivity|].
  destruct (crc32_not_consulted TestData.test_zip Fixture.crc_zip 489 Fixture.test_reader)
    as (r2 & Hr2 & _ & _ & Hsame).
  - vm_compute. reflexivity.
  - vm_compute. reflexivity.
  - discriminate.
  - vm_compute. reflexivity.
  - unfold Fixture.crc_zip. poke_agrees.
  - intros i Hi. unfold Fixture.crc_zip.
    destruct i as [|[|[|i]]]; [| | |vm_compute in Hi; lia]; split; poke_agrees.
  - assert (Hr : new_ZipReader Fixture.crc_zip = Normal Fixture.crc_reader)
      by (vm_compute; reflexivity).
    rewrite Hr in Hr2. apply Normal_inj in Hr2. subst r2.
    apply Hsame. intros f Hf.
    assert (Hoff : offset f = 0 /\ compressedSize f = 14).
    { vm_compute in Hf. injection Hf as <-. split; reflexivity. }
    destruct Hoff as [Hoff Hcs]. unfold payload_agree. rewrite Hoff, Hcs.
    unfold Fixture.crc_zip. cbv zeta. split; [|split]; poke_agrees.
Defined.

(** C9 as the specification states it fails.  The two archives are accepted,
    they differ in one byte only, the low byte of the checksum field of the
    one directory record, and their entries differ in [crc32] only; yet the
    stored entry [a] is extracted as 46 bytes that differ, because the
    payload it declares is the stretch of the buffer that holds the
    checksum. *)
Lemma crc32_within_payload_is_extracted :
  List.length Fixture.overlap_zip = List.length Fixture.overlap_crc_zip
  /\ agree_on Fixture.overlap_zip Fixture.overlap_crc_zip 0 47
  /\ agree_on Fixture.overlap_zip Fixture.overlap_crc_zip 48 100
  /\ new_ZipReader Fixture.overlap_zip = Normal Fixture.overlap_reader
  /\ new_ZipReader Fixture.overlap_crc_zip = Normal Fixture.overlap_crc_reader
  /\ Forall2 differ_in_crc32 (files Fixture.overlap_reader) (files Fixture.overlap_crc_reader)
  /\ map crc32 (files Fixture.overlap_reader) = [0]
  /\ map crc32 (files Fixture.overlap_crc_reader) = [1]
  /\ map offset (files Fixture.overlap_reader) = [0]
  /\ map compressedSize (files Fixture.overlap_reader) = [46]
  /\ extractFile (js "a") Fixture.overlap_reader
     = (Normal (Some (enqueue_close
                        {| ua_buffer := Fixture.overlap_zip;
                           ua_byteOffset := 31;
                           ua_length := 46 |})),
        Fixture.overlap_reader)
  /\ extractFile (js "a") Fixture.overlap_crc_reader
     = (Normal (Some (enqueue_close
                        {| ua_buffer := Fixture.overlap_crc_zip;
                           ua_byteOffset := 31;
                           ua_length := 46 |})),
        Fixture.overlap_crc_reader)
  /\ nth 16 (ua_bytes {| ua_buffer := Fixture.overlap_zip;
                         ua_byteOffset := 31; ua_length := 46 |}) x00 = x00
  /\ nth 16 (ua_bytes {| ua_buffer := Fixture.overlap_crc_zip;
                         ua_byteOffset := 31; ua_length := 46 |}) x00 = x01
  /\ observable (fst (extractFile (js "a") Fixture.overlap_reader))
     <> observable (fst (extractFile (js "a") Fixture.overlap_crc_reader)).
Proof.
  split; [vm_compute; reflexivity|].
  split; [unfold Fixture.overlap_crc_zip; poke_agrees|].
  split; [unfold Fixture.overlap_crc_zip; poke_agrees|].
  split; [vm_compute; reflexivity|].
  split; [vm_compute; reflexivity|].
  split.
  { eassert (H1 : files Fixture.overlap_reader = [_]) by (vm_compute; reflexivity).
    eassert (H2 : files Fixture.overlap_crc_reader = [_]) by (vm_compute; reflexivity).
    rewrite H1, H2. constructor; [|constructor].
    unfold differ_in_crc32.
    cbn [filename encrypted compressedSize uncompressedSize compressionMethod
         lastModified offset].
    split; [reflexivity|]. split; [reflexivity|]. split; [reflexivity|].
    split; [reflexivity|]. split; [reflexivity|]. split; reflexivity. }
  split; [vm_compute; reflexivity|].
  split; [vm_compute; reflexivity|].
  split; [vm_compute; reflexivity|].
  split; [vm_compute; reflexivity|].
  split; [vm_compute; reflexivity|].
  split; [vm_compute; reflexivity|].
  split; [vm_compute; reflexivity|].
  split; [vm_compute; reflexivity|].
  vm_compute. discriminate.
Qed.

Lemma agree_on_sym (b1 b2 : ArrayBuffer) (lo hi : Z) :
  agree_on b1 b2 lo hi -> agree_on b2 b1 lo hi.
Proof. intros H i Hi. symmetry. apply H. exact Hi. Qed.

(** C3, as the code has it.  The [encrypted] flag of an entry is bit 0 of the
    general-purpose word at +8 of its directory record, and extraction does
    not read it.  Take an archive that the constructor accepts and a second
    buffer of the same length that holds the same trailer and the same
    directory records but for their general-purpose words.  The constructor
    accepts the second as well, the two entry lists differ in [encrypted] at
    most, and for every name whose local header signature, local lengths and
    payload are the same in both, [extractFile] gives the same exception, the
    same [null], or streams fed with the same bytes through the same
    transforms: an entry flagged as encrypted is extracted as the same entry
    without the flag is. *)
Theorem encrypted_not_consulted (b1 b2 : ArrayBuffer) (e : Z) (r1 : ZipReader) :
  ab_byteLength b1 = ab_byteLength b2 ->
  findEOCD (fresh_reader b1) = (Normal e, fresh_reader b1) -> e <> -1 ->
  new_ZipReader b1 = Normal r1 ->
  agree_on b1 b2 e (ab_byteLength b1) ->
  let dv1 := new_DataView b1 in
  let cursor := cd_cursor dv1 (peekUint32 dv1 (e + 16)) in
  (forall i, (i < Z.to_nat (peekUint16 dv1 (e + 10)))%nat ->
             agree_on b1 b2 (cursor i) (cursor i + 8)
             /\ agree_on b1 b2 (cursor i + 10)
                  (cursor i + 46 + peekUint16 dv1 (cursor i + 28))) ->
  exists r2,
    new_ZipReader b2 = Normal r2
    /\ Forall2 differ_in_encrypted (files r1) (files r2)
    /\ (forall i f, nth_error (files r1) i = Some f ->
                    encrypted f = Z.testbit (peekUint16 dv1 (cursor i + 8)) 0)
    /\ (forall name,
          (forall f, lookup name (files r1) = Some f -> payload_agree b1 b2 f) ->
          observable (fst (extractFile name r1)) = observable (fst (extractFile name r2))).
Proof.
  intros Hlen Hfind Hne Hr1 Htrailer dv1 cursor Hrecords.
  destruct (construct_simulation b1 b2 differ_in_encrypted
              (fun o => agree_on b1 b2 o (o + 8)
                        /\ agree_on b1 b2 (o + 10)
                             (o + 46 + peekUint16 (new_DataView b1) (o + 28)))
              e r1) as (r2 & Hr2 & Hdv1 & Hdv2 & Hrel); try assumption.
  - intros o f Hok [Ha Hb] Hf.
    pose proof (peekUint16_range (new_DataView b1) (o + 28)) as Hfl.
    destruct (entry_at_agree b1 b2 o f Hlen Hok)
      as (Hok2 & Hnext & g & Hg & Hsame & Hlm & _ & Hc & Hu); [|exact Hf|].
    { repeat split;
        [ exact Ha | apply (agree_on_sub _ _ _ _ _ _ Hb)
        | apply (agree_on_sub _ _ _ _ _ _ Hb) | apply (agree_on_sub _ _ _ _ _ _ Hb) ]; lia. }
    split; [exact Hok2|]. split; [exact Hnext|]. exists g. split; [exact Hg|].
    destruct Hsame as (Hn & Hoff & Hcs & Hcm).
    repeat split; try assumption.
    + apply Hu. apply (agree_on_sub _ _ _ _ _ _ Hb); lia.
    + apply Hc. apply (agree_on_sub _ _ _ _ _ _ Hb); lia.
  - exists r2. split; [exact Hr2|]. split; [exact Hrel|]. split.
    + intros i f Hnth.
      destruct (new_ZipReader_nth b1 e r1 i f Hfind Hne Hr1 Hnth) as (_ & Hf).
      apply entry_at_Some in Hf.
      exact (encrypted_bit0 _ _ f Hf).
    + intros name Hpay.
      apply (extractFile_agree b1 b2 r1 r2 name Hlen Hdv1 Hdv2); [|exact Hpay].
      apply (Forall2_impl (R1 := differ_in_encrypted)); [|exact Hrel].
      intros f g (Hn & Hcs & _ & Hcm & _ & _ & Hoff). repeat split; assumption.
Qed.

Ltac poke2_agrees mid :=
  apply agree_on_sym; apply agree_on_trans with (b2 := mid); poke_agrees.

(** [test.zip] with [file1.txt] flagged as encrypted, against [test.zip]. *)
Lemma encrypted_not_consulted_witness :
  map encrypted (files Fixture.encrypted_reader) = [true; false; false]
  /\ map encrypted (files Fixture.test_reader) = [false; false; false]
  /\ observable (fst (extractFile (js "file1.txt") Fixture.encrypted_reader))
     = observable (fst (extractFile (js "file1.txt") Fixture.test_reader)).
Proof.
  split; [vm_compute; reflexivity|]. split; [vm_compute; reflexivity|].
  destruct (encrypted_not_consulted Fixture.encrypted_zip TestData.test_zip 489
              Fixture.encrypted_reader) as (r2 & Hr2 & _ & _ & Hsame).
  - vm_compute. reflexivity.
  - vm_compute. reflexivity.
  - discriminate.
  - vm_compute. reflexivity.
  - unfold Fixture.encrypted_zip. poke2_agrees (poke TestData.test_zip 6 x01).
  - intros i Hi. unfold Fixture.encrypted_zip.
    destruct i as [|[|[|i]]]; [| | |vm_compute in Hi; lia];
      split; poke2_agrees (poke TestData.test_zip 6 x01).
  - assert (Hr : new_ZipReader TestData.test_zip = Normal Fixture.test_reader)
      by (vm_compute; reflexivity).
    rewrite Hr in Hr2. apply Normal_inj in Hr2. subst r2.
    apply Hsame. intros f Hf.
    assert (Hoff : offset f = 0 /\ compressedSize f = 14).
    { vm_compute in Hf. injection Hf as <-. split; reflexivity. }
    destruct Hoff as [Hoff Hcs]. unfold payload_agree. rewrite Hoff, Hcs.
    unfold Fixture.encrypted_zip. cbv zeta.
    split; [|split]; poke2_agrees (poke TestData.test_zip 6 x01).
Defined.

(** C3 as the specification states it fails: the constructor accepts the
    archive, the entry [file1.txt] is flagged as encrypted, and [extractFile]
    re-reads its local header and returns a stream over its 14 payload bytes
    instead of throwing. *)
Lemma encrypted_entry_is_extracted :
  new_ZipReader Fixture.encrypted_zip = Normal Fixture.encrypted_reader
  /\ option_map encrypted (lookup (js "file1.txt") (files Fixture.encrypted_reader))
     = Some true
  /\ extractFile (js "file1.txt") Fixture.encrypted_reader
     = (Normal (Some (enqueue_close
                        {| ua_buffer := Fixture.encrypted_zip;
                           ua_byteOffset := 67;
                           ua_length := 14 |})),
        Fixture.encrypted_reader)
  /\ ua_bytes {| ua_buffer := Fixture.encrypted_zip; ua_byteOffset := 67; ua_length := 14 |}
     = list_byte_of_string "Hello, World!" ++ [x0a]
  /\ (forall e, fst (extractFile (js "file1.txt") Fixture.encrypted_reader) <> Throw e).
Proof.
  repeat split; try (vm_compute; reflexivity).
  intros e. vm_compute. discriminate.
Qed.

(** The uncompressed size declared in a directory record is stored in the
    entry and read by nothing else: archives that differ in those fields only
    are constructed alike and extracted alike. *)
Theorem uncompressedSize_not_consulted (b1 b2 : ArrayBuffer) (e : Z) (r1 : ZipReader) :
  ab_byteLength b1 = ab_byteLength b2 ->
  findEOCD (fresh_reader b1) = (Normal e, fresh_reader b1) -> e <> -1 ->
  new_ZipReader b1 = Normal r1 ->
  agree_on b1 b2 e (ab_byteLength b1) ->
  let dv1 := new_DataView b1 in
  let cursor := cd_cursor dv1 (peekUint32 dv1 (e + 16)) in
  (forall i, (i < Z.to_nat (peekUint16 dv1 (e + 10)))%nat ->
             agree_on b1 b2 (cursor i) (cursor i + 24)
             /\ agree_on b1 b2 (cursor i + 28)
                  (cursor i + 46 + peekUint16 dv1 (cursor i + 28))) ->
  exists r2,
    new_ZipReader b2 = Normal r2
    /\ Forall2 differ_in_uncompressedSize (files r1) (files r2)
    /\ (forall name,
          (forall f, lookup name (files r1) = Some f -> payload_agree b1 b2 f) ->
          observable (fst (extractFile name r1)) = observable (fst (extractFile name r2))).
Proof.
  intros Hlen Hfind Hne Hr1 Htrailer dv1 cursor Hrecords.
  destruct (construct_simulation b1 b2 differ_in_uncompressedSize
              (fun o => agree_on b1 b2 o (o + 24)
                        /\ agree_on b1 b2 (o + 28)
                             (o + 46 + peekUint16 (new_DataView b1) (o + 28)))
              e r1) as (r2 & Hr2 & Hdv1 & Hdv2 & Hrel); try assumption.
  - intros o f Hok [Ha Hb] Hf.
    destruct (entry_at_agree b1 b2 o f Hlen Hok)
      as (Hok2 & Hnext & g & Hg & Hsame & Hlm & He & Hc & _); [|exact Hf|].
    { repeat split;
        [ apply (agree_on_sub _ _ _ _ _ _ Ha) | apply (agree_on_sub _ _ _ _ _ _ Ha)
        | apply (agree_on_sub _ _ _ _ _ _ Ha) | exact Hb ]; lia. }
    split; [exact Hok2|]. split; [exact Hnext|]. exists g. split; [exact Hg|].
    destruct Hsame as (Hn & Hoff & Hcs & Hcm).
    repeat split; try assumption.
    + apply He. apply (agree_on_sub _ _ _ _ _ _ Ha); lia.
    + apply Hc. apply (agree_on_sub _ _ _ _ _ _ Ha); lia.
  - exists r2. split; [exact Hr2|]. split; [exact Hrel|].
    intros name Hpay.
    apply (extractFile_agree b1 b2 r1 r2 name Hlen Hdv1 Hdv2); [|exact Hpay].
    apply (Forall2_impl (R1 := differ_in_uncompressedSize)); [|exact Hrel].
    intros f g (Hn & _ & Hcs & Hcm & _ & _ & Hoff). repeat split; assumption.
Qed.

(** ** The test suite *)

Example test_zip_constructed :
  new_ZipReader TestData.test_zip = Normal Fixture.test_reader.
Proof. vm_compute. reflexivity. Qed.

Example fixtures_constructed :
  new_ZipReader Fixture.encrypted_zip = Normal Fixture.encrypted_reader
  /\ new_ZipReader Fixture.bzip2_zip = Normal Fixture.bzip2_reader
  /\ new_ZipReader Fixture.size_mismatch_zip = Normal Fixture.size_mismatch_reader
  /\ new_ZipReader Fixture.duplicate_zip = Normal Fixture.duplicate_reader
  /\ new_ZipReader Fixture.crc_zip = Normal Fixture.crc_reader
  /\ new_ZipReader Fixture.bad_local_zip = Normal Fixture.bad_local_reader.
Proof. repeat split; vm_compute; reflexivity. Qed.

Example test_zip_file_list :
  map filename (files Fixture.test_reader)
  = [js "file1.txt"; js "file2.txt"; js "file3.txt"].
Proof. vm_compute. reflexivity. Qed.

Example test_zip_file1_content :
  option_map (fun s => TextDecoder_decode (stream_source s))
    match fst (extractFile (js "file1.txt") Fixture.test_reader) with
    | Normal s => s
    | Throw _ => None
    end
  = Some (js "Hello, World!" ++ [10]).
Proof. vm_compute. reflexivity. Qed.

Example test_zip_file2_content :
  option_map (fun s => TextDecoder_decode (stream_source s))
    match fst (extractFile (js "file2.txt") Fixture.test_reader) with
    | Normal s => s
    | Throw _ => None
    end
  = Some (js "This is a test file." ++ [10]).
Proof. vm_compute. reflexivity. Qed.

Example test_zip_file3_stream :
  fst (extractFile (js "file3.txt") Fixture.test_reader)
  = Normal (Some (pipeThrough
                    (enqueue_close {| ua_buffer := TestData.test_zip;
                                      ua_byteOffset := 236;
                                      ua_length := 16 |})
                    (DecompressionStream "deflate-raw"))).
Proof. vm_compute. reflexivity. Qed.

Example test_zip_nonexistent :
  fst (extractFile (js "nonexistent.txt") Fixture.test_reader) = Normal None.
Proof. vm_compute. reflexivity. Qed.

Example test_zip_metadata :
  map (fun f => (encrypted f, uncompressedSize f, compressionMethod f))
    (files Fixture.test_reader)
  = [(false, 14, 0); (false, 21, 0); (false, 21, 8)].
Proof. vm_compute. reflexivity. Qed.

Example test_nested_file_list :
  map filename (files (Fixture.reader_of TestData.test_nested_zip))
  = [js "subdir/"; js "subdir/nested.txt"].
Proof. vm_compute. reflexivity. Qed.

Example test_nested_content :
  option_map (fun s => TextDecoder_decode (stream_source s))
    match fst (extractFile (js "subdir/nested.txt")
                 (Fixture.reader_of TestData.test_nested_zip)) with
    | Normal s => s
    | Throw _ => None
    end
  = Some (js "Nested file content" ++ [10]).
Proof. vm_compute. reflexivity. Qed.

Example decode_utf8 :
  let decode bs := TextDecoder_decode
                     {| ua_buffer := bs; ua_byteOffset := 0;
                        ua_length := Z.of_nat (List.length bs) |} in
  decode [x63; xc3; xa9] = [99; 233]
  /\ decode [xf0; x9f; x98; x80] = [55357; 56832]
  /\ decode [x61; xff; x62] = [97; 65533; 98]
  /\ decode [xe2; x82] = [65533]
  /\ decode [xef; xbb; xbf; x61] = [97].
Proof. repeat split; vm_compute; reflexivity. Qed.

Example damaged_directory_record :
  new_ZipReader Fixture.bad_directory_zip
  = Throw (Error "Invalid central directory signature").
Proof. vm_compute. reflexivity. Qed.

Example damaged_local_header :
  map (fun name => fst (extractFile name Fixture.bad_local_reader))
      [js "file1.txt"; js "file2.txt"; js "file1.txt"]
  = [Throw (Error "Invalid local file header signature");
     Normal (Some (enqueue_close {| ua_buffer := Fixture.bad_local_zip;
                                    ua_byteOffset := 148;
                                    ua_length := 21 |}));
     Throw (Error "Invalid local file header signature")].
Proof. vm_compute. reflexivity. Qed.

(** ** Why construction fails *)

Lemma cd_next_nonneg (dv : DataView) (o : Z) : 0 <= o -> 0 <= cd_next dv o.
Proof.
  intros Ho. unfold cd_next.
  pose proof (peekUint16_range dv (o + 28)). pose proof (peekUint16_range dv (o + 30)).
  pose proof (peekUint16_range dv (o + 32)). lia.
Qed.

Lemma cd_cursor_nonneg (dv : DataView) (start : Z) (i : nat) :
  0 <= start -> 0 <= cd_cursor dv start i.
Proof.
  intros Hs. induction i as [|i IH]; [exact Hs|].
  cbn [cd_cursor]. apply cd_next_nonneg. exact IH.
Qed.

(** What an iteration throws at a record that the walk does not accept. *)
Lemma parse_step_failure (b : ArrayBuffer) (o : Z) (fs : list ZipFileInfo) (n : nat) :
  let dv := new_DataView b in
  let this := {| dataView := dv; files := fs |} in
  0 <= o -> ~ record_ok b o ->
  (exists s, getUint32 dv o = Normal s /\ s <> CENTRAL_DIRECTORY_SIGNATURE
             /\ parse_loop (S n) o this
                = (Throw (Error "Invalid central directory signature"), this))
  \/ ((ab_byteLength b < o + 4
       \/ (getUint32 dv o = Normal CENTRAL_DIRECTORY_SIGNATURE
           /\ ab_byteLength b < o + 46 + peekUint16 dv (o + 28)))
      /\ parse_loop (S n) o this = (Throw RangeError, this)).
Proof.
  intros dv this Ho Hbad.
  destruct (getUint32 dv o) as [s|e] eqn:Hs.
  - destruct (Z.eq_dec s CENTRAL_DIRECTORY_SIGNATURE) as [->|Hne].
    + right.
      assert (Hover : ab_byteLength b < o + 46 + peekUint16 dv (o + 28)).
      { destruct (Z_lt_le_dec (ab_byteLength b) (o + 46 + peekUint16 dv (o + 28)))
          as [H|H]; [exact H|]. exfalso. apply Hbad. split; assumption. }
      split; [right; split; [reflexivity | exact Hover]|].
      cbn [parse_loop]. rewrite bind_this_dataView. cbn [dataView this].
      rewrite bind_lift, Hs, Z.eqb_refl. cbn [negb].
      destruct (parseCentralDirectoryEntry_state o this) as [Hst Hthrow].
      destruct (fst (parseCentralDirectoryEntry o this)) as [f|e] eqn:Hf.
      * exfalso. apply Hbad. split; [exact Hs|].
        pose proof (parseCentralDirectoryEntry_Normal o this f Hf) as (_ & H & _).
        exact H.
      * rewrite (Hthrow e eq_refl) in Hf. apply bind_Throw. rewrite Hst.
        rewrite Hst in Hf. cbn [fst] in Hf. rewrite Hf. reflexivity.
    + left. exists s. split; [reflexivity|]. split; [exact Hne|].
      apply parse_step_bad_signature with (s := s); assumption.
  - right. split.
    + left. rewrite getUint32_eq in Hs. cbn [byteLength dv new_DataView] in Hs.
      destruct (Z.ltb_spec o 0); [lia|].
      destruct (Z.ltb_spec (ab_byteLength b) (o + 4)); [assumption | discriminate].
    + rewrite (getUint32_Throw _ _ _ Hs) in Hs.
      cbn [parse_loop]. rewrite bind_this_dataView. cbn [dataView this].
      rewrite bind_lift, Hs. reflexivity.
Qed.

(** The walk over a run of accepted records. *)
Lemma parse_loop_prefix (b : ArrayBuffer) (i : nat) :
  forall (n : nat) (o : Z) (fs : list ZipFileInfo),
    (i <= n)%nat ->
    (forall j, (j < i)%nat -> record_ok b (cd_cursor (new_DataView b) o j)) ->
    exists fs',
      parse_loop n o {| dataView := new_DataView b; files := fs |}
      = parse_loop (n - i) (cd_cursor (new_DataView b) o i)
          {| dataView := new_DataView b; files := fs ++ fs' |}
      /\ List.length fs' = i.
Proof.
  induction i as [|i IH]; intros n o fs Hi Hok.
  - exists []. rewrite app_nil_r, Nat.sub_0_r. split; reflexivity.
  - destruct n as [|n]; [lia|].
    destruct (parse_step_ok b o fs n) as (f & _ & Hstep); [apply (Hok O); lia|].
    destruct (IH n (cd_next (new_DataView b) o) (fs ++ [f])) as (fs' & Hrun & Hlen).
    + lia.
    + intros j Hj. rewrite <- cd_cursor_shift. apply Hok. lia.
    + exists (f :: fs'). rewrite Hstep, Hrun, <- app_assoc, <- cd_cursor_shift.
      split; [reflexivity | cbn; lia].
Qed.

(** A walk that throws has met a first record that it does not accept. *)
Lemma parse_loop_first_bad (b : ArrayBuffer) (n : nat) :
  forall (o : Z) (fs : list ZipFileInfo) (ex : Exn) (this' : ZipReader),
    parse_loop n o {| dataView := new_DataView b; files := fs |} = (Throw ex, this') ->
    exists i,
      (i < n)%nat
      /\ (forall j, (j < i)%nat -> record_ok b (cd_cursor (new_DataView b) o j))
      /\ ~ record_ok b (cd_cursor (new_DataView b) o i).
Proof.
  induction n as [|n IH]; intros o fs ex this' Hrun; [discriminate|].
  destruct (record_ok_dec b o) as [Hok|Hbad].
  - destruct (parse_step_ok b o fs n Hok) as (f & _ & Hstep).
    rewrite Hstep in Hrun. destruct (IH _ _ _ _ Hrun) as (i & Hi & Hpre & Hi_bad).
    exists (S i). split; [lia|]. split.
    + intros [|j] Hj; [exact Hok|]. rewrite cd_cursor_shift. apply Hpre. lia.
    + rewrite cd_cursor_shift. exact Hi_bad.
  - exists O. split; [lia|]. split; [intros j Hj; lia | exact Hbad].
Qed.

(** The trailer search of the constructor either ends the construction or
    hands a trailer offset inside the window to the walk. *)
Lemma new_ZipReader_trailer (b : ArrayBuffer) :
  (new_ZipReader b = Throw (Error "Not a valid ZIP file: EOCD not found")
   /\ findEOCD (fresh_reader b) = (Normal (-1), fresh_reader b))
  \/ (exists e,
         findEOCD (fresh_reader b) = (Normal e, fresh_reader b) /\ e <> -1
         /\ eocd_window (new_DataView b) e
         /\ new_ZipReader b
            = match parse_loop (Z.to_nat (peekUint16 (new_DataView b) (e + 10)))
                      (peekUint32 (new_DataView b) (e + 16)) (fresh_reader b) with
              | (Normal _, this') => Normal this'
              | (Throw ex, _) => Throw ex
              end).
Proof.
  destruct (findEOCD_spec (fresh_reader b)) as (e & Hrun & Hc).
  destruct (Z.eq_dec e (-1)) as [->|Hne].
  - left. split; [|exact Hrun]. unfold new_ZipReader. fold (fresh_reader b).
    rewrite (parse_without_trailer _ Hrun). reflexivity.
  - right. exists e. split; [exact Hrun|]. split; [exact Hne|].
    destruct (parse_with_trailer _ _ Hrun Hne) as [Hw Hparse].
    split; [exact Hw|]. unfold new_ZipReader. fold (fresh_reader b).
    rewrite Hparse. reflexivity.
Qed.

(** X1. With a trailer found, the constructor throws exactly when the walk
    meets, after a run of accepted records and before the declared count is
    reached, a record that it does not accept; what it throws tells why: the
    signature error when four bytes are read there and are not the record
    signature, a [RangeError] when the buffer ends before the four bytes, or
    before the end of the fixed part and the name of a record with the right
    signature. *)
Theorem construction_failure (b : ArrayBuffer) (e : Z) (ex : Exn) :
  findEOCD (fresh_reader b) = (Normal e, fresh_reader b) -> e <> -1 ->
  let dv := new_DataView b in
  let declared := Z.to_nat (peekUint16 dv (e + 10)) in
  let cursor := cd_cursor dv (peekUint32 dv (e + 16)) in
  new_ZipReader b = Throw ex <->
  exists i,
    (i < declared)%nat
    /\ (forall j, (j < i)%nat -> record_ok b (cursor j))
    /\ ((ex = Error "Invalid central directory signature"
         /\ exists s, getUint32 dv (cursor i) = Normal s
                      /\ s <> CENTRAL_DIRECTORY_SIGNATURE)
        \/ (ex = RangeError
            /\ (ab_byteLength b < cursor i + 4
                \/ (getUint32 dv (cursor i) = Normal CENTRAL_DIRECTORY_SIGNATURE
                    /\ ab_byteLength b < cursor i + 46 + peekUint16 dv (cursor i + 28))))).
Proof.
  intros Hfind Hne dv declared cursor.
  destruct (new_ZipReader_trailer b) as [(_ & Hnone)|(e' & Hfind' & _ & _ & Hnew)].
  { rewrite Hfind in Hnone. injection Hnone as He. contradiction. }
  rewrite Hfind in Hfind'. injection Hfind' as <-.
  fold dv declared in Hnew. rewrite Hnew. unfold fresh_reader. fold dv.
  assert (Hstart : 0 <= peekUint32 dv (e + 16)) by apply peekUint32_range.
  assert (Hat : forall i, (i < declared)%nat ->
            (forall j, (j < i)%nat -> record_ok b (cursor j)) ->
            ~ record_ok b (cursor i) ->
            exists fs' m,
              parse_loop declared (peekUint32 dv (e + 16)) {| dataView := dv; files := [] |}
              = parse_loop (S m) (cursor i) {| dataView := dv; files := fs' |}).
  { intros i Hi Hpre Hbad.
    destruct (parse_loop_prefix b i declared (peekUint32 dv (e + 16)) [] ltac:(lia) Hpre)
      as (fs' & Hrun & _).
    exists fs', (declared - i - 1)%nat.
    replace (S (declared - i - 1)) with (declared - i)%nat by lia. exact Hrun. }
  split.
  - intros Hthrow.
    destruct (parse_loop declared (peekUint32 dv (e + 16)) {| dataView := dv; files := [] |})
      as [[u|ex'] this'] eqn:Hrun; [discriminate|].
    assert (Hex : ex' = ex) by congruence. subst ex'.
    destruct (parse_loop_first_bad b _ _ _ _ _ Hrun) as (i & Hi & Hpre & Hbad).
    exists i. split; [exact Hi|]. split; [exact Hpre|].
    destruct (Hat i Hi Hpre Hbad) as (fs' & m & Heq).
    destruct (parse_step_failure b (cursor i) fs' m
                (cd_cursor_nonneg dv _ i Hstart) Hbad)
      as [(s & Hs & Hs' & Hstep)|(Hwhy & Hstep)];
      fold dv in Hstep; rewrite Hstep in Heq.
    + left. split; [congruence|]. exists s. split; assumption.
    + right. split; [congruence | exact Hwhy].
  - intros (i & Hi & Hpre & Hwhy).
    assert (Hbad : ~ record_ok b (cursor i)).
    { intros [Hsig Hin]. fold dv in Hsig, Hin.
      destruct Hwhy as [(_ & s & Hs & Hs')|(_ & [Hshort|(_ & Hover)])].
      - apply Hs'. unfold cursor, dv in *. congruence.
      - apply getUint32_Normal in Hsig as (_ & H4 & _).
        unfold cursor, dv in *. cbn [byteLength new_DataView] in H4. lia.
      - unfold cursor, dv in *. lia. }
    destruct (Hat i Hi Hpre Hbad) as (fs' & m & Heq). rewrite Heq.
    destruct (parse_step_failure b (cursor i) fs' m
                (cd_cursor_nonneg dv _ i Hstart) Hbad)
      as [(s & Hs & Hs' & Hstep)|(Hwhy' & Hstep)]; fold dv in Hstep; rewrite Hstep.
    + destruct Hwhy as [(-> & _)|(_ & [Hshort|(Hsig & _)])]; [reflexivity | |].
      * exfalso. apply getUint32_Normal in Hs as (_ & H4 & _).
        unfold cursor, dv in *. cbn [byteLength new_DataView] in H4. lia.
      * exfalso. apply Hs'. unfold cursor, dv in *. congruence.
    + destruct Hwhy as [(_ & s & Hs & Hs')|(-> & _)]; [|reflexivity].
      destruct Hwhy' as [Hshort|(Hsig & _)].
      * exfalso. apply getUint32_Normal in Hs as (_ & H4 & _).
        unfold cursor, dv in *. cbn [byteLength new_DataView] in H4. lia.
      * exfalso. apply Hs'. unfold cursor, dv in *. congruence.
Qed.

(** [test.zip] with the signature of its second record damaged. *)
Lemma construction_failure_witness :
  new_ZipReader Fixture.bad_directory_zip
  = Throw (Error "Invalid central directory signature").
Proof.
  apply (proj2 (construction_failure Fixture.bad_directory_zip 489 _
                  ltac:(vm_compute; reflexivity) ltac:(discriminate))).
  exists 1%nat. split; [vm_compute; lia|]. split.
  - intros [|j] Hj; [|lia].
    split; [vm_compute; reflexivity | apply Z.leb_le; vm_compute; reflexivity].
  - left. split; [reflexivity|]. eexists. split; [vm_compute; reflexivity|].
    vm_compute. discriminate.
Defined.

(** ** What a constructed reader holds *)

Lemma new_ZipReader_Normal_trailer (b : ArrayBuffer) (r : ZipReader) :
  new_ZipReader b = Normal r ->
  exists e, findEOCD (fresh_reader b) = (Normal e, fresh_reader b) /\ e <> -1
            /\ eocd_window (new_DataView b) e.
Proof.
  intros Hr.
  destruct (new_ZipReader_trailer b) as [(Hthrow & _)|(e & Hfind & Hne & Hw & _)].
  - rewrite Hthrow in Hr. discriminate.
  - exists e. split; [exact Hfind|]. split; [exact Hne | exact Hw].
Qed.

Lemma entry_at_in_range (dv : DataView) (o : Z) (f : ZipFileInfo) :
  entry_at dv o = Some f -> entry_in_range f.
Proof.
  intros Hf. apply entry_at_Some in Hf.
  pose proof (parseCentralDirectoryEntry_Normal o _ f Hf)
    as (_ & _ & _ & _ & Hcs & Hus & Hcm & Hcrc & Hlm & Hoff).
  cbn [dataView] in *.
  unfold entry_in_range. rewrite Hcs, Hus, Hcm, Hcrc, Hoff, Hlm.
  rewrite dosDateTimeToDate_fields by apply peekUint16_range.
  cbn [date_year date_monthIndex date_day date_hours date_minutes date_seconds].
  pose proof (peekUint16_range dv (o + 14)) as Hd.
  pose proof (peekUint16_range dv (o + 12)) as Ht.
  repeat split;
    try apply peekUint32_range; try apply peekUint16_range;
    Z.div_mod_to_equations; lia.
Qed.

(** X2. Every entry of a reader that the constructor returns has its sizes,
    checksum and local header offset below 2^32, its method below 2^16, and
    a timestamp whose year lies in 1980..2107, month index in -1..14, day in
    0..31, hour in 0..31, minute in 0..63 and whose seconds are even and at
    most 62.  Nothing narrower is checked: the calendar fields are taken as
    the bits give them. *)
Theorem constructed_entries_in_range (b : ArrayBuffer) (r : ZipReader) :
  new_ZipReader b = Normal r -> Forall entry_in_range (files r).
Proof.
  intros Hr.
  destruct (new_ZipReader_Normal_trailer b r Hr) as (e & Hfind & Hne & _).
  apply Forall_forall. intros f Hin.
  apply In_nth_error in Hin as (i & Hnth).
  destruct (new_ZipReader_nth b e r i f Hfind Hne Hr Hnth) as (_ & Hf).
  exact (entry_at_in_range _ _ f Hf).
Qed.

Lemma constructed_entries_in_range_witness :
  Forall entry_in_range (files Fixture.test_reader).
Proof.
  apply (constructed_entries_in_range TestData.test_zip).
  vm_compute. reflexivity.
Defined.

Lemma cd_cursor_lower_bound (dv : DataView) (start : Z) (i : nat) :
  start + 46 * Z.of_nat i <= cd_cursor dv start i.
Proof.
  induction i as [|i IH]; [cbn; lia|].
  cbn [cd_cursor]. unfold cd_next.
  pose proof (peekUint16_range dv (cd_cursor dv start i + 28)).
  pose proof (peekUint16_range dv (cd_cursor dv start i + 30)).
  pose proof (peekUint16_range dv (cd_cursor dv start i + 32)).
  lia.
Qed.

Lemma new_ZipReader_length (b : ArrayBuffer) (e : Z) (r : ZipReader) :
  findEOCD (fresh_reader b) = (Normal e, fresh_reader b) -> e <> -1 ->
  new_ZipReader b = Normal r ->
  List.length (files r) = Z.to_nat (peekUint16 (new_DataView b) (e + 10)).
Proof.
  intros Hfind Hne Hr.
  destruct (new_ZipReader_Normal b e r Hfind Hne Hr) as (_ & Hrun & Hrec).
  destruct (parse_loop_ok b _ _ [] (fun i Hi => proj1 (Hrec i Hi)))
    as (fs & Hrun' & Hlen & _).
  unfold fresh_reader in Hrun. rewrite Hrun in Hrun'. injection Hrun' as ->.
  exact Hlen.
Qed.

(** X3. A reader that the constructor returns has at most 65535 entries, and
    never more than the buffer has room for: each record takes 46 bytes at
    least, and the records were read one after the other inside the buffer,
    starting at the declared directory offset. *)
Theorem constructed_entry_count (b : ArrayBuffer) (e : Z) (r : ZipReader) :
  findEOCD (fresh_reader b) = (Normal e, fresh_reader b) -> e <> -1 ->
  new_ZipReader b = Normal r ->
  let n := Z.of_nat (List.length (files r)) in
  n <= 65535
  /\ (0 < n -> peekUint32 (new_DataView b) (e + 16) + 46 * n <= ab_byteLength b).
Proof.
  intros Hfind Hne Hr n.
  pose proof (new_ZipReader_length b e r Hfind Hne Hr) as Hlen.
  pose proof (peekUint16_range (new_DataView b) (e + 10)) as Hdecl.
  split; [unfold n; lia|]. intros Hpos.
  destruct (new_ZipReader_Normal b e r Hfind Hne Hr) as (_ & _ & Hrec).
  destruct (Hrec (List.length (files r) - 1)%nat ltac:(lia)) as ([_ Hin] & _).
  pose proof (cd_cursor_lower_bound (new_DataView b)
                (peekUint32 (new_DataView b) (e + 16)) (List.length (files r) - 1)) as Hlow.
  pose proof (peekUint16_range (new_DataView b)
                (cd_cursor (new_DataView b) (peekUint32 (new_DataView b) (e + 16))
                   (List.length (files r) - 1) + 28)) as Hfl.
  unfold n. lia.
Qed.

Lemma constructed_entry_count_witness :
  Z.of_nat (List.length (files Fixture.test_reader)) <= 65535
  /\ 252 + 46 * Z.of_nat (List.length (files Fixture.test_reader)) <= 511.
Proof.
  destruct (constructed_entry_count TestData.test_zip 489 Fixture.test_reader)
    as (Hmax & Hroom).
  - vm_compute. reflexivity.
  - discriminate.
  - vm_compute. reflexivity.
  - split; [exact Hmax|]. apply Hroom. vm_compute. reflexivity.
Defined.

(** X4. An archive whose trailer declares no entry is accepted whatever else
    the buffer holds: the reader has an empty entry list, and every
    extraction returns [null]. *)
Theorem empty_archive (b : ArrayBuffer) (e : Z) :
  findEOCD (fresh_reader b) = (Normal e, fresh_reader b) -> e <> -1 ->
  peekUint16 (new_DataView b) (e + 10) = 0 ->
  new_ZipReader b = Normal (fresh_reader b)
  /\ getFiles (fresh_reader b) = (Normal [], fresh_reader b)
  /\ forall name, extractFile name (fresh_reader b) = (Normal None, fresh_reader b).
Proof.
  intros Hfind Hne Hzero.
  destruct (new_ZipReader_trailer b) as [(_ & Hnone)|(e' & Hfind' & _ & _ & Hnew)].
  { rewrite Hfind in Hnone. injection Hnone as He. contradiction. }
  rewrite Hfind in Hfind'. injection Hfind' as <-.
  rewrite Hzero in Hnew. cbn in Hnew.
  split; [exact Hnew|]. split; [reflexivity|]. intros name. reflexivity.
Qed.

Lemma empty_archive_witness :
  new_ZipReader Fixture.empty_zip = Normal (fresh_reader Fixture.empty_zip)
  /\ extractFile (js "file1.txt") (fresh_reader Fixture.empty_zip)
     = (Normal None, fresh_reader Fixture.empty_zip).
Proof.
  destruct (empty_archive Fixture.empty_zip 0) as (Hnew & _ & Hnull).
  - vm_compute. reflexivity.
  - discriminate.
  - vm_compute. reflexivity.
  - split; [exact Hnew | apply Hnull].
Defined.

(** ** Listing, then extracting *)

Lemma NoDup_map_In_inj {A B : Type} (h : A -> B) (l : list A) (x y : A) :
  NoDup (map h l) -> In x l -> In y l -> h x = h y -> x = y.
Proof.
  induction l as [|a l IH]; cbn [map]; intros Hnd Hx Hy Heq; [destruct Hx|].
  inversion Hnd as [|? ? Hnotin Hnd']; subst.
  destruct Hx as [->|Hx], Hy as [->|Hy].
  - reflexivity.
  - exfalso. apply Hnotin. rewrite Heq. apply in_map. exact Hy.
  - exfalso. apply Hnotin. rewrite <- Heq. apply in_map. exact Hx.
  - apply IH; assumption.
Qed.

(** X5. Every entry that [getFiles] lists can be asked for by its name:
    [extractFile] then never answers [null].  It works on the first entry of
    the list that carries this name, which is the listed entry itself when
    no two entries share a name, and an earlier one otherwise. *)
Theorem listed_names_are_found (this : ZipReader) (f : ZipFileInfo) :
  In f (files this) ->
  exists g l1 l2,
    files this = l1 ++ g :: l2
    /\ filename g = filename f
    /\ (forall h, In h l1 -> filename h <> filename f)
    /\ extractFile (filename f) this
       = (fst (extractFile (filename f) {| dataView := dataView this; files := [g] |}),
          this)
    /\ fst (extractFile (filename f) this) <> Normal None
    /\ (NoDup (map filename (files this)) -> g = f).
Proof.
  intros Hin.
  destruct (lookup (filename f) (files this)) as [g|] eqn:Hg.
  2:{ exfalso. exact (proj1 (lookup_None _ _) Hg f Hin eq_refl). }
  destruct (lookup_Some _ _ _ Hg) as (Hname & l1 & l2 & Hfiles & Hl1).
  exists g, l1, l2. split; [exact Hfiles|]. split; [exact Hname|]. split; [exact Hl1|].
  assert (Hg1 : lookup (filename f) (files {| dataView := dataView this; files := [g] |})
                = Some g)
    by (apply (lookup_first (filename f) [] [] g Hname); intros h []).
  split; [|split].
  - rewrite (surjective_pairing (extractFile (filename f) this)), extractFile_state.
    f_equal. apply (extractFile_found_congr _ _ _ _ g g Hg Hg1); reflexivity.
  - intros Hnull.
    pose proof (extractFile_found_eq _ _ _ Hg) as Heq. cbv zeta in Heq.
    rewrite Heq in Hnull.
    destruct (getUint32 _ _); [|discriminate].
    destruct (negb _); [discriminate|].
    destruct (getUint16 _ _); [|discriminate].
    destruct (getUint16 _ _); [|discriminate].
    destruct (new_Uint8Array _ _ _); [|discriminate].
    destruct (compressionMethod g =? 0); [discriminate|].
    destruct (compressionMethod g =? 8); discriminate.
  - intros Hnd. apply (NoDup_map_In_inj filename (files this)); try assumption.
    rewrite Hfiles. apply in_or_app. right. left. reflexivity.
Qed.

(** The second entry of the archive with two records named [file1.txt]. *)
Lemma listed_names_are_found_witness :
  exists f,
    nth_error (files Fixture.duplicate_reader) 1 = Some f
    /\ offset f = 81
    /\ fst (extractFile (filename f) Fixture.duplicate_reader) <> Normal None.
Proof.
  eassert (Hf : nth_error (files Fixture.duplicate_reader) 1 = Some _)
    by (vm_compute; reflexivity).
  eexists. split; [exact Hf|]. split; [reflexivity|].
  destruct (listed_names_are_found Fixture.duplicate_reader _
              (nth_error_In (files Fixture.duplicate_reader) 1 Hf))
    as (g & l1 & l2 & _ & _ & _ & _ & Hfound & _).
  exact Hfound.
Defined.

(** ** What the reader reads *)

Lemma Forall2_eq_lists {A : Type} (l l' : list A) : Forall2 eq l l' -> l = l'.
Proof. induction 1; congruence. Qed.

(** X6. The reader reads the trailer, the fixed part and the name of each
    directory record, and, for the entry it extracts, the signature and the
    two lengths of its local header and its payload; nothing else.  A second
    buffer of the same length that holds the same bytes there is accepted
    with the same entry list and extracts alike, whatever it holds elsewhere:
    in the extra fields and comments of the directory, and in the local
    headers, whose own flags, method, sizes, checksum and name are not looked
    at. *)
Theorem read_footprint (b1 b2 : ArrayBuffer) (e : Z) (r1 : ZipReader) :
  ab_byteLength b1 = ab_byteLength b2 ->
  findEOCD (fresh_reader b1) = (Normal e, fresh_reader b1) -> e <> -1 ->
  new_ZipReader b1 = Normal r1 ->
  agree_on b1 b2 e (ab_byteLength b1) ->
  let dv1 := new_DataView b1 in
  let cursor := cd_cursor dv1 (peekUint32 dv1 (e + 16)) in
  (forall i, (i < Z.to_nat (peekUint16 dv1 (e + 10)))%nat ->
             agree_on b1 b2 (cursor i) (cursor i + 46 + peekUint16 dv1 (cursor i + 28))) ->
  exists r2,
    new_ZipReader b2 = Normal r2
    /\ files r2 = files r1
    /\ (forall name,
          (forall f, lookup name (files r1) = Some f -> payload_agree b1 b2 f) ->
          observable (fst (extractFile name r1)) = observable (fst (extractFile name r2))).
Proof.
  intros Hlen Hfind Hne Hr1 Htrailer dv1 cursor Hrecords.
  destruct (construct_simulation b1 b2 eq
              (fun o => agree_on b1 b2 o (o + 46 + peekUint16 (new_DataView b1) (o + 28)))
              e r1) as (r2 & Hr2 & Hdv1 & Hdv2 & Hrel); try assumption.
  - intros o f Hok Ha Hf.
    pose proof (peekUint16_range (new_DataView b1) (o + 28)) as Hfl.
    destruct (entry_at_agree b1 b2 o f Hlen Hok)
      as (Hok2 & Hnext & g & Hg & Hsame & Hlm & He & Hc & Hu); [|exact Hf|].
    { repeat split; apply (agree_on_sub _ _ _ _ _ _ Ha); lia. }
    split; [exact Hok2|]. split; [exact Hnext|]. exists g. split; [exact Hg|].
    destruct Hsame as (Hn & Hoff & Hcs & Hcm).
    assert (He' : encrypted f = encrypted g)
      by (apply He; apply (agree_on_sub _ _ _ _ _ _ Ha); lia).
    assert (Hc' : crc32 f = crc32 g)
      by (apply Hc; apply (agree_on_sub _ _ _ _ _ _ Ha); lia).
    assert (Hu' : uncompressedSize f = uncompressedSize g)
      by (apply Hu; apply (agree_on_sub _ _ _ _ _ _ Ha); lia).
    clear He Hc Hu.
    destruct f, g. cbn in *. congruence.
  - apply Forall2_eq_lists in Hrel.
    exists r2. split; [exact Hr2|]. split; [symmetry; exact Hrel|].
    intros name Hpay.
    apply (extractFile_agree b1 b2 r1 r2 name Hlen Hdv1 Hdv2); [|exact Hpay].
    rewrite <- Hrel. clear. induction (files r1) as [|f fs IH]; constructor; [|exact IH].
    repeat split; reflexivity.
Qed.

(** [file3.txt], deflated according to its directory record: with a local
    header that says "stored" it is still piped through the decompressor. *)
Lemma read_footprint_witness :
  files Fixture.local_method_reader = files Fixture.test_reader
  /\ observable (fst (extractFile (js "file3.txt") Fixture.test_reader))
     = observable (fst (extractFile (js "file3.txt") Fixture.local_method_reader))
  /\ option_map snd
       match observable (fst (extractFile (js "file3.txt") Fixture.local_method_reader)) with
       | Normal o => o
       | Throw _ => None
       end
     = Some [DecompressionStream "deflate-raw"].
Proof.
  destruct (read_footprint TestData.test_zip Fixture.local_method_zip 489
              Fixture.test_reader) as (r2 & Hr2 & Hfiles & Hsame).
  - vm_compute. reflexivity.
  - vm_compute. reflexivity.
  - discriminate.
  - vm_compute. reflexivity.
  - unfold Fixture.local_method_zip. poke_agrees.
  - intros i Hi. unfold Fixture.local_method_zip.
    destruct i as [|[|[|i]]]; [| | |vm_compute in Hi; lia]; poke_agrees.
  - assert (Hr : new_ZipReader Fixture.local_method_zip = Normal Fixture.local_method_reader)
      by (vm_compute; reflexivity).
    rewrite Hr in Hr2. apply Normal_inj in Hr2. subst r2.
    split; [exact Hfiles|]. split; [|vm_compute; reflexivity].
    apply Hsame. intros f Hf.
    assert (Hoff : offset f = 169 /\ compressedSize f = 16).
    { vm_compute in Hf. injection Hf as <-. split; reflexivity. }
    destruct Hoff as [Hoff Hcs]. unfold payload_agree. rewrite Hoff, Hcs.
    unfold Fixture.local_method_zip. cbv zeta. split; [|split]; poke_agrees.
Defined.

(** ** The outcome of an extraction *)

(** X7. For a reader over a whole buffer and a found entry with a
    non-negative offset and size, the checks of [extractFile] come in this
    order, and the first one that fails decides the result: the four
    signature bytes must lie inside the buffer ([RangeError]), they must be
    the local header signature (signature error), the payload must end
    inside the buffer ([RangeError]), and the method must be 0 or 8
    (unsupported method).  A damaged signature is thus reported before an
    unsupported method, and an unsupported method only for a payload that is
    wholly there. *)
Theorem extraction_outcome (b : ArrayBuffer) (fs : list ZipFileInfo)
        (name : JSString) (f : ZipFileInfo) :
  lookup name fs = Some f -> 0 <= offset f -> 0 <= compressedSize f ->
  let dv := new_DataView b in
  let this := {| dataView := dv; files := fs |} in
  let start := offset f + 30 + peekUint16 dv (offset f + 26) + peekUint16 dv (offset f + 28) in
  let data := {| ua_buffer := b; ua_byteOffset := start; ua_length := compressedSize f |} in
  fst (extractFile name this)
  = if ab_byteLength b <? offset f + 4 then Throw RangeError
    else if negb (peekUint32 dv (offset f) =? LOCAL_FILE_HEADER_SIGNATURE) then
      Throw (Error "Invalid local file header signature")
    else if ab_byteLength b <? start + compressedSize f then Throw RangeError
    else if compressionMethod f =? 0 then Normal (Some (enqueue_close data))
    else if compressionMethod f =? 8 then
      Normal (Some (pipeThrough (enqueue_close data) (DecompressionStream "deflate-raw")))
    else Throw (Error ("Unsupported compression method: "
                       ++ number_toString (compressionMethod f))%string).
Proof.
  intros Hf Hoff Hcs dv this start data.
  rewrite (extractFile_found_eq name this f Hf). cbn [dataView this].
  pose proof (peekUint16_range dv (offset f + 26)) as H26.
  pose proof (peekUint16_range dv (offset f + 28)) as H28.
  rewrite getUint32_eq. cbn [byteLength dv new_DataView]. fold dv.
  destruct (Z.ltb_spec (offset f) 0); [lia|]. cbn [orb].
  destruct (Z.ltb_spec (ab_byteLength b) (offset f + 4)); [reflexivity|].
  destruct (negb (peekUint32 dv (offset f) =? LOCAL_FILE_HEADER_SIGNATURE)); [reflexivity|].
  rewrite !getUint16_eq. cbn [byteLength dv new_DataView]. fold dv.
  destruct (Z.ltb_spec (ab_byteLength b) (start + compressedSize f)) as [Hover|Hfit].
  - destruct (Z.ltb_spec (offset f + 26) 0); [lia|]. cbn [orb].
    destruct (Z.ltb_spec (ab_byteLength b) (offset f + 26 + 2)); [reflexivity|].
    destruct (Z.ltb_spec (offset f + 28) 0); [lia|]. cbn [orb].
    destruct (Z.ltb_spec (ab_byteLength b) (offset f + 28 + 2)); [reflexivity|].
    unfold new_Uint8Array. cbn [buffer byteOffset dv new_DataView]. fold dv.
    rewrite Z.add_0_l. fold start.
    destruct (Z.ltb_spec start 0); [lia|].
    destruct (Z.ltb_spec (compressedSize f) 0); [lia|].
    destruct (Z.ltb_spec (ab_byteLength b) (start + compressedSize f)); [reflexivity | lia].
  - destruct (Z.ltb_spec (offset f + 26) 0); [lia|]. cbn [orb].
    destruct (Z.ltb_spec (ab_byteLength b) (offset f + 26 + 2)); [unfold start in Hfit; lia|].
    destruct (Z.ltb_spec (offset f + 28) 0); [lia|]. cbn [orb].
    destruct (Z.ltb_spec (ab_byteLength b) (offset f + 28 + 2)); [unfold start in Hfit; lia|].
    unfold new_Uint8Array. cbn [buffer byteOffset dv new_DataView]. fold dv.
    rewrite Z.add_0_l. fold start.
    destruct (Z.ltb_spec start 0); [unfold start in *; lia|].
    destruct (Z.ltb_spec (compressedSize f) 0); [lia|].
    destruct (Z.ltb_spec (ab_byteLength b) (start + compressedSize f)); [lia|].
    reflexivity.
Qed.

(** [file2.txt] with method 12 in an archive whose local header for it is
    intact: the method is what is reported. *)
Lemma extraction_outcome_witness :
  fst (extractFile (js "file2.txt")
         {| dataView := new_DataView Fixture.bzip2_zip;
            files := files Fixture.bzip2_reader |})
  = Throw (Error "Unsupported compression method: 12").
Proof.
  eassert (Hf : lookup (js "file2.txt") (files Fixture.bzip2_reader) = Some _)
    by (vm_compute; reflexivity).
  rewrite (extraction_outcome Fixture.bzip2_zip _ _ _ Hf);
    [vm_compute; reflexivity | vm_compute; discriminate | vm_compute; discriminate].
Defined.

Lemma number_toString_inj (a b : Z) : number_toString a = number_toString b -> a = b.
Proof.
  unfold number_toString. intros H.
  assert (Hnil : forall z, Z.to_int z <> Decimal.Pos Decimal.Nil
                           /\ Z.to_int z <> Decimal.Neg Decimal.Nil).
  { intros z. split; intros E; pose proof (DecimalZ.of_to z) as Hz;
      rewrite E in Hz; cbn in Hz; subst z; discriminate. }
  apply DecimalZ.to_int_inj.
  pose proof (NilZero.isi (Z.to_int a) (proj1 (Hnil a)) (proj2 (Hnil a))) as Ha.
  pose proof (NilZero.isi (Z.to_int b) (proj1 (Hnil b)) (proj2 (Hnil b))) as Hb.
  rewrite H in Ha. congruence.
Qed.

(** X8. The message of the unsupported-method error tells the method: two
    extractions, on any readers, that throw this error with the same message
    were asked for entries with the same method code; and the code printed
    is the one of the entry found. *)
Theorem unsupported_message_tells_method
        (n1 n2 : JSString) (r1 r2 : ZipReader) (f1 f2 : ZipFileInfo) (code : string) :
  lookup n1 (files r1) = Some f1 -> lookup n2 (files r2) = Some f2 ->
  fst (extractFile n1 r1)
  = Throw (Error ("Unsupported compression method: " ++ code)%string) ->
  fst (extractFile n2 r2)
  = Throw (Error ("Unsupported compression method: " ++ code)%string) ->
  compressionMethod f1 = compressionMethod f2
  /\ code = number_toString (compressionMethod f1).
Proof.
  intros Hf1 Hf2 H1 H2.
  assert (Hcode : forall name this f,
             lookup name (files this) = Some f ->
             fst (extractFile name this)
             = Throw (Error ("Unsupported compression method: " ++ code)%string) ->
             code = number_toString (compressionMethod f)).
  { intros name this f Hf Hrun.
    rewrite (extractFile_found_eq name this f Hf) in Hrun.
    destruct (getUint32 _ _) as [s|e] eqn:Hs;
      [|rewrite (getUint32_Throw _ _ _ Hs) in Hrun; discriminate].
    destruct (negb _); [cbn in Hrun; discriminate|].
    destruct (getUint16 _ (offset f + 26)) as [fl|e] eqn:Hfl;
      [|rewrite (getUint16_Throw _ _ _ Hfl) in Hrun; discriminate].
    destruct (getUint16 _ (offset f + 28)) as [el|e] eqn:Hel;
      [|rewrite (getUint16_Throw _ _ _ Hel) in Hrun; discriminate].
    destruct (new_Uint8Array _ _ _) as [data|e] eqn:Hdata;
      [|rewrite (new_Uint8Array_Throw _ _ _ _ Hdata) in Hrun; discriminate].
    destruct (compressionMethod f =? 0); [discriminate|].
    destruct (compressionMethod f =? 8); [discriminate|].
    injection Hrun as Hrun. cbn in Hrun. repeat (injection Hrun as Hrun).
    symmetry. exact Hrun. }
  pose proof (Hcode _ _ _ Hf1 H1) as C1. pose proof (Hcode _ _ _ Hf2 H2) as C2.
  split; [|exact C1]. apply number_toString_inj. congruence.
Qed.

Lemma unsupported_message_tells_method_witness :
  exists f,
    lookup (js "file2.txt") (files Fixture.bzip2_reader) = Some f
    /\ "12"%string = number_toString (compressionMethod f).
Proof.
  eassert (Hf : lookup (js "file2.txt") (files Fixture.bzip2_reader) = Some _)
    by (vm_compute; reflexivity).
  eexists. split; [exact Hf|].
  refine (proj2 (unsupported_message_tells_method _ _ _ _ _ _ "12" Hf Hf _ _));
    vm_compute; reflexivity.
Defined.

(** ** The timestamp, read back *)

(** X9. The six numbers that [dosDateTimeToDate] hands to [new Date] keep
    all of its two 16-bit words: the year less 1980, the month index plus 1
    and the day pack into the date word again, and the hours, the minutes and
    half the seconds into the time word.  This is said of the numbers handed
    over, not of the [Date] that the platform makes of them: the date words
    417 (month 13 of 1980) and 545 (month 1 of 1981) are handed over as
    different numbers and name the same day. *)
Theorem dos_timestamp_lossless (d t : Z) :
  0 <= d < 65536 -> 0 <= t < 65536 ->
  exists year monthIndex day hours minutes seconds,
    dosDateTimeToDate d t = new_Date year monthIndex day hours minutes seconds
    /\ pack_dos_date (year - 1980) (monthIndex + 1) day = d
    /\ pack_dos_time hours minutes (seconds / 2) = t
    /\ 0 <= year - 1980 < 128 /\ 0 <= monthIndex + 1 < 16 /\ 0 <= day < 32
    /\ 0 <= hours < 32 /\ 0 <= minutes < 64 /\ 0 <= seconds / 2 < 32
    /\ seconds mod 2 = 0.
Proof.
  intros Hd Ht.
  exists (d / 512 mod 128 + 1980), (d / 32 mod 16 - 1), (d mod 32),
         (t / 2048 mod 32), (t / 32 mod 64), (t mod 32 * 2).
  split; [apply dosDateTimeToDate_fields; assumption|].
  unfold pack_dos_date, pack_dos_time.
  repeat split; Z.div_mod_to_equations; lia.
Qed.

(** The date word 417: year 1980, month 13, day 1, handed over as the month
    index 12. *)
Lemma dos_timestamp_lossless_witness :
  dosDateTimeToDate 417 32952 = new_Date 1980 12 1 16 5 48
  /\ exists year monthIndex day hours minutes seconds,
       dosDateTimeToDate 417 32952 = new_Date year monthIndex day hours minutes seconds
       /\ pack_dos_date (year - 1980) (monthIndex + 1) day = 417
       /\ pack_dos_time hours minutes (seconds / 2) = 32952.
Proof.
  split; [vm_compute; reflexivity|].
  destruct (dos_timestamp_lossless 417 32952)
    as (year & monthIndex & day & hours & minutes & seconds & Heq & Hdate & Htime & _);
    [lia | lia |].
  exists year, monthIndex, day, hours, minutes, seconds.
  split; [exact Heq|]. split; [exact Hdate | exact Htime].
Defined.

(** ** The formatting helpers *)

Lemma string_length_append (s t : string) :
  String.length (s ++ t)%string = (String.length s + String.length t)%nat.
Proof. induction s as [|c s IH]; cbn; [reflexivity | rewrite IH; reflexivity]. Qed.

Lemma string_append_inj_r (t : string) :
  forall s1 s2 : string, (s1 ++ t)%string = (s2 ++ t)%string -> s1 = s2.
Proof.
  induction s1 as [|c s1 IH]; intros [|d s2] H; cbn in H.
  - reflexivity.
  - exfalso. apply (f_equal String.length) in H. cbn in H.
    rewrite string_length_append in H. lia.
  - exfalso. apply (f_equal String.length) in H. cbn in H.
    rewrite string_length_append in H. lia.
  - injection H as -> H. f_equal. apply IH. exact H.
Qed.

(** X10. [getCompressionMethodName] never gives two method codes the same
    name: the eight names of its table are distinct, none of them reads
    "Unknown (...)", and every other code is written out in its name. *)
Theorem getCompressionMethodName_inj (a b : Z) :
  getCompressionMethodName a = getCompressionMethodName b <-> a = b.
Proof.
  split; [|intros ->; reflexivity].
  unfold getCompressionMethodName.
  repeat match goal with
         | |- context [?x =? ?y] => destruct (Z.eqb_spec x y); [subst|]
         end;
    intros H; try reflexivity; try discriminate H.
  injection H as H. apply string_append_inj_r in H.
  apply number_toString_inj. exact H.
Qed.

Lemma hex_digit_value_hex_digit (d : Z) :
  0 <= d < 16 -> hex_digit_value (hex_digit d) = Some d.
Proof.
  intros H.
  assert (Hd : d = 0 \/ d = 1 \/ d = 2 \/ d = 3 \/ d = 4 \/ d = 5 \/ d = 6 \/ d = 7
               \/ d = 8 \/ d = 9 \/ d = 10 \/ d = 11 \/ d = 12 \/ d = 13 \/ d = 14
               \/ d = 15) by lia.
  repeat (destruct Hd as [->|Hd]; [reflexivity|]). subst d. reflexivity.
Qed.

Lemma to_radix16_value (fuel : nat) :
  forall (n : Z) (acc : string),
    0 <= n < 2 ^ Z.of_nat fuel ->
    hex_value (to_radix16 fuel n acc) 0 = hex_value acc n.
Proof.
  induction fuel as [|fuel IH]; intros n acc Hn.
  - cbn in Hn. replace n with 0 by lia. reflexivity.
  - cbn [to_radix16].
    assert (Hmod : 0 <= n mod 16 < 16) by (apply Z.mod_pos_bound; lia).
    assert (Hstep : hex_value (String (hex_digit (n mod 16)) acc) (n / 16) = hex_value acc n).
    { cbn [hex_value]. rewrite (hex_digit_value_hex_digit _ Hmod). f_equal.
      Z.div_mod_to_equations. lia. }
    destruct (Z.eqb_spec (n / 16) 0) as [Hz|Hnz].
    + rewrite <- Hz. exact Hstep.
    + rewrite IH; [exact Hstep|].
      rewrite Nat2Z.inj_succ, Z.pow_succ_r in Hn by lia.
      Z.div_mod_to_equations. lia.
Qed.

Lemma to_radix16_length (fuel : nat) :
  forall (n : Z) (acc : string) (k : nat),
    (1 <= k)%nat -> 0 <= n < 16 ^ Z.of_nat k ->
    (1 + String.length acc <= String.length (to_radix16 (S fuel) n acc)
     <= k + String.length acc)%nat.
Proof.
  induction fuel as [|fuel IH]; intros n acc k Hk Hn.
  - cbn [to_radix16]. destruct (n / 16 =? 0); cbn; lia.
  - change (to_radix16 (S (S fuel)) n acc)
      with (if n / 16 =? 0 then String (hex_digit (n mod 16)) acc
            else to_radix16 (S fuel) (n / 16) (String (hex_digit (n mod 16)) acc)).
    destruct (Z.eqb_spec (n / 16) 0) as [Hz|Hnz]; [cbn; lia|].
    destruct k as [|[|k]]; [lia | |].
    + exfalso. apply Hnz. change (16 ^ Z.of_nat 1) with 16 in Hn.
      Z.div_mod_to_equations. lia.
    + specialize (IH (n / 16) (String (hex_digit (n mod 16)) acc) (S k) ltac:(lia)).
      cbn [String.length] in IH.
      assert (Hdiv : 0 <= n / 16 < 16 ^ Z.of_nat (S k)).
      { rewrite (Nat2Z.inj_succ (S k)), Z.pow_succ_r in Hn by lia.
        Z.div_mod_to_equations. lia. }
      specialize (IH Hdiv). lia.
Qed.

Lemma pad_fill_zero (n : nat) :
  forall (rest s : string),
    (rest = "0"%string \/ rest = EmptyString) ->
    String.length (pad_fill n "0" rest) = n
    /\ hex_value (pad_fill n "0" rest ++ s) 0 = hex_value s 0.
Proof.
  induction n as [|n IH]; intros rest s Hrest; [split; reflexivity|].
  destruct Hrest as [-> | ->]; cbn [pad_fill];
    (destruct (IH EmptyString s (or_intror eq_refl)) as [Hlen Hval];
     split; [cbn; rewrite Hlen; reflexivity | cbn; exact Hval]).
Qed.

(** X11. [formatCRC32] writes a checksum so that it can be read back: the
    digits it gives are hexadecimal, lower case, and spell the number; below
    2^32, which is where the checksums of an archive lie, they are exactly
    eight; a larger number is written with more digits, not cut. *)
Theorem formatCRC32_reads_back (crc : Z) :
  0 <= crc ->
  hex_value (formatCRC32 crc) 0 = Some crc
  /\ (8 <= String.length (formatCRC32 crc))%nat
  /\ (crc < 4294967296 -> String.length (formatCRC32 crc) = 8%nat).
Proof.
  intros Hcrc. unfold formatCRC32, padStart, number_toString16.
  destruct (Z.ltb_spec crc 0); [lia|].
  set (fuel := Z.to_nat (Z.log2 crc)).
  set (digits := to_radix16 (S fuel) crc EmptyString).
  assert (Hval : hex_value digits 0 = Some crc).
  { unfold digits. rewrite to_radix16_value; [reflexivity|].
    split; [exact Hcrc|]. unfold fuel.
    rewrite Nat2Z.inj_succ, Z2Nat.id by apply Z.log2_nonneg.
    destruct (Z.eq_dec crc 0) as [->|Hnz]; [cbn; lia|].
    apply Z.log2_spec. lia. }
  destruct (Nat.leb_spec 8 (String.length digits)) as [Hlong|Hshort].
  - split; [exact Hval|]. split; [exact Hlong|]. intros H32.
    pose proof (to_radix16_length fuel crc EmptyString 8 ltac:(lia)) as Hlen.
    change (16 ^ Z.of_nat 8) with 4294967296 in Hlen. fold digits in Hlen.
    cbn [String.length] in Hlen. lia.
  - destruct (pad_fill_zero (8 - String.length digits) "0" digits (or_introl eq_refl))
      as [Hlen Hpad].
    rewrite Hpad, string_length_append, Hlen.
    split; [exact Hval|]. split; [lia|]. intros _. lia.
Qed.

Lemma formatCRC32_reads_back_witness :
  formatCRC32 144888529 = "08a2d2d1"%string /\ hex_value "08a2d2d1" 0 = Some 144888529.
Proof.
  assert (Hf : formatCRC32 144888529 = "08a2d2d1"%string) by (vm_compute; reflexivity).
  split; [exact Hf|]. rewrite <- Hf.
  apply (formatCRC32_reads_back 144888529). lia.
Defined.

(** ** Text read from a stream in pieces *)

Lemma utf8_decode_from_app (a : list byte) :
  forall (st : Utf8State) (b : list byte),
    utf8_decode_from st (a ++ b)
    = fst (utf8_run st a) ++ utf8_decode_from (snd (utf8_run st a)) b.
Proof.
  induction a as [|x a IH]; intros st b; [reflexivity|].
  cbn [app utf8_decode_from utf8_run].
  destruct (utf8_handler st _) as [out st'].
  rewrite IH. destruct (utf8_run st' a) as [outs st'']. cbn [fst snd].
  apply app_assoc.
Qed.

Lemma serialize_app (seen : bool) (a b : list Z) :
  fst (serialize seen (a ++ b))
  = fst (serialize seen a) ++ fst (serialize (snd (serialize seen a)) b).
Proof.
  destruct a as [|cp a]; [reflexivity|].
  unfold serialize. cbn [app].
  destruct seen; [|destruct (cp =? 65279)]; cbn [fst snd];
    destruct b; cbn [fst]; rewrite ?app_nil_r; reflexivity.
Qed.

(** Dropping a leading byte order mark, as the one-shot decoder does. *)
Lemma drop_BOM_serialize (cps : list Z) :
  match cps with 65279 :: rest => rest | _ => cps end = fst (serialize false cps).
Proof.
  destruct cps as [|cp rest]; [reflexivity|]. unfold serialize. cbn [fst].
  destruct (Z.eqb_spec cp 65279) as [->|Hne]; [reflexivity|].
  destruct cp as [|p|p]; try reflexivity.
  repeat (destruct p as [p|p|]; try reflexivity).
  exfalso. apply Hne. reflexivity.
Qed.

Lemma read_loop_flush (chunks : list Uint8Array) :
  forall (d : TextDecoder) (text : JSString),
    fst (read_loop chunks d text) ++ TextDecoder_flush (snd (read_loop chunks d text))
    = text ++ flat_map utf16_units
                (fst (serialize (BOM_seen d)
                        (utf8_decode_from (decoder d) (List.concat (map ua_bytes chunks))))).
Proof.
  induction chunks as [|value rest IH]; intros d text; [reflexivity|].
  cbn [read_loop map List.concat]. unfold TextDecoder_decode_stream.
  rewrite utf8_decode_from_app, serialize_app.
  destruct (utf8_run (decoder d) (ua_bytes value)) as [cps st]. cbn [fst snd].
  destruct (serialize (BOM_seen d) cps) as [out seen]. cbn [fst snd].
  rewrite IH. cbn [decoder BOM_seen]. rewrite flat_map_app, app_assoc. reflexivity.
Qed.

Lemma read_text_eq (chunks : list Uint8Array) :
  read_text chunks
  = flat_map utf16_units
      (fst (serialize false (utf8_decode_from utf8_initial (List.concat (map ua_bytes chunks))))).
Proof.
  unfold read_text.
  pose proof (read_loop_flush chunks new_TextDecoder []) as H.
  destruct (read_loop chunks new_TextDecoder []) as [text d]. exact H.
Qed.

Lemma read_text_single (value : Uint8Array) :
  read_text [value] = TextDecoder_decode value.
Proof.
  rewrite read_text_eq. unfold TextDecoder_decode. cbn [map List.concat].
  rewrite app_nil_r, drop_BOM_serialize. reflexivity.
Qed.

(** X12. The text that the worker reads from a stream does not depend on how
    the stream is cut into chunks: decoding chunk by chunk with
    [stream: true] and flushing at the end gives what one [decode] call gives
    on all the bytes together.  A character whose bytes are split between
    two chunks is put together, a byte order mark is dropped at the start of
    the stream only, and a sequence that the last chunk leaves open becomes
    one replacement character. *)
Theorem streamed_text_is_whole_decode (chunks : list Uint8Array) (whole : Uint8Array) :
  ua_bytes whole = List.concat (map ua_bytes chunks) ->
  read_text chunks = TextDecoder_decode whole.
Proof.
  intros Hbytes. rewrite read_text_eq. unfold TextDecoder_decode.
  rewrite Hbytes, drop_BOM_serialize. reflexivity.
Qed.

(** The two bytes of U+00E9 in two chunks. *)
Lemma streamed_text_is_whole_decode_witness :
  read_text [Fixture.view_of [xc3]; Fixture.view_of [xa9; x21]] = [233; 33].
Proof.
  rewrite (streamed_text_is_whole_decode _ (Fixture.view_of [xc3; xa9; x21]));
    vm_compute; reflexivity.
Defined.

(** ** The worker *)

Lemma extractFile_listed (this : ZipReader) (f : ZipFileInfo) :
  In f (files this) -> fst (extractFile (filename f) this) <> Normal None.
Proof.
  intros Hin Hnull.
  destruct (lookup (filename f) (files this)) as [g|] eqn:Hg.
  2:{ exact (proj1 (lookup_None _ _) Hg f Hin eq_refl). }
  pose proof (extractFile_found_eq _ _ _ Hg) as Heq. cbv zeta in Heq.
  rewrite Heq in Hnull.
  destruct (getUint32 _ _); [|discriminate].
  destruct (negb _); [discriminate|].
  destruct (getUint16 _ _); [|discriminate].
  destruct (getUint16 _ _); [|discriminate].
  destruct (new_Uint8Array _ _ _); [|discriminate].
  destruct (compressionMethod g =? 0); [discriminate|].
  destruct (compressionMethod g =? 8); discriminate.
Qed.

Section WorkerProperties.

Variable pipe : Pipe.

(** What follows the title of an entry in the log. *)
Lemma entry_log_eq (zipReader : ZipReader) (f : ZipFileInfo) :
  entry_log pipe zipReader f
  = [log_title (filename f);
     match fst (extractFile (filename f) zipReader) with
     | Normal (Some stream) =>
         match read_stream pipe stream with
         | (chunks, None) => log_text (read_text chunks)
         | (_, Some error) => log_error (platform_threw error)
         end
     | Normal None => log_not_found
     | Throw error => log_error (reader_threw error)
     end].
Proof.
  unfold entry_log. cbn [for_of_files].
  destruct (extractFile (filename f) zipReader) as [[[stream|]|e] r']; cbn [fst snd app];
    try reflexivity.
  destruct (read_stream pipe stream) as [chunks [error|]]; reflexivity.
Qed.

(** The loop leaves the reader as it was, and logs entry by entry. *)
Lemma for_of_files_eq (fs : list ZipFileInfo) :
  forall (zipReader : ZipReader) (console : list LogEntry),
    for_of_files pipe fs zipReader console
    = (zipReader, console ++ flat_map (entry_log pipe zipReader) fs).
Proof.
  induction fs as [|f fs IH]; intros zipReader console.
  - cbn. rewrite app_nil_r. reflexivity.
  - cbn [for_of_files flat_map]. rewrite entry_log_eq.
    pose proof (extractFile_state (filename f) zipReader) as Hst.
    destruct (extractFile (filename f) zipReader) as [c r']. cbn [fst snd] in *. subst r'.
    rewrite IH. f_equal.
    destruct c as [[stream|]|e];
      [destruct (read_stream pipe stream) as [chunks [error|]]| |];
      rewrite <- !app_assoc; reflexivity.
Qed.

(** The run of the handler on an upload that the constructor accepts. *)
Lemma fetch_accepted (request : Request) (formData : FormData) (file : File)
      (zipReader : ZipReader) :
  request_method request = "POST"%string ->
  request_formData request = Fulfilled formData ->
  formData_get formData (js "file") = Some (form_File file) ->
  new_ZipReader (file_arrayBuffer file) = Normal zipReader ->
  fetch pipe request
  = (Fulfilled
       (new_Response
          (js "Processed "
           ++ js (number_toString (Z.of_nat (List.length (files zipReader))))
           ++ js " entries from " ++ file_name file)
          200 [("Content-Type", "text/plain")%string]),
     log_processing (file_name file)
       :: log_total (Z.of_nat (List.length (files zipReader)))
       :: flat_map (entry_log pipe zipReader) (files zipReader)).
Proof.
  intros Hm Hform Hfile Hr. unfold fetch.
  rewrite Hm, Hform, Hfile, Hr. cbn [String.eqb Ascii.eqb Bool.eqb negb falsy instanceof_File orb].
  change (call_getFiles zipReader) with (files zipReader).
  rewrite for_of_files_eq. reflexivity.
Qed.

(** What the handler does: one of five things. *)
Lemma fetch_cases (request : Request) :
  fetch pipe request = (Fulfilled (new_Response (js "Please POST a file") 405 []), [])
  \/ fetch pipe request = (Fulfilled (new_Response (js "No file uploaded") 400 []), [])
  \/ (exists reason, request_formData request = Rejected reason
                     /\ fetch pipe request = (Rejected reason, []))
  \/ (exists formData file e,
         request_formData request = Fulfilled formData
         /\ formData_get formData (js "file") = Some (form_File file)
         /\ new_ZipReader (file_arrayBuffer file) = Throw e
         /\ fetch pipe request = (Rejected (reader_threw e), []))
  \/ (exists formData file zipReader,
         request_method request = "POST"%string
         /\ request_formData request = Fulfilled formData
         /\ formData_get formData (js "file") = Some (form_File file)
         /\ new_ZipReader (file_arrayBuffer file) = Normal zipReader).
Proof.
  unfold fetch.
  destruct (String.eqb_spec (request_method request) "POST") as [Hm|Hm]; cbn [negb];
    [|left; reflexivity].
  destruct (request_formData request) as [formData|reason] eqn:Hform.
  2:{ right. right. left. exists reason. split; reflexivity. }
  destruct (formData_get formData (js "file")) as [[s|file]|] eqn:Hfile.
  - right. left. destruct s; reflexivity.
  - cbn [falsy instanceof_File negb orb].
    destruct (new_ZipReader (file_arrayBuffer file)) as [zipReader|e] eqn:Hr.
    + right. right. right. right. exists formData, file, zipReader.
      split; [exact Hm|]. split; [reflexivity|]. split; [exact Hfile | exact Hr].
    + right. right. right. left. exists formData, file, e.
      split; [reflexivity|]. split; [exact Hfile|]. split; [exact Hr | reflexivity].
  - right. left. reflexivity.
Qed.

(** X13. The worker never logs ['File not found']: it asks for every entry by
    the name that the reader itself listed, and for such a name the reader
    has an entry, so that the [else] branch of [if (stream)] is not
    reached, whatever the request and whatever the platform does with the
    streams. *)
Theorem file_not_found_never_logged (request : Request) :
  Forall (fun entry => entry <> log_not_found) (snd (fetch pipe request)).
Proof.
  apply Forall_forall. intros entry Hin ->.
  destruct (fetch_cases request)
    as [H|[H|[(reason & _ & H)|[(fd & file & e & _ & _ & _ & H)
                               |(fd & file & r & Hm & Hform & Hfile & Hr)]]]];
    try (rewrite H in Hin; destruct Hin).
  rewrite (fetch_accepted request fd file r Hm Hform Hfile Hr) in Hin. cbn [snd] in Hin.
  destruct Hin as [Hin|[Hin|Hin]]; try discriminate Hin.
  apply in_flat_map in Hin. destruct Hin as (f & Hf & Hin).
  rewrite entry_log_eq in Hin.
  destruct Hin as [Hin|[Hin|[]]]; [discriminate Hin|].
  pose proof (extractFile_listed r f Hf) as Hnot.
  destruct (fst (extractFile (filename f) r)) as [[stream|]|e];
    [|apply Hnot; reflexivity | discriminate Hin].
  destruct (read_stream pipe stream) as [chunks [error|]]; discriminate Hin.
Qed.

(** X14. For an upload that the constructor accepts, the response is a 200
    that reports the entry count declared in the trailer of the archive, and
    the log has two lines of heading and then two lines for each entry, in
    the order of the directory: the title with the name of the entry, and
    what came of extracting it. *)
Theorem worker_reports_directory (request : Request) (formData : FormData) (file : File)
        (zipReader : ZipReader) (e : Z) :
  request_method request = "POST"%string ->
  request_formData request = Fulfilled formData ->
  formData_get formData (js "file") = Some (form_File file) ->
  new_ZipReader (file_arrayBuffer file) = Normal zipReader ->
  findEOCD (fresh_reader (file_arrayBuffer file))
  = (Normal e, fresh_reader (file_arrayBuffer file)) ->
  e <> -1 ->
  let n := peekUint16 (new_DataView (file_arrayBuffer file)) (e + 10) in
  fst (fetch pipe request)
  = Fulfilled
      (new_Response
         (js "Processed " ++ js (number_toString n) ++ js " entries from " ++ file_name file)
         200 [("Content-Type", "text/plain")%string])
  /\ snd (fetch pipe request)
     = log_processing (file_name file) :: log_total n
         :: flat_map (entry_log pipe zipReader) (files zipReader)
  /\ (forall f, exists outcome,
         entry_log pipe zipReader f = [log_title (filename f); outcome])
  /\ List.length (snd (fetch pipe request)) = (2 + 2 * Z.to_nat n)%nat.
Proof.
  intros Hm Hform Hfile Hr Hfind Hne n.
  pose proof (new_ZipReader_length _ e zipReader Hfind Hne Hr) as Hlen.
  pose proof (peekUint16_range (new_DataView (file_arrayBuffer file)) (e + 10)) as Hn.
  fold n in Hlen, Hn.
  rewrite (fetch_accepted request formData file zipReader Hm Hform Hfile Hr).
  rewrite Hlen, Z2Nat.id by lia. cbn [fst snd].
  split; [reflexivity|]. split; [reflexivity|]. split.
  - intros f. rewrite entry_log_eq. eexists. reflexivity.
  - cbn [List.length].
    rewrite (flat_map_constant_length (c := 2%nat)), Hlen; [lia|].
    intros f _. rewrite entry_log_eq. reflexivity.
Qed.

(** X16. What is logged under the title of an entry whose local header and
    payload lie inside the buffer.  The entry that counts is the first one
    with the name.  Stored, it is logged as the text of exactly its payload
    bytes, and the platform's transform is not asked.  Deflated, it is the
    text of what the decompressor delivers, or, when the stream fails at any
    point, the error alone: text read up to there is not logged.  With any
    other method the error of [extractFile] is logged. *)
Theorem entry_log_outcome (zipReader : ZipReader) (f g : ZipFileInfo) (fl el : Z)
        (data : Uint8Array) :
  let dv := dataView zipReader in
  lookup (filename f) (files zipReader) = Some g ->
  getUint32 dv (offset g) = Normal LOCAL_FILE_HEADER_SIGNATURE ->
  getUint16 dv (offset g + 26) = Normal fl ->
  getUint16 dv (offset g + 28) = Normal el ->
  new_Uint8Array (buffer dv) (byteOffset dv + (offset g + 30 + fl + el))
    (compressedSize g) = Normal data ->
  entry_log pipe zipReader f
  = [log_title (filename f);
     if compressionMethod g =? 0 then log_text (TextDecoder_decode data)
     else if compressionMethod g =? 8 then
       match pipe (DecompressionStream "deflate-raw") ([data], None) with
       | (chunks, None) => log_text (read_text chunks)
       | (_, Some error) => log_error (platform_threw error)
       end
     else log_error (reader_threw
                       (Error ("Unsupported compression method: "
                               ++ number_toString (compressionMethod g))%string))].
Proof.
  intros dv Hg Hsig Hfl Hel Hdata.
  rewrite entry_log_eq.
  rewrite (extractFile_found (filename f) zipReader g fl el data Hg Hsig Hfl Hel Hdata).
  cbn [fst].
  destruct (compressionMethod g =? 0).
  - cbn [read_stream]. rewrite read_text_single. reflexivity.
  - destruct (compressionMethod g =? 8); reflexivity.
Qed.

End WorkerProperties.

(** X15. Whether an entry can be extracted, and what the platform makes of
    its stream, has no part in the response: two platforms give the same
    response and logs of the same length.  When the promise is rejected, the
    reason is the one of [request.formData()] or the exception of the
    constructor, and nothing has been logged. *)
Theorem entry_failures_are_contained (pipe pipe' : Pipe) (request : Request) :
  fst (fetch pipe request) = fst (fetch pipe' request)
  /\ List.length (snd (fetch pipe request)) = List.length (snd (fetch pipe' request))
  /\ (forall reason,
        fst (fetch pipe request) = Rejected reason ->
        snd (fetch pipe request) = []
        /\ (request_formData request = Rejected reason
            \/ exists formData file e,
                 request_formData request = Fulfilled formData
                 /\ formData_get formData (js "file") = Some (form_File file)
                 /\ new_ZipReader (file_arrayBuffer file) = Throw e
                 /\ reason = reader_threw e)).
Proof.
  assert (Hsame : forall q : Pipe,
             fst (fetch q request) = fst (fetch pipe request)
             /\ List.length (snd (fetch q request)) = List.length (snd (fetch pipe request))).
  { intros q. unfold fetch.
    destruct (negb _); [split; reflexivity|].
    destruct (request_formData request) as [formData|reason]; [|split; reflexivity].
    destruct (falsy _ || negb _); [split; reflexivity|].
    destruct (formData_get formData (js "file")) as [[s|file]|]; try (split; reflexivity).
    destruct (new_ZipReader (file_arrayBuffer file)) as [zipReader|e]; [|split; reflexivity].
    change (call_getFiles zipReader) with (files zipReader).
    rewrite !for_of_files_eq. cbn [fst snd]. split; [reflexivity|].
    rewrite !length_app. f_equal.
    rewrite !(flat_map_constant_length (c := 2%nat)); [reflexivity| |];
      intros f _; rewrite entry_log_eq; reflexivity. }
  destruct (Hsame pipe') as [Hfst Hlen].
  split; [symmetry; exact Hfst|]. split; [symmetry; exact Hlen|].
  intros reason Hrej.
  destruct (fetch_cases pipe request)
    as [H|[H|[(reason' & Hform & H)|[(fd & file & e & Hform & Hfile & Hr & H)
                                    |(fd & file & r & Hm & Hform & Hfile & Hr)]]]];
    try (rewrite H in Hrej; discriminate Hrej).
  - rewrite H in Hrej |- *. cbn [fst snd] in *. split; [reflexivity|].
    left. congruence.
  - rewrite H in Hrej |- *. cbn [fst snd] in *. split; [reflexivity|].
    right. exists fd, file, e. split; [exact Hform|]. split; [exact Hfile|].
    split; [exact Hr | congruence].
  - rewrite (fetch_accepted pipe request fd file r Hm Hform Hfile Hr) in Hrej.
    discriminate Hrej.
Qed.

(** [test.zip] posted as [test.zip]: three entries, eight lines. *)
Lemma worker_reports_directory_witness :
  fst (fetch Fixture.failing_pipe (Fixture.upload "test.zip" TestData.test_zip))
  = Fulfilled (new_Response (js "Processed 3 entries from test.zip") 200
                 [("Content-Type", "text/plain")%string])
  /\ List.length (snd (fetch Fixture.failing_pipe
                         (Fixture.upload "test.zip" TestData.test_zip))) = 8%nat.
Proof.
  destruct (worker_reports_directory Fixture.failing_pipe
              (Fixture.upload "test.zip" TestData.test_zip)
              [(js "file", form_File {| file_name := js "test.zip";
                                        file_arrayBuffer := TestData.test_zip |})]
              {| file_name := js "test.zip"; file_arrayBuffer := TestData.test_zip |}
              Fixture.test_reader 489)
    as (Hresp & _ & _ & Hlen).
  - reflexivity.
  - reflexivity.
  - reflexivity.
  - vm_compute. reflexivity.
  - vm_compute. reflexivity.
  - discriminate.
  - split.
    + rewrite Hresp. vm_compute. reflexivity.
    + rewrite Hlen. vm_compute. reflexivity.
Defined.

(** [test.zip] with a damaged directory record: the call is rejected with the
    exception of the constructor, and the log is empty. *)
Lemma entry_failures_are_contained_witness :
  fst (fetch Fixture.failing_pipe (Fixture.upload "bad.zip" Fixture.bad_directory_zip))
  = Rejected (reader_threw (Error "Invalid central directory signature"))
  /\ snd (fetch Fixture.failing_pipe (Fixture.upload "bad.zip" Fixture.bad_directory_zip))
     = [].
Proof.
  assert (Hrej : fst (fetch Fixture.failing_pipe
                        (Fixture.upload "bad.zip" Fixture.bad_directory_zip))
                 = Rejected (reader_threw (Error "Invalid central directory signature")))
    by (vm_compute; reflexivity).
  split; [exact Hrej|].
  destruct (entry_failures_are_contained Fixture.failing_pipe Fixture.identity_pipe
              (Fixture.upload "bad.zip" Fixture.bad_directory_zip))
    as (_ & _ & Hcontained).
  exact (proj1 (Hcontained _ Hrej)).
Defined.

(** [file1.txt] of [test.zip], a stored entry, on a platform whose transform
    always fails. *)
Lemma entry_log_outcome_witness :
  exists f,
    nth_error (files Fixture.test_reader) 0 = Some f
    /\ entry_log Fixture.failing_pipe Fixture.test_reader f
       = [log_title (js "file1.txt"); log_text (js "Hello, World!" ++ [10])].
Proof.
  eassert (Hf : nth_error (files Fixture.test_reader) 0 = Some _)
    by (vm_compute; reflexivity).
  eexists. split; [exact Hf|].
  etransitivity.
  - eapply (entry_log_outcome Fixture.failing_pipe Fixture.test_reader).
    + vm_compute; reflexivity.
    + vm_compute; reflexivity.
    + vm_compute; reflexivity.
    + vm_compute; reflexivity.
    + vm_compute; reflexivity.
  - vm_compute; reflexivity.
Defined.

(** X17. The two early answers.  The handler answers 405 exactly when the
    method is not POST, whatever the body is; it answers 400 exactly when
    the method is POST, the form can be read, and the first value under
    [file] is not a [File]: missing, or a string, even when a later value
    under the same name is a [File].  Every answer that is not a 200 comes
    with an empty log. *)
Theorem early_responses (pipe : Pipe) (request : Request) :
  (fst (fetch pipe request) = Fulfilled (new_Response (js "Please POST a file") 405 [])
   <-> request_method request <> "POST"%string)
  /\ (fst (fetch pipe request) = Fulfilled (new_Response (js "No file uploaded") 400 [])
      <-> (request_method request = "POST"%string
           /\ exists formData,
                request_formData request = Fulfilled formData
                /\ forall file, formData_get formData (js "file") <> Some (form_File file)))
  /\ (forall response,
        fst (fetch pipe request) = Fulfilled response -> status response <> 200 ->
        snd (fetch pipe request) = []).
Proof.
  unfold fetch.
  destruct (String.eqb_spec (request_method request) "POST") as [Hm|Hm]; cbn [negb].
  2:{ split; [split; [intros _; exact Hm | reflexivity]|].
      split; [|reflexivity].
      split; [discriminate | intros [Hm' _]; contradiction]. }
  destruct (request_formData request) as [formData|reason] eqn:Hform.
  2:{ cbn [fst snd]. split; [split; [discriminate | intros H; contradiction]|].
      split; [|reflexivity].
      split; [discriminate | intros (_ & fd & Hfd & _); discriminate Hfd]. }
  assert (Hno : forall v, formData_get formData (js "file") = v ->
                          (forall file, v <> Some (form_File file)) ->
                          request_method request = "POST"%string
                          /\ exists fd, Fulfilled formData = Fulfilled fd
                                        /\ forall file, formData_get fd (js "file")
                                                        <> Some (form_File file)).
  { intros v Hv Hnot. split; [exact Hm|]. exists formData. split; [reflexivity|].
    rewrite Hv. exact Hnot. }
  destruct (formData_get formData (js "file")) as [[s|file]|] eqn:Hfile.
  - assert (Hfalsy : falsy (Some (form_string s))
                     || negb (instanceof_File (Some (form_string s))) = true)
      by (destruct s; reflexivity).
    rewrite Hfalsy. cbn [fst snd].
    split; [split; [discriminate | intros H; contradiction]|].
    split; [|reflexivity].
    split; [intros _; apply (Hno _ eq_refl); discriminate | reflexivity].
  - cbn [falsy instanceof_File negb orb].
    assert (Hyes : ~ (request_method request = "POST"%string
                      /\ exists fd, Fulfilled formData = Fulfilled fd
                                    /\ forall file', formData_get fd (js "file")
                                                     <> Some (form_File file'))).
    { intros (_ & fd & Hfd & Hnot). injection Hfd as <-. exact (Hnot file Hfile). }
    destruct (new_ZipReader (file_arrayBuffer file)) as [zipReader|e].
    + change (call_getFiles zipReader) with (files zipReader).
      rewrite for_of_files_eq. cbn [fst snd].
      split; [split; [intros H; inversion H | intros H; contradiction]|].
      split; [split; [intros H; inversion H | intros H; exfalso; exact (Hyes H)]|].
      intros response H Hstatus. inversion H as [Hresp]. subst response.
      exfalso. apply Hstatus. reflexivity.
    + cbn [fst snd]. split; [split; [discriminate | intros H; contradiction]|].
      split; [|reflexivity].
      split; [discriminate | intros H; exfalso; exact (Hyes H)].
  - cbn [falsy orb fst snd].
    split; [split; [discriminate | intros H; contradiction]|].
    split; [|reflexivity].
    split; [intros _; apply (Hno _ eq_refl); discriminate | reflexivity].
Qed.

(** A form with a string under [file] and then the archive under the same
    name. *)
Lemma early_responses_witness :
  fst (fetch Fixture.identity_pipe
         {| request_method := "POST";
            request_formData :=
              Fulfilled [(js "file", form_string (js "test.zip"));
                         (js "file", form_File {| file_name := js "test.zip";
                                                  file_arrayBuffer := TestData.test_zip |})] |})
  = Fulfilled (new_Response (js "No file uploaded") 400 []).
Proof.
  apply (proj2 (proj1 (proj2 (early_responses Fixture.identity_pipe _)))).
  split; [reflexivity|]. eexists. split; [reflexivity|].
  intros file H. cbv in H. discriminate H.
Defined.
